(** * git-archive-recursive: a shallow embedding and its verified properties

    The program archives a git repository with all its submodules at any
    revision.  This development embeds, function by function, the parts of
    [git-archive-recursive.py] that decide what is archived and in which
    order: the collection of git-dirs ([GitDirCollection]), the recursive
    walk over submodules ([recursively_iter_repos]), the job queue
    ([ParallelJobs]) and the control flow of [main].

    External programs (git, tar), the file system and [pathlib] are not
    part of the repository.  They appear as oracles, gathered in the
    records [Env] and [OS] below; every theorem quantifies over them.

    Conventions of the embedding:
    - an exception is a value of [exn]; a function that can raise returns
      a [result];
    - a generator is the list of things it does, in order (the values it
      yields and the lines it prints), together with how it ends;
    - code with side effects on the outside world runs in the monad [M],
      whose state records the trace of effects;
    - the text of a command's output is taken as the source reads it:
      stripped, or split into lines and fields.  The wording of printed
      messages is not modelled, only which message is printed with which
      data. *)

From Stdlib Require Import ZArith List String Ascii Bool Lia PeanoNat.
From Stdlib Require Import Numbers.DecimalString Numbers.DecimalNat.
Import ListNotations.

Open Scope string_scope.
Open Scope list_scope.

(* ===================================================================== *)
(** * Python strings *)
(* ===================================================================== *)

Module PyString.

(** [s.startswith(p)] *)
Definition startswith (s p : string) : bool := String.prefix p s.

(** [s.endswith(suf)]: [s] is [suf], or what follows its first
    character ends with [suf]. *)
Fixpoint endswith (s suf : string) : bool :=
  (s =? suf) ||
  match s with
  | EmptyString => false
  | String _ s' => endswith s' suf
  end.

(** [s[n:]] *)
Fixpoint drop (n : nat) (s : string) : string :=
  match n, s with
  | O, _ => s
  | S _, EmptyString => EmptyString
  | S n', String _ s' => drop n' s'
  end.

(** [s[:-n]] *)
Definition drop_last (n : nat) (s : string) : string :=
  String.substring 0 (String.length s - n) s.

(** [s[a:-b]] *)
Definition slice (a b : nat) (s : string) : string :=
  String.substring a (String.length s - b - a) s.

(** [s[0]]; [None] stands for [IndexError] *)
Definition first (s : string) : option ascii :=
  match s with
  | EmptyString => None
  | String c _ => Some c
  end.

(** [s[-1]]; [None] stands for [IndexError] *)
Fixpoint last (s : string) : option ascii :=
  match s with
  | EmptyString => None
  | String c EmptyString => Some c
  | String _ s' => last s'
  end.

(** [str(n)] for a natural number *)
Definition of_nat (n : nat) : string :=
  NilEmpty.string_of_uint (Nat.to_uint n).

(** a truthy string is a non-empty one *)
Definition truthy (s : string) : bool :=
  match s with
  | EmptyString => false
  | String _ _ => true
  end.

End PyString.

(* ===================================================================== *)
(** * Values that stand for a git-dir: [str] or [pathlib.Path] *)
(* ===================================================================== *)

(** A git-dir reaches the program as a [str] (the output of git, a
    [--lookup] argument) or as a [pathlib.Path].  The two never compare
    equal in Python, whatever their text. *)
Inductive pyval : Type :=
| PyStr (s : string)
| PyPath (p : string).

(** [str(v)] *)
Definition py_str (v : pyval) : string :=
  match v with
  | PyStr s => s
  | PyPath p => p
  end.

(** [a == b] *)
Definition py_eq (a b : pyval) : bool :=
  match a, b with
  | PyStr s, PyStr t => (s =? t)
  | PyPath p, PyPath q => (p =? q)
  | _, _ => false
  end.

(** [x in l] *)
Definition py_in (x : pyval) (l : list pyval) : bool :=
  existsb (py_eq x) l.

(** truth value: a [Path] is always truthy, a [str] when not empty *)
Definition py_truthy (v : pyval) : bool :=
  match v with
  | PyStr s => PyString.truthy s
  | PyPath _ => true
  end.

Definition opt_truthy {A} (t : A -> bool) (o : option A) : bool :=
  match o with
  | None => false
  | Some a => t a
  end.

(* ===================================================================== *)
(** * Messages, exceptions, results *)
(* ===================================================================== *)

(** The messages of the program, each with the data it displays. *)
Inductive message : Type :=
| MsgCommandFailed (returncode : Z) (cmd : list string)
| MsgUnsupportedFormat (format : option string)
| MsgSkippingDepth (top path : string)
| MsgNoGitDir (fullpath rev path top : string) (top_gitdir : pyval)
              (top_rev : string)
| MsgGitmodules (config : list (string * string))
| MsgDryRun (number : nat) (prefix : string)
            (debug : option (string * string * string))
| MsgLaunching (number : nat) (prefix : string)
               (debug : option (string * string * string))
| MsgDryRunDone
| MsgWaiting (number total : nat)
| MsgArchiveFailed (returncode : option Z) (args : list string)
| MsgCleanup (path : string)
| MsgDone.

(** A printed line: [info] writes to the standard output, the other
    three to the standard error. *)
Inductive line : Type :=
| Info (m : message)
| Warning (m : message)
| Error (m : message)
| Fatal (m : message).

Inductive exn : Type :=
| RuntimeError (m : message)
| AssertionError (what : string)
| IndexError
| ValueError
| SystemExit (code : Z)
| AttributeError
| FileNotFoundError
| OSError.

Inductive result (A : Type) : Type :=
| Ok (a : A)
| Raise (e : exn).
Arguments Ok {A} a.
Arguments Raise {A} e.

Definition rbind {A B} (r : result A) (k : A -> result B) : result B :=
  match r with
  | Ok a => k a
  | Raise e => Raise e
  end.

Declare Scope result_scope.
Delimit Scope result_scope with result.
Notation "x <- r ;; k" := (rbind r (fun x => k))
  (at level 61, r at next level, right associativity) : result_scope.

(** [fatal(message)] prints the message and raises [RuntimeError].  The
    printed line is emitted where the exception enters a trace: see
    [exn_lines]. *)
Definition fatal {A} (m : message) : result A := Raise (RuntimeError m).

Definition exn_lines (e : exn) : list line :=
  match e with
  | RuntimeError m => [Fatal m]
  | _ => []
  end.

(* ===================================================================== *)
(** * The environment: git, pathlib and the file system, read only *)
(* ===================================================================== *)

(** The program reads the standard output of a command in two ways:
    stripped of surrounding white space ([run_text]), or line by line,
    each line split into fields ([run_lines]).  Both oracles take the
    whole command line and give the exit status with the output. *)
Record Env : Type := {
  run_text : list string -> Z * string;
  run_lines : list string -> Z * list (list string);
  (** the text of [pathlib.Path(s)] *)
  pathlib : string -> string;
  (** [Path(s).is_dir()] *)
  is_dir : string -> bool
}.

(** [Path(v)]: a [Path] is kept, a [str] is parsed. *)
Definition py_Path (env : Env) (v : pyval) : pyval :=
  match v with
  | PyStr s => PyPath (pathlib env s)
  | PyPath p => PyPath p
  end.

Section Commands.

Variable env : Env.

(** [run(cmd..., ret=...)].  [with_retcode] says whether [RETCODE] is
    among the values asked for; when it is not, a non-zero exit status
    is fatal.  The line [debug: running: ...] that [run] prints on
    stderr when [DEBUG] is set is left out: where a statement gives the
    printed lines of a run one by one, it is the run without
    [--debug]. *)
Definition run {A} (oracle : list string -> Z * A) (cmd : list string)
           (with_retcode : bool) : result (Z * A) :=
  let '(returncode, out) := oracle cmd in
  if negb with_retcode && negb (returncode =? 0)%Z
  then fatal (MsgCommandFailed returncode cmd)
  else Ok (returncode, out).

(** [git(subcommand..., pwd=..., gitdir=..., ret=...)] *)
Definition git {A} (oracle : list string -> Z * A)
           (subcommand : list string)
           (pwd : option string) (gitdir : option pyval)
           (with_retcode : bool) : result (Z * A) :=
  let cmd := ["git"] in
  let cmd := match pwd with
             | Some d => if PyString.truthy d then cmd ++ ["-C"; d] else cmd
             | None => cmd
             end in
  match (if opt_truthy py_truthy gitdir then gitdir else None) with
  | Some g =>
      if opt_truthy PyString.truthy pwd
      then Raise (AssertionError "gitdir and pwd conflicts !?")
      else run oracle ((cmd ++ ["--git-dir"; py_str g]) ++ subcommand)
               with_retcode
  | None => run oracle (cmd ++ subcommand) with_retcode
  end.

(** [is_valid_git_object(obj, typ, gitdir)] *)
Definition is_valid_git_object (obj typ : string) (gitdir : option pyval)
  : result bool :=
  (r <- git (run_text env)
            ["rev-parse"; "-q"; "--verify"; (obj ++ "^{" ++ typ ++ "}")%string]
            None gitdir true ;;
   let '(retcode, stdout) := r in
   if negb (retcode =? 0)%Z || (stdout =? obj)
   then Ok (retcode =? 0)%Z
   else Raise (AssertionError "unexpected rev-parse"))%result.

End Commands.

(* ===================================================================== *)
(** * Python dictionaries with string keys *)
(* ===================================================================== *)

(** A [dict] keeps its keys in insertion order, and the program iterates
    over it: it is an association list with distinct keys. *)
Module PyDict.

Definition t (V : Type) : Type := list (string * V).

Fixpoint get {V} (d : t V) (k : string) : option V :=
  match d with
  | [] => None
  | (k', v) :: d' => if (k' =? k) then Some v else get d' k
  end.

(** [d[k] = v]: replaces in place, or appends a new key *)
Fixpoint set {V} (d : t V) (k : string) (v : V) : t V :=
  match d with
  | [] => [(k, v)]
  | (k', v') :: d' =>
      if (k' =? k) then (k', v) :: d' else (k', v') :: set d' k v
  end.

Definition keys {V} (d : t V) : list string := map fst d.
Definition values {V} (d : t V) : list V := map snd d.
Definition items {V} (d : t V) : list (string * V) := d.

End PyDict.

(* ===================================================================== *)
(** * [class GitDirCollection] *)
(* ===================================================================== *)

Module GitDirCollection.

(** [self.gitdirs] *)
Definition t : Type := PyDict.t (list pyval).

(** [GitDirCollection()] *)
Definition init : t := [].

Section Methods.

Variable env : Env.

(** [add(self, path_hint, gitdir)].  [setdefault] returns the list
    under the key, entering an empty one when the key is new;
    [append] then changes that list in place. *)
Definition add (self : t) (path_hint : pyval) (gitdir : pyval) : t :=
  let key := py_str path_hint in
  let '(self, dirs) :=
    match PyDict.get self key with
    | Some dirs => (self, dirs)
    | None => (PyDict.set self key [], [])
    end in
  if negb (py_in gitdir dirs)
  then PyDict.set self key (dirs ++ [py_Path env gitdir])
  else self.

(** [for gitdir in gitdirs: if is_valid_git_object(...): return gitdir] *)
Fixpoint scan (rev : string) (gitdirs : list pyval)
  : result (option pyval) :=
  match gitdirs with
  | [] => Ok None
  | gitdir :: rest =>
      (valid <- is_valid_git_object env rev "commit" (Some gitdir) ;;
       if valid then Ok (Some gitdir) else scan rev rest)%result
  end.

(** [for gitdirs in self.gitdirs.values(): for gitdir in gitdirs: ...] *)
Fixpoint scan_all (rev : string) (values : list (list pyval))
  : result (option pyval) :=
  match values with
  | [] => Ok None
  | gitdirs :: rest =>
      (found <- scan rev gitdirs ;;
       match found with
       | Some gitdir => Ok (Some gitdir)
       | None => scan_all rev rest
       end)%result
  end.

(** [find(self, path_hint, rev)]; [None] is Python's [None] *)
Definition find (self : t) (path_hint : pyval) (rev : string)
  : result (option pyval) :=
  (hinted <- match PyDict.get self (py_str path_hint) with
             | Some ((_ :: _) as gitdirs) => scan rev gitdirs
             | _ => Ok None
             end ;;
   match hinted with
   | Some gitdir => Ok (Some gitdir)
   | None => scan_all rev (PyDict.values self)
   end)%result.

End Methods.

End GitDirCollection.

(* ===================================================================== *)
(** * Generators *)
(* ===================================================================== *)

(** How a generator, or a run, ends.  [OutOfFuel] belongs to the
    embedding only: the recursion of the walk is bounded by a fuel. *)
Inductive ending : Type :=
| Finished
| Raised (e : exn)
| OutOfFuel.

(** A repository to archive: full path, git-dir, revision. *)
Definition node : Type := string * pyval * string.

(** What [recursively_iter_repos] does, step by step: it yields a node
    or prints a line. *)
Inductive item : Type :=
| Yield (n : node)
| Say (l : line).

(** Raising [e] inside a generator: the line [fatal] prints, if any. *)
Definition raise_items (e : exn) : list item * ending :=
  (map Say (exn_lines e), Raised e).

(** The nodes among the items. *)
Fixpoint nodes_of (its : list item) : list node :=
  match its with
  | [] => []
  | Yield n :: rest => n :: nodes_of rest
  | Say _ :: rest => nodes_of rest
  end.

(* ===================================================================== *)
(** * Submodule configuration, for the diagnostic *)
(* ===================================================================== *)

Section Config.

Variable env : Env.

(** The loop of [git_config]: [key, val = line.split('=', maxsplit=1)]
    then [dic[key] = val]. *)
Fixpoint config_lines (dic : PyDict.t string) (lines : list (list string))
  : result (PyDict.t string) :=
  match lines with
  | [] => Ok dic
  | [key; val] :: rest => config_lines (PyDict.set dic key val) rest
  | _ :: _ => Raise ValueError
  end.

(** [git_config(blob=blob, gitdir=gitdir)]; the outer [None] is the
    [None] returned when git fails.  The program never passes [file]. *)
Definition git_config (blob : string) (gitdir : option pyval)
  : result (option (PyDict.t string)) :=
  let args := [] in
  let args := if PyString.truthy blob then args ++ ["--blob"; blob]
              else args in
  (r <- git (run_lines env) (("config" :: args) ++ ["--list"])
            None gitdir true ;;
   let '(retcode, stdout) := r in
   if negb (retcode =? 0)%Z then Ok None
   else (dic <- config_lines [] stdout ;; Ok (Some dic)))%result.

(** The first loop of [extract_submodule_config]. *)
Fixpoint submodule_name (items : list (string * string)) (path : string)
  : option string :=
  match items with
  | [] => None
  | (key, value) :: rest =>
      if negb (PyString.startswith key "submodule.") then
        submodule_name rest path
      else if negb (PyString.endswith key ".path") then
        submodule_name rest path
      else if negb (value =? path) then
        submodule_name rest path
      else Some (PyString.slice (String.length "submodule.")
                                (String.length ".path") key)
  end.

(** The second loop of [extract_submodule_config]. *)
Fixpoint submodule_keys (config : PyDict.t string) (dulekey : string)
         (items : list (string * string)) : PyDict.t string :=
  match items with
  | [] => config
  | (key, value) :: rest =>
      if PyString.startswith key dulekey
      then submodule_keys
             (PyDict.set config
                         (PyString.drop (String.length dulekey) key) value)
             dulekey rest
      else submodule_keys config dulekey rest
  end.

(** [extract_submodule_config(configs, path)] *)
Definition extract_submodule_config (configs : PyDict.t string)
           (path : string) : option (PyDict.t string) :=
  match submodule_name (PyDict.items configs) path with
  | None => None
  | Some name =>
      let config := PyDict.set [] "name" name in
      let dulekey := ("submodule." ++ name ++ ".")%string in
      Some (submodule_keys config dulekey (PyDict.items configs))
  end.

End Config.

(* ===================================================================== *)
(** * The walk over submodules *)
(* ===================================================================== *)

Section Walk.

Variable env : Env.

(** The loop of [iter_git_submodules_at_rev] over the lines of
    [git ls-tree]: the pairs it yields and the exception that ends it,
    if any. *)
Fixpoint ls_tree_commits (lines : list (list string))
  : list (string * string) * option exn :=
  match lines with
  | [] => ([], None)
  | [chmod; typ; obj; path] :: rest =>
      if negb (typ =? "commit") then ls_tree_commits rest
      else let '(subs, e) := ls_tree_commits rest in
           ((path, obj) :: subs, e)
  | _ :: _ => ([], Some ValueError)
  end.

(** [iter_git_submodules_at_rev(gitdir, rev)] *)
Definition iter_git_submodules_at_rev (gitdir : pyval) (rev : string)
  : list (string * string) * option exn :=
  match git (run_lines env) ["ls-tree"; "-r"; "--full-tree"; rev]
            None (Some gitdir) false with
  | Raise e => ([], Some e)
  | Ok (_, stdout) => ls_tree_commits stdout
  end.

(** [assert path[0] != '/' and path[-1] != '/', "path format"] *)
Definition assert_path_format (path : string) : result unit :=
  match PyString.first path with
  | None => Raise IndexError
  | Some c =>
      if (c =? "/")%char then Raise (AssertionError "path format")
      else match PyString.last path with
           | None => Raise IndexError
           | Some d =>
               if (d =? "/")%char then Raise (AssertionError "path format")
               else Ok tt
           end
  end.

Variable gitdirs : GitDirCollection.t.

(** The branch [if gitdir is None:] of the walk: the diagnostic, then
    [sys.exit(0)]. *)
Definition not_found (top : string) (top_gitdir : pyval)
           (top_rev path rev fullpath : string) : list item * ending :=
  let diagnostic :=
    Say (Error (MsgNoGitDir fullpath rev path top top_gitdir top_rev)) in
  match git_config env (top_rev ++ ":.gitmodules")%string
                   (Some top_gitdir) with
  | Raise e =>
      let '(its, e) := raise_items e in (diagnostic :: its, e)
  | Ok configs =>
      let fyi :=
        match configs with
        | Some ((_ :: _) as configs) =>
            match extract_submodule_config configs path with
            | Some ((_ :: _) as config) => [Say (Info (MsgGitmodules config))]
            | _ => []
            end
        | _ => []
        end in
      (diagnostic :: fyi, Raised (SystemExit 0))
  end.

(** The [for path, rev in iter_git_submodules_at_rev(...)] loop of the
    walk.  [recur] is the recursive call; [subs] and [subs_end] are what
    the inner generator yields and how it ends. *)
Fixpoint walk_submodules
         (recur : string -> pyval -> string -> Z -> list item * ending)
         (top : string) (top_gitdir : pyval) (top_rev : string)
         (depth_count_down : Z)
         (subs : list (string * string)) (subs_end : option exn)
  : list item * ending :=
  match subs with
  | [] =>
      match subs_end with
      | Some e => raise_items e
      | None => ([], Finished)
      end
  | (path, rev) :: rest =>
      if (depth_count_down =? 0)%Z then
        let '(its, e) := walk_submodules recur top top_gitdir top_rev
                                         depth_count_down rest subs_end in
        (Say (Info (MsgSkippingDepth top path)) :: its, e)
      else
        match assert_path_format path with
        | Raise e => raise_items e
        | Ok _ =>
            let fullpath := (top ++ "/" ++ path)%string in
            match GitDirCollection.find env gitdirs (PyStr fullpath) rev with
            | Raise e => raise_items e
            | Ok None =>
                not_found top top_gitdir top_rev path rev fullpath
            | Ok (Some gitdir) =>
                let '(its, e) :=
                  recur fullpath gitdir rev (depth_count_down - 1)%Z in
                match e with
                | Finished =>
                    let '(its', e') :=
                      walk_submodules recur top top_gitdir top_rev
                                      depth_count_down rest subs_end in
                    (its ++ its', e')
                | _ => (its, e)
                end
            end
        end
  end.

(** [recursively_iter_repos(top, top_gitdir, top_rev, gitdirs,
    depth_count_down)].  [fuel] bounds the depth of the recursion. *)
Fixpoint recursively_iter_repos (fuel : nat)
         (top : string) (top_gitdir : pyval) (top_rev : string)
         (depth_count_down : Z) : list item * ending :=
  match fuel with
  | O => ([], OutOfFuel)
  | S fuel' =>
      let '(subs, subs_end) :=
        iter_git_submodules_at_rev top_gitdir top_rev in
      let '(its, e) :=
        walk_submodules (recursively_iter_repos fuel')
                        top top_gitdir top_rev depth_count_down
                        subs subs_end in
      (Yield (top, top_gitdir, top_rev) :: its, e)
  end.

End Walk.

(* ===================================================================== *)
(** * The outside world that the program changes *)
(* ===================================================================== *)

(** Processes, tar and [os.unlink].  A process launched with [Popen] is
    identified by its rank of launch ([pid]); the oracle gives the time
    it runs, in ticks of the scheduler's [time.sleep(0.1)], and its exit
    status.  Every process ends: there is no hung process in the model. *)
Record OS : Type := {
  duration : nat -> list string -> nat;
  status : nat -> list string -> Z;
  (** [run(cmd...)] of a command whose output is not read: exit status *)
  run_status : list string -> Z;
  (** [os.unlink(path)]: the exception raised, if any *)
  unlink : string -> option exn
}.

(** The effects of a run, in the order they happen. *)
Inductive event : Type :=
| EvSay (l : line)
| EvPopen (pid : nat) (cmd : list string)
| EvSleep
| EvWait (pid : nat)
| EvRun (cmd : list string) (returncode : Z)
| EvUnlink (path : string) (raised : option exn).

Record state : Type := {
  clock : nat;
  next_pid : nat;
  trace : list event
}.

Definition initial_state : state :=
  {| clock := 0; next_pid := 0; trace := [] |}.

(** How a computation with effects ends. *)
Inductive outcome (A : Type) : Type :=
| Return (a : A)
| Throw (e : exn)
| NoFuel.
Arguments Return {A} a.
Arguments Throw {A} e.
Arguments NoFuel {A}.

Definition M (A : Type) : Type := state -> outcome A * state.

Definition ret {A} (a : A) : M A := fun st => (Return a, st).

Definition bind {A B} (m : M A) (k : A -> M B) : M B :=
  fun st =>
    match m st with
    | (Return a, st') => k a st'
    | (Throw e, st') => (Throw e, st')
    | (NoFuel, st') => (NoFuel, st')
    end.

Declare Scope m_scope.
Delimit Scope m_scope with M.
Notation "x <- m ;; k" := (bind m (fun x => k))
  (at level 61, m at next level, right associativity) : m_scope.
Notation "m ;; k" := (bind m (fun _ => k))
  (at level 61, right associativity) : m_scope.

Definition emit (e : event) : M unit :=
  fun st => (Return tt,
             {| clock := clock st; next_pid := next_pid st;
                trace := trace st ++ [e] |}).

Definition say (l : line) : M unit := emit (EvSay l).

Definition throw {A} (e : exn) : M A := fun st => (Throw e, st).

Definition no_fuel {A} : M A := fun st => (NoFuel, st).

(** [fatal(message)] in a computation with effects *)
Definition fatal_M {A} (m : message) : M A :=
  (say (Fatal m) ;; throw (RuntimeError m))%M.

(** A pure result enters the trace: [fatal] prints before it raises. *)
Definition lift {A} (r : result A) : M A :=
  match r with
  | Ok a => ret a
  | Raise (RuntimeError m) => fatal_M m
  | Raise e => throw e
  end.

(* ===================================================================== *)
(** * [class ParallelJobs] *)
(* ===================================================================== *)

(** [ud], the [argparse.Namespace] attached to each process *)
Record userdata_t : Type := {
  step : string;
  ud_output : string
}.

(** A [subprocess.Popen] object. *)
Record Popen : Type := {
  pid : nat;
  args : list string;
  userdata : option userdata_t;
  started : nat;
  returncode : option Z
}.

Module ParallelJobs.

Record t : Type := {
  pending : list Popen;
  nproc : Z
}.

(** [ParallelJobs(nproc)] *)
Definition init (nproc : Z) : t :=
  {| pending := [];
     nproc := if (nproc <=? 0)%Z then (-1)%Z else nproc |}.

Section Methods.

Variable os : OS.

Definition finish (p : Popen) : nat :=
  started p + duration os (pid p) (args p).

Definition set_returncode (p : Popen) (rc : option Z) : Popen :=
  {| pid := pid p; args := args p; userdata := userdata p;
     started := started p; returncode := rc |}.

(** [p.poll()] at time [now]: sets [returncode] once the process has
    ended. *)
Definition poll (now : nat) (p : Popen) : Popen :=
  match returncode p with
  | Some _ => p
  | None =>
      if (finish p <=? now)%nat
      then set_returncode p (Some (status os (pid p) (args p)))
      else p
  end.

(** [p.wait()]: blocks until the process has ended. *)
Definition wait (p : Popen) : M Popen :=
  fun st =>
    (Return (set_returncode p (Some (status os (pid p) (args p)))),
     {| clock := Nat.max (clock st) (finish p);
        next_pid := next_pid st;
        trace := trace st ++ [EvWait (pid p)] |}).

(** [time.sleep(0.1)] *)
Definition sleep : M unit :=
  fun st =>
    (Return tt,
     {| clock := S (clock st); next_pid := next_pid st;
        trace := trace st ++ [EvSleep] |}).

(** [subprocess.Popen(cmd)] followed by [proc.userdata = userdata] *)
Definition popen (cmd : list string) (ud : option userdata_t) : M Popen :=
  fun st =>
    (Return {| pid := next_pid st; args := cmd; userdata := ud;
               started := clock st; returncode := None |},
     {| clock := clock st; next_pid := S (next_pid st);
        trace := trace st ++ [EvPopen (next_pid st) cmd] |}).

Definition is_None {A} (o : option A) : bool :=
  match o with None => true | Some _ => false end.

(** The [while True:] loop of [launch].  Polling changes the
    processes of [self.pending] in place. *)
Fixpoint admission (fuel : nat) (self : t) : M t :=
  fun st =>
    let polled := map (poll (clock st)) (pending self) in
    let self := {| pending := polled; nproc := nproc self |} in
    let actually_pending :=
      List.length (filter (fun p => is_None (returncode p)) polled) in
    if (Z.of_nat actually_pending <? nproc self)%Z
    then (Return self, st)
    else match fuel with
         | O => (NoFuel, st)
         | S fuel' => (sleep ;; admission fuel' self)%M st
         end.

(** The latest end of the processes of a list. *)
Definition deadline (l : list Popen) : nat :=
  fold_right (fun p d => Nat.max (finish p) d) 0 l.

(** [launch(self, cmd..., userdata=userdata)].  The fuel given to
    the admission loop is the time left until every pending process
    has ended, which is enough: see [admission_terminates]. *)
Definition launch (self : t) (cmd : list string)
           (ud : option userdata_t) : M t :=
  (self <- (if (1 <? nproc self)%Z
            then fun st =>
                   admission (deadline (pending self) - clock st) self st
            else ret self) ;;
   proc <- popen cmd ud ;;
   proc <- (if (nproc self =? 1)%Z then wait proc else ret proc) ;;
   ret {| pending := pending self ++ [proc]; nproc := nproc self |})%M.

(** [can_wait(self)] *)
Definition can_wait (self : t) : bool :=
  (0 <? List.length (pending self))%nat.

(** [wait_next_in_order(self)]: the process and the object after
    [pop(0)]. *)
Definition wait_next_in_order (self : t) : M (Popen * t) :=
  match pending self with
  | [] => throw IndexError
  | proc :: rest =>
      (proc <- wait proc ;;
       ret (proc, {| pending := rest; nproc := nproc self |}))%M
  end.

End Methods.

End ParallelJobs.

(* ===================================================================== *)
(** * The git-dirs of the submodules currently checked out *)
(* ===================================================================== *)

Section CurrentSubmodules.

Variable env : Env.

(** The loop of [iter_current_submodules_gitdirs] over the lines printed
    by [git submodule foreach].  The second assertion of the source,
    [assert rel_path[0] != '/' "expect relative path, no leading /"],
    has no comma before its message: Python joins the two literals, and
    the first character of [rel_path] is compared with the joined
    text. *)
Fixpoint foreach_gitdirs (lines : list (list string))
  : list (pyval * pyval) * option exn :=
  match lines with
  | [] => ([], None)
  | [name; rel_path; parent; gitdir] :: rest =>
      let gitdir := py_Path env (PyStr gitdir) in
      match PyString.last parent with
      | None => ([], Some IndexError)
      | Some c =>
          if (c =? "/")%char
          then ([], Some (AssertionError "expect no trailing /"))
          else
            match PyString.first rel_path with
            | None => ([], Some IndexError)
            | Some d =>
                if (String d "" =? "/expect relative path, no leading /")
                then ([], Some (AssertionError ""))
                else
                  let abspath :=
                    py_Path env (PyStr (parent ++ "/" ++ rel_path)%string) in
                  if negb (is_dir env (py_str gitdir))
                  then ([], Some (AssertionError "invalid submodule git dir"))
                  else if negb (PyString.startswith (py_str gitdir) "/")
                  then ([], Some (AssertionError "should have been absolute"))
                  else let '(more, e) := foreach_gitdirs rest in
                       ((abspath, gitdir) :: more, e)
            end
      end
  | _ :: _ => ([], Some ValueError)
  end.

(** [iter_current_submodules_gitdirs(pwd=pwd)] *)
Definition iter_current_submodules_gitdirs (pwd : option string)
  : list (pyval * pyval) * option exn :=
  match git (run_lines env)
            ["submodule"; "foreach"; "-q"; "--recursive";
             "echo $name $sm_path $toplevel $(git rev-parse --absolute-git-dir)"]
            pwd None false with
  | Raise e => ([], Some e)
  | Ok (_, stdout) => foreach_gitdirs stdout
  end.

End CurrentSubmodules.

(* ===================================================================== *)
(** * [main] *)
(* ===================================================================== *)

(** The options, as [argparse] hands them to [main]. *)
Record options : Type := {
  tree_ish : option string;
  output : string;
  format : option string;
  prefix : string;
  opt_nproc : Z;
  lookup : option (list string);
  depth : Z;
  dryrun : bool;
  debug : bool
}.

(** The loop [for ext in ['tar.gz', 'tar', 'tgz', 'zip']] that runs when
    no format is given; it has no [break]. *)
Definition format_of_output (output : string) : option string :=
  fold_left (fun format ext =>
               if PyString.endswith output ("." ++ ext)%string
               then Some ext else format)
            ["tar.gz"; "tar"; "tgz"; "zip"] None.

(** [opt.format] after the inference. *)
Definition effective_format (opt : options) : option string :=
  match format opt with
  | None => format_of_output (output opt)
  | Some f => Some f
  end.

Definition SUPPORTED_FORMAT : list string := ["tar"].

(** [opt.format not in SUPPORTED_FORMAT]: the format left, when supported *)
Definition supported (format : option string) : option string :=
  match format with
  | Some f => if existsb (String.eqb f) SUPPORTED_FORMAT then Some f else None
  | None => None
  end.

Section Main.

Variable env : Env.
Variable os : OS.

(** The end of a generator, reached by the [for] loop that consumes it.
    The line of a fatal error is already among the generator's items. *)
Definition generator_end (e : ending) : M unit :=
  match e with
  | Finished => ret tt
  | Raised e => throw e
  | OutOfFuel => no_fuel
  end.

(** The archive command of a node. *)
Definition archive_cmd (gitdir : pyval) (format output rev prefix : string)
  : list string :=
  ["git"; "--git-dir"; py_str gitdir; "archive";
   "--format"; format;
   "--output"; output; rev;
   "--prefix"; prefix].

(** The body of the loop over the nodes.  The loop carries [jobs] and
    [total]. *)
Definition main_node (opt : options) (format : string) (top_slash : string)
           (n : node) (acc : ParallelJobs.t * nat)
  : M (ParallelJobs.t * nat) :=
  let '(fullpath, gitdir, rev) := n in
  let '(jobs, total) := acc in
  let prefix_ := (fullpath ++ "/")%string in
  if negb (PyString.startswith prefix_ top_slash)
  then throw (AssertionError "path not under top")
  else
    let prefix_ := PyString.drop (String.length top_slash) prefix_ in
    let prefix_ := (prefix opt ++ prefix_)%string in
    let ud := {| step := "gitarchive";
                 ud_output := (output opt ++ "." ++ PyString.of_nat total)%string |} in
    let dbg := if debug opt
               then Some (py_str gitdir, rev, ud_output ud) else None in
    (jobs <- (if dryrun opt
              then (say (Info (MsgDryRun (total + 1) prefix_ dbg)) ;; ret jobs)
              else (say (Info (MsgLaunching (total + 1) prefix_ dbg)) ;;
                    ParallelJobs.launch os jobs
                      (archive_cmd gitdir format (ud_output ud) rev prefix_)
                      (Some ud))) ;;
     ret (jobs, total + 1))%M.

(** [for fullpath, gitdir, rev in recursively_iter_repos(...)]: the
    items of the generator in order, the body at each node. *)
Fixpoint main_nodes (opt : options) (format : string) (top_slash : string)
         (its : list item) (acc : ParallelJobs.t * nat)
  : M (ParallelJobs.t * nat) :=
  match its with
  | [] => ret acc
  | Say l :: rest =>
      (say l ;; main_nodes opt format top_slash rest acc)%M
  | Yield n :: rest =>
      (acc <- main_node opt format top_slash n acc ;;
       main_nodes opt format top_slash rest acc)%M
  end.

(** [os.unlink(path)] *)
Definition os_unlink (path : string) : M unit :=
  fun st =>
    let r := unlink os path in
    let st := {| clock := clock st; next_pid := next_pid st;
                 trace := trace st ++ [EvUnlink path r] |} in
    match r with
    | None => (Return tt, st)
    | Some e => (Throw e, st)
    end.

(** [try: m except FileNotFoundError: pass] *)
Definition except_FileNotFoundError (m : M unit) : M unit :=
  fun st =>
    match m st with
    | (Throw FileNotFoundError, st') => (Return tt, st')
    | r => r
    end.

(** [try: m except: handler] *)
Definition except_all (m : M unit) (handler : M unit) : M unit :=
  fun st =>
    match m st with
    | (Throw _, st') => handler st'
    | r => r
    end.

(** [run(cmd...)] of a command that changes files: the call is an
    effect, and a non-zero exit status is fatal. *)
Definition run_M (cmd : list string) : M unit :=
  (emit (EvRun cmd (run_status os cmd)) ;;
   _ <- lift (run (fun cmd => (run_status os cmd, tt)) cmd false) ;;
   ret tt)%M.

(** [proc.returncode != 0] *)
Definition nonzero (returncode : option Z) : bool :=
  match returncode with
  | Some rc => negb (rc =? 0)%Z
  | None => true
  end.

(** The [while jobs.can_wait():] loop.  Each turn removes one process
    from [jobs.pending]; [fuel] is its length at the start. *)
Fixpoint main_drain (fuel : nat) (opt_format : string) (final_output : string)
         (jobs : ParallelJobs.t) (done total : nat) : M unit :=
  if ParallelJobs.can_wait jobs then
    match fuel with
    | O => no_fuel
    | S fuel' =>
        (say (Info (MsgWaiting (done + 1) total)) ;;
         r <- ParallelJobs.wait_next_in_order os jobs ;;
         let '(proc, jobs) := r in
         if nonzero (returncode proc)
         then fatal_M (MsgArchiveFailed (returncode proc) (args proc))
         else
           if negb (opt_format =? "tar")
           then throw (AssertionError "only support tar")
           else
             match userdata proc with
             | None => throw AttributeError
             | Some ud =>
                 (run_M ["tar"; "--concatenate"; "-f"; final_output;
                         ud_output ud] ;;
                  except_all (os_unlink (ud_output ud))
                             (say (Warning (MsgCleanup (ud_output ud)))) ;;
                  main_drain fuel' opt_format final_output jobs
                             (done + 1) total)
             end)%M
    end
  else ret tt.

(** The first part of [main], once the format is accepted: the
    revision, the top directory and its git-dir, and the registry of
    git-dirs.  It changes nothing outside. *)
Definition main_setup (opt : options)
  : result (string * string * string * GitDirCollection.t) :=
  let rev := match tree_ish opt with
             | None => "HEAD"
             | Some r => r
             end in
  (r <- git (run_text env) ["rev-parse"; rev] None None false ;;
   let top_rev := snd r in
   let gitdirs := GitDirCollection.init in
   r <- git (run_text env) ["rev-parse"; "--show-toplevel"]
            None None false ;;
   let top := snd r in
   r <- git (run_text env) ["rev-parse"; "--absolute-git-dir"]
            None None false ;;
   let top_gitdir := snd r in
   let gitdirs :=
     GitDirCollection.add env gitdirs (PyStr top) (PyStr top_gitdir) in
   let '(submodules, submodules_end) :=
     iter_current_submodules_gitdirs env (Some top) in
   let gitdirs :=
     fold_left (fun gitdirs '(abspath, gitdir) =>
                  GitDirCollection.add env gitdirs abspath gitdir)
               submodules gitdirs in
   _ <- match submodules_end with
        | Some e => Raise e
        | None => Ok tt
        end ;;
   let gitdirs :=
     match lookup opt with
     | Some lookups =>
         fold_left (fun gitdirs lookup =>
                      GitDirCollection.add env gitdirs
                                           (PyStr "--lookup") (PyStr lookup))
                   lookups gitdirs
     | None => gitdirs
     end in
   Ok (top_rev, top, top_gitdir, gitdirs))%result.

(** The last part of [main], after the loop over the nodes. *)
Definition main_finish (opt : options) (opt_format : string)
           (jobs : ParallelJobs.t) (total : nat) : M Z :=
  if dryrun opt then
    (say (Info MsgDryRunDone) ;; ret 0%Z)%M
  else
    let final_output := output opt in
    (except_FileNotFoundError (os_unlink final_output) ;;
     main_drain (List.length (ParallelJobs.pending jobs))
                opt_format final_output jobs 0 total ;;
     say (Info MsgDone) ;;
     ret 0%Z)%M.

(** [main(args)], from the parsed options on.  [fuel] bounds the depth
    of the recursion of the walk. *)
Definition main (fuel : nat) (opt : options) : M Z :=
  let opt_format := effective_format opt in
  match supported opt_format with
  | None => fatal_M (MsgUnsupportedFormat opt_format)
  | Some opt_format =>
      (s <- lift (main_setup opt) ;;
       let '(top_rev, top, top_gitdir, gitdirs) := s in
       let jobs := ParallelJobs.init (opt_nproc opt) in
       let top_slash := (top ++ "/")%string in
       let '(its, e) :=
         recursively_iter_repos env gitdirs fuel top (PyStr top_gitdir)
                                top_rev (depth opt) in
       acc <- main_nodes opt opt_format top_slash its (jobs, 0) ;;
       generator_end e ;;
       let '(jobs, total) := acc in
       main_finish opt opt_format jobs total)%M
  end.

(** The exit status of the process: [sys.exit(main(...))], where an
    exception other than [SystemExit] ends the interpreter with 1. *)
Definition exit_status (o : outcome Z) : option Z :=
  match o with
  | Return z => Some z
  | Throw (SystemExit code) => Some code
  | Throw _ => Some 1%Z
  | NoFuel => None
  end.

End Main.

(* ===================================================================== *)
(** * The registry, in the words of the specification *)
(* ===================================================================== *)

Section RegistrySpec.

Variable env : Env.

(** The command line with which the program asks a store for [rev]. *)
Definition verify_cmd (store : pyval) (rev : string) : list string :=
  ((if py_truthy store then ["git"; "--git-dir"; py_str store] else ["git"])
     ++ ["rev-parse"; "-q"; "--verify"; (rev ++ "^{commit}")%string]).

(** The object database of [store] contains [rev] as a valid commit
    object: git says so. *)
Definition contains_commit (rev : string) (store : pyval) : bool :=
  (fst (run_text env (verify_cmd store rev)) =? 0)%Z.

(** git answers with the very id it was asked for.  The source asserts
    it; a mismatch is an invariant violation, not a NotFound. *)
Definition answers_exactly (rev : string) (store : pyval) : Prop :=
  fst (run_text env (verify_cmd store rev)) = 0%Z ->
  snd (run_text env (verify_cmd store rev)) = rev.

(** The stores registered under a hint, in insertion order. *)
Definition stores_under (reg : GitDirCollection.t) (hint : string)
  : list pyval :=
  match PyDict.get reg hint with
  | Some stores => stores
  | None => []
  end.

(** Every registered store: the hints in the order they were registered,
    the stores of a hint in insertion order. *)
Definition all_stores (reg : GitDirCollection.t) : list pyval :=
  List.concat (PyDict.values reg).

(** [find(hint, revision)] as the specification words it: the first
    store under the hint that contains the revision, else the first of
    all the stores, else NotFound. *)
Definition find_spec (reg : GitDirCollection.t) (hint : string)
           (rev : string) : option pyval :=
  match List.find (contains_commit rev) (stores_under reg hint) with
  | Some store => Some store
  | None => List.find (contains_commit rev) (all_stores reg)
  end.

(** The registry after a sequence of calls to [add]. *)
Definition add_all (reg : GitDirCollection.t) (calls : list (pyval * pyval))
  : GitDirCollection.t :=
  fold_left (fun reg '(hint, store) => GitDirCollection.add env reg hint store)
            calls reg.

(** No hint holds the same handle twice. *)
Definition no_duplicate (reg : GitDirCollection.t) : Prop :=
  forall stores, In stores (PyDict.values reg) -> NoDup stores.

End RegistrySpec.

(* ===================================================================== *)
(** * The walk, in the words of the specification *)
(* ===================================================================== *)

#[local] Set Warnings "-register-all".

(** The tree of nested repositories. *)
Inductive tree : Type :=
| Node (n : node) (children : list tree).

(** Depth-first pre-order: a node, then the subtree of each child, one
    child after the other. *)
Fixpoint preorder (t : tree) : list node :=
  match t with
  | Node n children => n :: flat_map preorder children
  end.

Definition root (t : tree) : node :=
  match t with
  | Node n _ => n
  end.

Fixpoint size (t : tree) : nat :=
  match t with
  | Node _ children => S (list_sum (map size children))
  end.

Fixpoint height (t : tree) : nat :=
  match t with
  | Node _ children => S (list_max (map height children))
  end.

Section WalkSpec.

Variable env : Env.
Variable gitdirs : GitDirCollection.t.

(** The gitlink entries of a revision, in the order of the listing:
    relative path and pinned revision.  [None] when the listing fails. *)
Definition gitlinks (store : pyval) (rev : string)
  : option (list (string * string)) :=
  match iter_git_submodules_at_rev env store rev with
  | (entries, None) => Some entries
  | (_, Some _) => None
  end.

(** [reachable d n t]: [t] is the tree of the repositories reachable
    from the node [n] within depth [d], every gitlink entry resolved by
    the registry.  A negative depth never reaches 0: it is unlimited.
    [reachable_entries d top entries children] resolves the entries of
    one listing, in order. *)
Inductive reachable : Z -> node -> tree -> Prop :=
| reachable_stop top store rev entries :
    gitlinks store rev = Some entries ->
    reachable 0 (top, store, rev) (Node (top, store, rev) [])
| reachable_recurse d top store rev entries children :
    d <> 0%Z ->
    gitlinks store rev = Some entries ->
    reachable_entries d top entries children ->
    reachable d (top, store, rev) (Node (top, store, rev) children)
with reachable_entries : Z -> string -> list (string * string) ->
                         list tree -> Prop :=
| reachable_nil d top :
    reachable_entries d top [] []
| reachable_cons d top path pinned entries store child children :
    assert_path_format path = Ok tt ->
    GitDirCollection.find env gitdirs (PyStr (top ++ "/" ++ path)%string)
                          pinned = Ok (Some store) ->
    reachable (d - 1) ((top ++ "/" ++ path)%string, store, pinned) child ->
    reachable_entries d top entries children ->
    reachable_entries d top ((path, pinned) :: entries) (child :: children).

(** The full tree: the same with no depth at all. *)
Inductive full : node -> tree -> Prop :=
| full_node top store rev entries children :
    gitlinks store rev = Some entries ->
    full_entries top entries children ->
    full (top, store, rev) (Node (top, store, rev) children)
with full_entries : string -> list (string * string) -> list tree -> Prop :=
| full_nil top :
    full_entries top [] []
| full_cons top path pinned entries store child children :
    assert_path_format path = Ok tt ->
    GitDirCollection.find env gitdirs (PyStr (top ++ "/" ++ path)%string)
                          pinned = Ok (Some store) ->
    full ((top ++ "/" ++ path)%string, store, pinned) child ->
    full_entries top entries children ->
    full_entries top ((path, pinned) :: entries) (child :: children).

End WalkSpec.

Scheme reachable_ind' := Minimality for reachable Sort Prop
  with reachable_entries_ind' := Minimality for reachable_entries Sort Prop.
Combined Scheme reachable_mutind from reachable_ind', reachable_entries_ind'.

Scheme full_ind' := Minimality for full Sort Prop
  with full_entries_ind' := Minimality for full_entries Sort Prop.
Combined Scheme full_mutind from full_ind', full_entries_ind'.

(* ===================================================================== *)
(** * The scheduler, in the words of the specification *)
(* ===================================================================== *)

(** What identifies a job: the rank of its launch, its command and the
    metadata attached to it. *)
Definition job : Type := nat * list string * option userdata_t.

Definition job_of (p : Popen) : job := (pid p, args p, userdata p).

(** A use of the scheduler: launches and ordered waits, in any order. *)
Inductive job_op : Type :=
| OpLaunch (cmd : list string) (ud : option userdata_t)
| OpWait.

(** The jobs that a sequence of operations launches, numbered from
    [first]. *)
Fixpoint launched (first : nat) (ops : list job_op) : list job :=
  match ops with
  | [] => []
  | OpLaunch cmd ud :: rest => (first, cmd, ud) :: launched (S first) rest
  | OpWait :: rest => launched first rest
  end.

(** The number of ordered waits in a sequence of operations. *)
Fixpoint count_waits (ops : list job_op) : nat :=
  match ops with
  | [] => 0
  | OpLaunch _ _ :: rest => count_waits rest
  | OpWait :: rest => S (count_waits rest)
  end.

(** No wait of the sequence comes when the queue is empty: [queued] is
    the number of jobs in the queue at the start. *)
Fixpoint well_queued (ops : list job_op) (queued : nat) : bool :=
  match ops with
  | [] => true
  | OpLaunch _ _ :: rest => well_queued rest (S queued)
  | OpWait :: rest =>
      match queued with
      | O => false
      | S q => well_queued rest q
      end
  end.

Section SchedulerSpec.

Variable os : OS.

(** Runs the operations; [returned] collects, in order, the processes
    that [wait_next_in_order] returns. *)
Fixpoint run_ops (ops : list job_op) (jobs : ParallelJobs.t)
         (returned : list Popen) : M (list Popen * ParallelJobs.t) :=
  match ops with
  | [] => ret (returned, jobs)
  | OpLaunch cmd ud :: rest =>
      (jobs <- ParallelJobs.launch os jobs cmd ud ;;
       run_ops rest jobs returned)%M
  | OpWait :: rest =>
      (r <- ParallelJobs.wait_next_in_order os jobs ;;
       run_ops rest (snd r) (returned ++ [fst r]))%M
  end.

(** The process has ended by the time [now]. *)
Definition ended (now : nat) (p : Popen) : bool :=
  (ParallelJobs.finish os p <=? now)%nat.

End SchedulerSpec.

(* ===================================================================== *)
(** * Runs and their traces *)
(* ===================================================================== *)

(** The state after some more events, the clock and the count of
    processes unchanged. *)
Definition with_trace (st : state) (evs : list event) : state :=
  {| clock := clock st; next_pid := next_pid st; trace := trace st ++ evs |}.

(** The event changes a file: a segment is appended to the final
    archive, or a file is removed. *)
Definition is_assembly (e : event) : bool :=
  match e with
  | EvRun _ _ | EvUnlink _ _ => true
  | _ => false
  end.

(** The commands of the processes launched, in order. *)
Fixpoint popens (tr : list event) : list (list string) :=
  match tr with
  | [] => []
  | EvPopen _ cmd :: rest => cmd :: popens rest
  | _ :: rest => popens rest
  end.

(** The processes waited for, in order. *)
Fixpoint waits (tr : list event) : list nat :=
  match tr with
  | [] => []
  | EvWait pid :: rest => pid :: waits rest
  | _ :: rest => waits rest
  end.

(** The intended actions that a dry run prints: number and prefix. *)
Fixpoint dry_runs (tr : list event) : list (nat * string) :=
  match tr with
  | [] => []
  | EvSay (Info (MsgDryRun number prefix _)) :: rest =>
      (number, prefix) :: dry_runs rest
  | _ :: rest => dry_runs rest
  end.

(** The node is the top directory or lies under it. *)
Definition under (top : string) (n : node) : Prop :=
  fst (fst n) = top \/ exists rel, fst (fst n) = (top ++ "/" ++ rel)%string.

Section RunSpec.

Variable opt : options.

(** The prefix of a node in the archive: the prefix option, then the
    path of the node relative to the top directory, with its slash. *)
Definition node_prefix (top : string) (n : node) : string :=
  (prefix opt
     ++ PyString.drop (String.length (top ++ "/"))
                      (fst (fst n) ++ "/"))%string.

(** The segment file of the job of rank [i]. *)
Definition segment (i : nat) : string :=
  (output opt ++ "." ++ PyString.of_nat i)%string.

(** The archive command of the node of rank [i]. *)
Definition node_cmd (format top : string) (i : nat) (n : node)
  : list string :=
  archive_cmd (snd (fst n)) format (segment i) (snd n) (node_prefix top n).

(** The commands of the nodes, numbered from [total]. *)
Fixpoint node_cmds (format top : string) (total : nat) (nodes : list node)
  : list (list string) :=
  match nodes with
  | [] => []
  | n :: rest => node_cmd format top total n
                   :: node_cmds format top (S total) rest
  end.

(** The intended actions of the nodes, numbered from [total]. *)
Fixpoint node_actions (top : string) (total : nat) (nodes : list node)
  : list (nat * string) :=
  match nodes with
  | [] => []
  | n :: rest => (S total, node_prefix top n)
                   :: node_actions top (S total) rest
  end.

End RunSpec.

(** The format inferred from the extension of the output path: the first
    of the four extensions, in the order they are tested, that ends the
    path. *)
Definition format_by_extension (output : string) : option string :=
  if PyString.endswith output ".tar.gz" then Some "tar.gz"
  else if PyString.endswith output ".tar" then Some "tar"
  else if PyString.endswith output ".tgz" then Some "tgz"
  else if PyString.endswith output ".zip" then Some "zip"
  else None.

(** The paths of a listing are those of the gitlink entries of one git
    tree: no path twice, and no path inside the directory of another. *)
Definition well_listed (entries : list (string * string)) : Prop :=
  NoDup (map fst entries)
  /\ forall p q rel,
      In p (map fst entries) -> In q (map fst entries) ->
      q <> (p ++ "/" ++ rel)%string.

(** The full paths of some nodes. *)
Definition fullpaths (nodes : list node) : list string :=
  map (fun n : node => fst (fst n)) nodes.

(* ===================================================================== *)
(** * Notions used in the proofs *)
(* ===================================================================== *)

(** Every handle the registry holds is a [Path]: [add] stores
    [Path(gitdir)]. *)
Definition holds_paths (reg : GitDirCollection.t) : Prop :=
  forall l v, In l (PyDict.values reg) -> In v l -> exists p, v = PyPath p.

(** The end of a generator that yields pairs, as the end of a walk. *)
Definition ending_of (e : option exn) : ending :=
  match e with
  | None => Finished
  | Some x => Raised x
  end.

(** The effects of a launch: sleeps, one process started, and the wait
    of the synchronous mode. *)
Definition launch_events (k : nat) (pid : nat) (cmd : list string)
           (sync : bool) : list event :=
  repeat EvSleep k ++ [EvPopen pid cmd] ++ if sync then [EvWait pid] else [].

(** The lines of the walk are not intended actions of a dry run. *)
Definition no_dry_run (its : list item) : Prop :=
  dry_runs (flat_map (fun it => match it with
                                | Say l => [EvSay l]
                                | Yield _ => []
                                end) its) = [].

(** The items of a generator as they appear in the trace of a dry run:
    the lines of the walk and, for each node, its intended action. *)
Fixpoint dry_run_events (opt : options) (top : string) (total : nat)
         (its : list item)
  : list event :=
  match its with
  | [] => []
  | Say l :: rest => EvSay l :: dry_run_events opt top total rest
  | Yield (fullpath, gitdir, rev) :: rest =>
      EvSay (Info (MsgDryRun (total + 1)
                     (node_prefix opt top (fullpath, gitdir, rev))
                     (if debug opt
                      then Some (py_str gitdir, rev, segment opt total)
                      else None)))
        :: dry_run_events opt top (total + 1) rest
  end.

(** The command that appends a segment to the final archive. *)
Definition tar_cmd (final_output seg : string) : list string :=
  ["tar"; "--concatenate"; "-f"; final_output; seg].


(* ===================================================================== *)
(** * Further notions: the scheduler at work *)
(* ===================================================================== *)

Section SchedulerState.

Variable os : OS.

(** The processes of a list that still run at the time [now]. *)
Definition running (now : nat) (l : list Popen) : list Popen :=
  filter (fun p => negb (ended os now p)) l.

(** A return code is known only for a process that has ended. *)
Definition codes_sound (now : nat) (l : list Popen) : Prop :=
  forall p, In p l -> returncode p <> None -> ended os now p = true.

(** Every process of the list has ended at the time [now]. *)
Definition all_ended (now : nat) (l : list Popen) : Prop :=
  forall p, In p l -> ended os now p = true.

(** The launches of a list of commands, one after the other. *)
Definition launches (cmds : list (list string)) : list job_op :=
  map (fun cmd => OpLaunch cmd None) cmds.

End SchedulerState.

(** The sleeps of a trace. *)
Fixpoint sleeps (tr : list event) : nat :=
  match tr with
  | [] => 0
  | EvSleep :: rest => S (sleeps rest)
  | _ :: rest => sleeps rest
  end.

(** The launches of some commands as events, numbered from [first]. *)
Fixpoint popen_events (first : nat) (cmds : list (list string))
  : list event :=
  match cmds with
  | [] => []
  | cmd :: rest => EvPopen first cmd :: popen_events (S first) rest
  end.

(* ===================================================================== *)
(** * Further notions: the commands of a run *)
(* ===================================================================== *)

(** The argument of [--output] in an archive command. *)
Definition cmd_output (cmd : list string) : string := nth 7 cmd "".

(** The argument of [--prefix] in an archive command. *)
Definition cmd_prefix (cmd : list string) : string := nth 10 cmd "".

(** The options with the dry-run flag set or cleared. *)
Definition set_dryrun (b : bool) (o : options) : options :=
  {| tree_ish := tree_ish o; output := output o; format := format o;
     prefix := prefix o; opt_nproc := opt_nproc o; lookup := lookup o;
     depth := depth o; dryrun := b; debug := debug o |}.

(** The commands run to the end, in order: the appends of tar. *)
Fixpoint runs (tr : list event) : list (list string) :=
  match tr with
  | [] => []
  | EvRun cmd _ :: rest => cmd :: runs rest
  | _ :: rest => runs rest
  end.

(** The files given to [os.unlink], in order. *)
Fixpoint unlinks (tr : list event) : list string :=
  match tr with
  | [] => []
  | EvUnlink path _ :: rest => path :: unlinks rest
  | _ :: rest => unlinks rest
  end.

(** The jobs of the nodes: processes numbered from [first], segments
    numbered from [total]. *)
Fixpoint node_jobs (opt : options) (format top : string) (first total : nat)
         (nodes : list node) : list job :=
  match nodes with
  | [] => []
  | n :: rest =>
      (first, node_cmd opt format top total n,
       Some {| step := "gitarchive"; ud_output := segment opt total |})
        :: node_jobs opt format top (S first) (S total) rest
  end.

(** The segments of some jobs. *)
Definition job_segments (jobs : list job) : list string :=
  flat_map (fun j : job => match snd j with
                           | Some ud => [ud_output ud]
                           | None => []
                           end) jobs.

Section Assemble.

Variable os : OS.
Variable final_output : string.

(** The assembly of a queue of jobs, job after job: the effects and how
    it ends. *)
Fixpoint assemble (jobs : list job) (done total : nat)
  : list event * outcome unit :=
  match jobs with
  | [] => ([], Return tt)
  | (pid, args, ud) :: rest =>
      let waited := [EvSay (Info (MsgWaiting (done + 1) total)); EvWait pid] in
      let rc := status os pid args in
      if negb (rc =? 0)%Z then
        (waited ++ [EvSay (Fatal (MsgArchiveFailed (Some rc) args))],
         Throw (RuntimeError (MsgArchiveFailed (Some rc) args)))
      else
        match ud with
        | None => (waited, Throw AttributeError)
        | Some ud =>
            let cmd := tar_cmd final_output (ud_output ud) in
            let trc := run_status os cmd in
            if negb (trc =? 0)%Z then
              (waited ++ [EvRun cmd trc;
                          EvSay (Fatal (MsgCommandFailed trc cmd))],
               Throw (RuntimeError (MsgCommandFailed trc cmd)))
            else
              let removed := unlink os (ud_output ud) in
              let '(evs, o) := assemble rest (done + 1) total in
              (waited
                 ++ [EvRun cmd trc; EvUnlink (ud_output ud) removed]
                 ++ match removed with
                    | None => []
                    | Some _ => [EvSay (Warning (MsgCleanup (ud_output ud)))]
                    end
                 ++ evs, o)
        end
  end.

End Assemble.

(** A job that goes through the assembly: the archive process exits with
    0, and so does the tar that appends its segment. *)
Definition job_ok (os : OS) (final_output : string) (j : job) : bool :=
  match j with
  | (pid, args, Some ud) =>
      (status os pid args =? 0)%Z
      && (run_status os (tar_cmd final_output (ud_output ud)) =? 0)%Z
  | (_, _, None) => false
  end.

(** What [main] returns after an assembly that ended with [o]. *)
Definition main_result (o : outcome unit) : outcome Z :=
  match o with
  | Return _ => Return 0%Z
  | Throw x => Throw x
  | NoFuel => NoFuel
  end.

(** The last line of a run whose assembly ended with [o]. *)
Definition done_events (o : outcome unit) : list event :=
  match o with
  | Return _ => [EvSay (Info MsgDone)]
  | _ => []
  end.

(* ===================================================================== *)
(** * Further notions: what git prints, read back *)
(* ===================================================================== *)

(** A line [key=value] of [git config --list], split at the first [=]. *)
Definition config_line (kv : string * string) : list string :=
  [fst kv; snd kv].

(** The value of the last assignment to [k] in a list of assignments. *)
Fixpoint last_value (kvs : list (string * string)) (k : string)
  : option string :=
  match kvs with
  | [] => None
  | (k', v) :: rest =>
      match last_value rest k with
      | Some v' => Some v'
      | None => if (k' =? k) then Some v else None
      end
  end.

(** An entry of [git ls-tree]: mode, type, object and path. *)
Definition ls_entry : Type := string * string * string * string.

(** The line of an entry, split into its four fields. *)
Definition ls_line (e : ls_entry) : list string :=
  let '(mode, typ, obj, path) := e in [mode; typ; obj; path].

(** The entries of type [commit], as pairs of a path and a commit. *)
Fixpoint gitlink_entries (entries : list ls_entry)
  : list (string * string) :=
  match entries with
  | [] => []
  | (mode, typ, obj, path) :: rest =>
      if (typ =? "commit") then (path, obj) :: gitlink_entries rest
      else gitlink_entries rest
  end.

(** A line of [git submodule foreach]: name, path in the parent, top
    level of the parent, git-dir. *)
Definition foreach_entry : Type := string * string * string * string.

Definition foreach_line (e : foreach_entry) : list string :=
  let '(name, rel_path, parent, gitdir) := e in
  [name; rel_path; parent; gitdir].

(** The checks of [iter_current_submodules_gitdirs] that can fail: the
    parent does not end with a slash, the path is not empty, the git-dir
    is an existing directory with an absolute path. *)
Definition foreach_accepted (env : Env) (e : foreach_entry) : bool :=
  let '(name, rel_path, parent, gitdir) := e in
  match PyString.last parent with
  | Some c => negb (c =? "/")%char
  | None => false
  end
  && PyString.truthy rel_path
  && is_dir env (pathlib env gitdir)
  && PyString.startswith (pathlib env gitdir) "/".

(** The pair yielded for a line. *)
Definition foreach_pair (env : Env) (e : foreach_entry) : pyval * pyval :=
  let '(name, rel_path, parent, gitdir) := e in
  (PyPath (pathlib env (parent ++ "/" ++ rel_path)%string),
   PyPath (pathlib env gitdir)).

(* ===================================================================== *)
(** * A sample project *)
(* ===================================================================== *)

(** A repository [/top] at revision [r0] with two submodules:
    [libs/foo], checked out, pinned at [r1] and itself holding the
    submodule [deep] pinned at [r3]; and [old/bar], pinned at [r2] and
    no longer checked out.  The commits [r2] and [r3] are found in
    clones given with [--lookup]. *)
Module Sample.

Fixpoint cmd_eqb (a b : list string) : bool :=
  match a, b with
  | [], [] => true
  | x :: a', y :: b' => (x =? y) && cmd_eqb a' b'
  | _, _ => false
  end.

Fixpoint answer {A} (table : list (list string * A)) (default : A)
         (cmd : list string) : A :=
  match table with
  | [] => default
  | (c, a) :: rest => if cmd_eqb c cmd then a else answer rest default cmd
  end.

Definition verify (gitdir rev : string) : list string * (Z * string) :=
  (["git"; "--git-dir"; gitdir; "rev-parse"; "-q"; "--verify";
    (rev ++ "^{commit}")%string], (0%Z, rev)).

Definition texts (lookups : bool) : list (list string * (Z * string)) :=
  [ (["git"; "rev-parse"; "HEAD"], (0%Z, "r0"));
    (["git"; "rev-parse"; "--show-toplevel"], (0%Z, "/top"));
    (["git"; "rev-parse"; "--absolute-git-dir"], (0%Z, "/top/.git"));
    verify "/top/.git" "r0";
    verify "/top/.git/modules/foo" "r1" ]
  ++ (if lookups
      then [ verify "/backup/bar.git" "r2";
             verify "/backup/deep.git" "r3";
             verify "/backup/deep.git" "r2" ]
      else []).

Definition ls (gitdir rev : string) (lines : list (list string))
  : list string * (Z * list (list string)) :=
  (["git"; "--git-dir"; gitdir; "ls-tree"; "-r"; "--full-tree"; rev],
   (0%Z, lines)).

Definition lines : list (list string * (Z * list (list string))) :=
  [ ls "/top/.git" "r0"
       [ ["100644"; "blob"; "b0"; "README"];
         ["160000"; "commit"; "r1"; "libs/foo"];
         ["160000"; "commit"; "r2"; "old/bar"] ];
    ls "/top/.git/modules/foo" "r1"
       [ ["160000"; "commit"; "r3"; "deep"];
         ["100644"; "blob"; "b1"; "foo.c"] ];
    ls "/backup/bar.git" "r2" [ ["100644"; "blob"; "b2"; "bar.c"] ];
    ls "/backup/deep.git" "r3" [];
    (["git"; "-C"; "/top"; "submodule"; "foreach"; "-q"; "--recursive";
      "echo $name $sm_path $toplevel $(git rev-parse --absolute-git-dir)"],
     (0%Z, [ ["foo"; "libs/foo"; "/top"; "/top/.git/modules/foo"] ]));
    (["git"; "--git-dir"; "/top/.git"; "config"; "--blob"; "r0:.gitmodules";
      "--list"],
     (0%Z, [ ["submodule.foo.path"; "libs/foo"];
             ["submodule.foo.url"; "https://example.org/foo"];
             ["submodule.bar.path"; "old/bar"];
             ["submodule.bar.url"; "https://example.org/bar"] ])) ].

(** The environment; without [lookups], the clones that hold [r2] and
    [r3] answer nothing. *)
Definition env (lookups : bool) : Env :=
  {| run_text := answer (texts lookups) (1%Z, "");
     run_lines := answer lines (128%Z, []);
     pathlib := fun s => s;
     is_dir := fun _ => true |}.

(** Processes: the archive of the first repository is the slowest, so
    that later jobs end before it; everything succeeds. *)
Definition os : OS :=
  {| duration := fun pid _ => 10 - 3 * pid;
     status := fun _ _ => 0%Z;
     run_status := fun _ => 0%Z;
     unlink := fun path => if path =? "out.tar" then Some FileNotFoundError
                           else None |}.

(** The same, but the second archive job fails and the first segment
    cannot be removed. *)
Definition os_failing : OS :=
  {| duration := fun pid _ => 10 - 3 * pid;
     status := fun pid _ => if (pid =? 1)%nat then 128%Z else 0%Z;
     run_status := fun _ => 0%Z;
     unlink := fun path => if path =? "out.tar" then None else Some OSError |}.

Definition opt : options :=
  {| tree_ish := None;
     output := "out.tar";
     format := None;
     prefix := "pkg/";
     opt_nproc := 4;
     lookup := Some ["/backup/bar.git"; "/backup/deep.git"];
     depth := -1;
     dryrun := false;
     debug := false |}.

Definition with_dryrun (o : options) : options :=
  {| tree_ish := tree_ish o; output := output o; format := format o;
     prefix := prefix o; opt_nproc := opt_nproc o; lookup := lookup o;
     depth := depth o; dryrun := true; debug := debug o |}.

Definition with_depth (d : Z) (o : options) : options :=
  {| tree_ish := tree_ish o; output := output o; format := format o;
     prefix := prefix o; opt_nproc := opt_nproc o; lookup := lookup o;
     depth := d; dryrun := dryrun o; debug := debug o |}.

(** The registry that [main] builds for the sample. *)
Definition gitdirs (lookups : bool) : GitDirCollection.t :=
  add_all (env lookups) GitDirCollection.init
          ([ (PyStr "/top", PyStr "/top/.git");
             (PyPath "/top/libs/foo", PyPath "/top/.git/modules/foo") ]
           ++ if lookups
              then [ (PyStr "--lookup", PyStr "/backup/bar.git");
                     (PyStr "--lookup", PyStr "/backup/deep.git") ]
              else []).

End Sample.

(** The repositories of the sample. *)
Module SampleTree.

Definition top : node := ("/top", PyStr "/top/.git", "r0").
Definition foo : node :=
  ("/top/libs/foo", PyPath "/top/.git/modules/foo", "r1").
Definition deep : node :=
  ("/top/libs/foo/deep", PyPath "/backup/deep.git", "r3").
Definition bar : node := ("/top/old/bar", PyPath "/backup/bar.git", "r2").

(** The full tree, and the tree within depth 1. *)
Definition all : tree :=
  Node top [Node foo [Node deep []]; Node bar []].
Definition depth1 : tree :=
  Node top [Node foo []; Node bar []].

End SampleTree.

Module SampleRun.

(** The sample without the clones given by [--lookup]: the commits [r2]
    and [r3] are in no store. *)
Definition opt_no_lookup : options :=
  {| tree_ish := None; output := "out.tar"; format := None;
     prefix := "pkg/"; opt_nproc := 4; lookup := None;
     depth := -1; dryrun := false; debug := false |}.

(** Two archive jobs in the queue, launched at time 0. *)
Definition job (i : nat) (cmd : string) : Popen :=
  {| pid := i; args := [cmd];
     userdata := Some {| step := "gitarchive";
                         ud_output := ("out.tar." ++ PyString.of_nat i)%string |};
     started := 0; returncode := None |}.

Definition queue : ParallelJobs.t :=
  {| ParallelJobs.pending := [job 0 "first"; job 1 "second"];
     ParallelJobs.nproc := 4 |}.

End SampleRun.

Module SampleBroken.

(** An environment in which every command answers [stdout] with status
    [rc]. *)
Definition constant (rc : Z) (stdout : list (list string)) : Env :=
  {| run_text := fun _ => (rc, "");
     run_lines := fun _ => (rc, stdout);
     pathlib := fun s => s;
     is_dir := fun _ => true |}.

(** The sample, but [git ls-tree] fails everywhere. *)
Definition no_listing : Env :=
  {| run_text := run_text (Sample.env true);
     run_lines := fun cmd =>
                    match cmd with
                    | "git" :: "-C" :: _ => run_lines (Sample.env true) cmd
                    | _ => (128%Z, [])
                    end;
     pathlib := fun s => s;
     is_dir := fun _ => true |}.

End SampleBroken.

(* ===================================================================== *)
(** * Facts about strings and lists *)
(* ===================================================================== *)

Lemma string_app_assoc (a b c : string) :
  ((a ++ b) ++ c = a ++ (b ++ c))%string.
Proof.
  induction a as [|x a IH]; simpl; [reflexivity | now rewrite IH].
Qed.

Lemma string_app_length (a b : string) :
  String.length (a ++ b) = String.length a + String.length b.
Proof.
  induction a as [|x a IH]; simpl; [reflexivity | now rewrite IH].
Qed.

Lemma string_app_nil_r (a : string) : (a ++ "")%string = a.
Proof.
  induction a as [|x a IH]; simpl; [reflexivity | now rewrite IH].
Qed.

Lemma string_app_inv_head (a b c : string) :
  (a ++ b = a ++ c)%string -> b = c.
Proof.
  induction a as [|x a IH]; simpl; intros H; [exact H|].
  injection H as H. auto.
Qed.

Lemma prefix_app (p s : string) : String.prefix p (p ++ s) = true.
Proof.
  induction p as [|x p IH]; simpl.
  - now destruct s.
  - destruct (ascii_dec x x) as [_|N]; [exact IH | now elim N].
Qed.

Lemma startswith_app (p s : string) : PyString.startswith (p ++ s) p = true.
Proof. apply prefix_app. Qed.

Lemma drop_app (p s : string) : PyString.drop (String.length p) (p ++ s) = s.
Proof.
  induction p as [|x p IH]; simpl; [now destruct s | exact IH].
Qed.

(** [endswith] is what it says: some text, then the suffix. *)
Lemma endswith_iff (s suf : string) :
  PyString.endswith s suf = true <-> exists p, s = (p ++ suf)%string.
Proof.
  induction s as [|c s IH]; cbn [PyString.endswith].
  - rewrite orb_false_r, String.eqb_eq. split.
    + intros <-. now exists "".
    + intros [p H]. destruct p; simpl in H; [easy | discriminate].
  - rewrite orb_true_iff, String.eqb_eq, IH. split.
    + intros [<- | [p ->]]; [now exists "" | now exists (String c p)].
    + intros [[|d p] H]; simpl in H.
      * now left.
      * right. injection H as _ ->. now exists p.
Qed.

(** Two suffixes of one text: the shorter is a suffix of the longer. *)
Lemma endswith_both (s a b : string) :
  PyString.endswith s a = true -> PyString.endswith s b = true ->
  String.length a <= String.length b -> PyString.endswith b a = true.
Proof.
  induction s as [|c s IH]; cbn [PyString.endswith]; intros Ha Hb Hlen.
  - rewrite orb_false_r in Ha, Hb.
    apply String.eqb_eq in Ha, Hb. subst. reflexivity.
  - apply orb_true_iff in Hb. destruct Hb as [Hb | Hb].
    + apply String.eqb_eq in Hb. subst b. cbn [PyString.endswith].
      apply orb_true_iff in Ha. apply orb_true_iff. exact Ha.
    + apply orb_true_iff in Ha. destruct Ha as [Ha | Ha].
      * apply String.eqb_eq in Ha. subst a.
        apply endswith_iff in Hb. destruct Hb as [p ->].
        cbn [String.length] in Hlen. rewrite string_app_length in Hlen. lia.
      * now apply IH.
Qed.

Lemma find_app {A} (f : A -> bool) (l1 l2 : list A) :
  List.find f (l1 ++ l2) =
  match List.find f l1 with
  | Some x => Some x
  | None => List.find f l2
  end.
Proof.
  induction l1 as [|x l1 IH]; simpl; [reflexivity|].
  now destruct (f x).
Qed.

Lemma find_none_iff {A} (f : A -> bool) (l : list A) :
  List.find f l = None <-> forall x, In x l -> f x = false.
Proof.
  split; [apply find_none|].
  induction l as [|x l IH]; simpl; intros H; [reflexivity|].
  rewrite (H x (or_introl eq_refl)). apply IH. intros y Hy. apply H. now right.
Qed.

Lemma py_eq_refl (v : pyval) : py_eq v v = true.
Proof. destruct v; simpl; apply String.eqb_refl. Qed.

Lemma py_eq_eq (a b : pyval) : py_eq a b = true <-> a = b.
Proof.
  destruct a, b; simpl; rewrite ?String.eqb_eq;
    split; intros H; try discriminate; try (injection H as ->); subst;
    reflexivity.
Qed.

Lemma py_in_In (x : pyval) (l : list pyval) : py_in x l = true <-> In x l.
Proof.
  unfold py_in. rewrite existsb_exists. split.
  - intros [y [Hy E]]. apply py_eq_eq in E. now subst.
  - intros H. exists x. split; [exact H | apply py_eq_refl].
Qed.

(** A [str] is never equal to a [Path]: it is in no list of paths. *)
Lemma py_in_str_paths (s : string) (l : list pyval) :
  (forall v, In v l -> exists p, v = PyPath p) -> py_in (PyStr s) l = false.
Proof.
  intros H. destruct (py_in (PyStr s) l) eqn:E; [|reflexivity].
  apply py_in_In in E. destruct (H _ E) as [p Hp]. discriminate.
Qed.

(* ===================================================================== *)
(** * Facts about dictionaries *)
(* ===================================================================== *)

Lemma dict_get_set_same {V} (d : PyDict.t V) (k : string) (v : V) :
  PyDict.get (PyDict.set d k v) k = Some v.
Proof.
  induction d as [|[k' v'] d IH]; simpl.
  - now rewrite String.eqb_refl.
  - destruct (k' =? k) eqn:E; simpl; rewrite E; [reflexivity | exact IH].
Qed.

Lemma dict_get_set_other {V} (d : PyDict.t V) (k k' : string) (v : V) :
  k <> k' -> PyDict.get (PyDict.set d k v) k' = PyDict.get d k'.
Proof.
  intros N. induction d as [|[k0 v0] d IH]; simpl.
  - apply String.eqb_neq in N. now rewrite N.
  - destruct (k0 =? k) eqn:E; simpl.
    + apply String.eqb_eq in E. subst k0.
      apply String.eqb_neq in N. now rewrite N.
    + now rewrite IH.
Qed.

Lemma dict_keys_set {V} (d : PyDict.t V) (k : string) (v : V) :
  PyDict.keys (PyDict.set d k v) =
  match PyDict.get d k with
  | Some _ => PyDict.keys d
  | None => PyDict.keys d ++ [k]
  end.
Proof.
  unfold PyDict.keys. induction d as [|[k' v'] d IH]; simpl; [reflexivity|].
  destruct (k' =? k) eqn:E; simpl; [reflexivity|].
  rewrite IH. now destruct (PyDict.get d k).
Qed.

Lemma dict_get_In {V} (d : PyDict.t V) (k : string) (v : V) :
  PyDict.get d k = Some v -> In v (PyDict.values d).
Proof.
  unfold PyDict.values. induction d as [|[k' v'] d IH]; simpl; [discriminate|].
  destruct (k' =? k); intros H.
  - injection H as ->. now left.
  - right. now apply IH.
Qed.

(* ===================================================================== *)
(** * [GitDirCollection]: what [add] and [find] do *)
(* ===================================================================== *)

Section RegistryFacts.

Variable env : Env.

Lemma git_gitdir {A} (oracle : list string -> Z * A) (sub : list string)
      (g : pyval) :
  git oracle sub None (Some g) true =
  Ok (oracle ((if py_truthy g then ["git"; "--git-dir"; py_str g]
               else ["git"]) ++ sub)).
Proof.
  unfold git, run. simpl. destruct (py_truthy g); simpl.
  - now destruct (oracle _).
  - now destruct (oracle _).
Qed.

Lemma git_gitdir_checked {A} (oracle : list string -> Z * A)
      (sub : list string) (g : pyval) :
  git oracle sub None (Some g) false =
  run oracle ((if py_truthy g then ["git"; "--git-dir"; py_str g]
               else ["git"]) ++ sub) false.
Proof.
  unfold git. simpl. now destruct (py_truthy g).
Qed.

(** The validity check, when git answers with the id it was asked for. *)
Lemma is_valid_git_object_commit (rev : string) (g : pyval) :
  answers_exactly env rev g ->
  is_valid_git_object env rev "commit" (Some g) = Ok (contains_commit env rev g).
Proof.
  unfold answers_exactly, contains_commit, is_valid_git_object, verify_cmd.
  rewrite git_gitdir. simpl rbind.
  destruct (run_text env _) as [rc out]. simpl. intros H.
  destruct (rc =? 0)%Z eqn:E; simpl; [|reflexivity].
  apply Z.eqb_eq in E. rewrite (H E), String.eqb_refl. reflexivity.
Qed.

Lemma scan_find (rev : string) (l : list pyval) :
  (forall g, In g l -> answers_exactly env rev g) ->
  GitDirCollection.scan env rev l = Ok (List.find (contains_commit env rev) l).
Proof.
  induction l as [|g l IH]; intros H; simpl; [reflexivity|].
  rewrite is_valid_git_object_commit by (apply H; now left). simpl.
  destruct (contains_commit env rev g); [reflexivity|].
  apply IH. intros g' Hg'. apply H. now right.
Qed.

Lemma scan_all_find (rev : string) (values : list (list pyval)) :
  (forall g, In g (List.concat values) -> answers_exactly env rev g) ->
  GitDirCollection.scan_all env rev values =
  Ok (List.find (contains_commit env rev) (List.concat values)).
Proof.
  induction values as [|l values IH]; intros H; simpl; [reflexivity|].
  rewrite scan_find by (intros g Hg; apply H; simpl; apply in_or_app; now left).
  simpl. rewrite find_app.
  destruct (List.find (contains_commit env rev) l); [reflexivity|].
  apply IH. intros g Hg. apply H. simpl. apply in_or_app. now right.
Qed.

Lemma stores_under_all (reg : GitDirCollection.t) (hint : string) (g : pyval) :
  In g (stores_under reg hint) -> In g (all_stores reg).
Proof.
  unfold stores_under, all_stores.
  destruct (PyDict.get reg hint) as [l|] eqn:E; [|contradiction].
  intros H. apply in_concat. exists l. split; [|exact H].
  now apply dict_get_In with hint.
Qed.

(** [find] computes [find_spec]. *)
Lemma find_is_find_spec (reg : GitDirCollection.t) (hint : pyval)
      (rev : string) :
  (forall g, In g (all_stores reg) -> answers_exactly env rev g) ->
  GitDirCollection.find env reg hint rev =
  Ok (find_spec env reg (py_str hint) rev).
Proof.
  intros H. unfold GitDirCollection.find, find_spec.
  assert (Hh : forall g, In g (stores_under reg (py_str hint)) ->
                         answers_exactly env rev g)
    by (intros g Hg; apply H; now apply stores_under_all with (py_str hint)).
  unfold stores_under in *.
  destruct (PyDict.get reg (py_str hint)) as [[|g l]|].
  - simpl. now apply scan_all_find.
  - cbv beta iota. rewrite (scan_find rev (g :: l) Hh).
    set (r := List.find (contains_commit env rev) (g :: l)).
    destruct r; cbn [rbind]; [reflexivity|]. now apply scan_all_find.
  - simpl. now apply scan_all_find.
Qed.

(** ** What [add] does to the dictionary *)

Lemma add_unfold (reg : GitDirCollection.t) (hint gitdir : pyval) :
  GitDirCollection.add env reg hint gitdir =
  let dirs := stores_under reg (py_str hint) in
  let reg' := match PyDict.get reg (py_str hint) with
              | Some _ => reg
              | None => PyDict.set reg (py_str hint) []
              end in
  if py_in gitdir dirs then reg'
  else PyDict.set reg' (py_str hint) (dirs ++ [py_Path env gitdir]).
Proof.
  unfold GitDirCollection.add, stores_under.
  destruct (PyDict.get reg (py_str hint)) as [l|]; simpl; [|reflexivity].
  now destruct (py_in gitdir l).
Qed.

(** The stores of the hint after [add]: one more at the end, unless the
    membership test found the handle. *)
Lemma add_stores_same (reg : GitDirCollection.t) (hint gitdir : pyval) :
  stores_under (GitDirCollection.add env reg hint gitdir) (py_str hint) =
  if py_in gitdir (stores_under reg (py_str hint))
  then stores_under reg (py_str hint)
  else stores_under reg (py_str hint) ++ [py_Path env gitdir].
Proof.
  rewrite add_unfold. cbv zeta. unfold stores_under.
  destruct (PyDict.get reg (py_str hint)) as [l|] eqn:E.
  - destruct (py_in gitdir l).
    + now rewrite E.
    + now rewrite dict_get_set_same.
  - cbn [py_in existsb]. now rewrite dict_get_set_same.
Qed.

(** The stores of the other hints do not change. *)
Lemma add_stores_other (reg : GitDirCollection.t) (hint gitdir : pyval)
      (k : string) :
  py_str hint <> k ->
  stores_under (GitDirCollection.add env reg hint gitdir) k =
  stores_under reg k.
Proof.
  intros N. rewrite add_unfold. cbv zeta. unfold stores_under.
  destruct (PyDict.get reg (py_str hint)) as [l|] eqn:E.
  - destruct (py_in gitdir l); [reflexivity|].
    now rewrite dict_get_set_other by exact N.
  - cbn [py_in existsb]. now rewrite !dict_get_set_other by exact N.
Qed.

(** The hints keep the order of their first registration. *)
Lemma add_keys (reg : GitDirCollection.t) (hint gitdir : pyval) :
  PyDict.keys (GitDirCollection.add env reg hint gitdir) =
  match PyDict.get reg (py_str hint) with
  | Some _ => PyDict.keys reg
  | None => PyDict.keys reg ++ [py_str hint]
  end.
Proof.
  rewrite add_unfold. cbv zeta.
  destruct (PyDict.get reg (py_str hint)) as [l|] eqn:E.
  - unfold stores_under. rewrite E.
    destruct (py_in gitdir l); [reflexivity|].
    now rewrite dict_keys_set, E.
  - unfold stores_under. rewrite E. cbn [py_in existsb].
    now rewrite dict_keys_set, dict_get_set_same, dict_keys_set, E.
Qed.

End RegistryFacts.

Section RegistryClaims.

Variable env : Env.

Lemma dict_values_set_In {V} (d : PyDict.t V) (k : string) (v x : V) :
  In x (PyDict.values (PyDict.set d k v)) -> x = v \/ In x (PyDict.values d).
Proof.
  unfold PyDict.values. induction d as [|[k' v'] d IH]; simpl.
  - intros [<- | []]. now left.
  - destruct (k' =? k); simpl.
    + intros [<- | H]; [now left | right; now right].
    + intros [<- | H]; [right; now left|].
      destruct (IH H) as [-> | H']; [now left | right; now right].
Qed.

Lemma dict_values_stores (reg : GitDirCollection.t) (l : list pyval) :
  NoDup (PyDict.keys reg) -> In l (PyDict.values reg) ->
  exists k, PyDict.get reg k = Some l.
Proof.
  unfold PyDict.keys, PyDict.values.
  induction reg as [|[k v] reg IH]; simpl; [contradiction|].
  intros ND [<- | H].
  - exists k. now rewrite String.eqb_refl.
  - inversion ND as [|? ? Hk ND']; subst.
    destruct (IH ND' H) as [k' Hk']. exists k'.
    destruct (k =? k') eqn:E; [|exact Hk'].
    apply String.eqb_eq in E. subst k'. exfalso. apply Hk.
    clear -Hk'. induction reg as [|[k0 v0] reg IH]; simpl in *; [discriminate|].
    destruct (k0 =? k) eqn:E; [left; now apply String.eqb_eq | right; auto].
Qed.

Lemma holds_paths_init : holds_paths GitDirCollection.init.
Proof. intros l v []. Qed.

Lemma py_Path_is_path (v : pyval) : exists p, py_Path env v = PyPath p.
Proof. destruct v; simpl; eauto. Qed.

Lemma holds_paths_add (reg : GitDirCollection.t) (hint gitdir : pyval) :
  holds_paths reg -> holds_paths (GitDirCollection.add env reg hint gitdir).
Proof.
  intros H. rewrite add_unfold. cbv zeta.
  assert (Hu : forall v, In v (stores_under reg (py_str hint)) ->
                         exists p, v = PyPath p).
  { unfold stores_under. destruct (PyDict.get reg (py_str hint)) eqn:E;
      [|contradiction].
    intros v Hv. apply (H l v); [|exact Hv]. now apply dict_get_In with (py_str hint). }
  assert (H' : holds_paths
                 match PyDict.get reg (py_str hint) with
                 | Some _ => reg
                 | None => PyDict.set reg (py_str hint) []
                 end).
  { destruct (PyDict.get reg (py_str hint)); [exact H|].
    intros l v Hl Hv. apply dict_values_set_In in Hl.
    destruct Hl as [-> | Hl]; [contradiction | now apply (H l v)]. }
  destruct (py_in gitdir _); [exact H'|].
  intros l v Hl Hv. apply dict_values_set_In in Hl.
  destruct Hl as [-> | Hl]; [|now apply (H' l v)].
  apply in_app_or in Hv. destruct Hv as [Hv | [<- | []]];
    [now apply Hu | apply py_Path_is_path].
Qed.

Lemma holds_paths_add_all (calls : list (pyval * pyval))
      (reg : GitDirCollection.t) :
  holds_paths reg -> holds_paths (add_all env reg calls).
Proof.
  revert reg. induction calls as [|[h g] calls IH]; intros reg H; simpl.
  - exact H.
  - apply IH. now apply holds_paths_add.
Qed.

Lemma stores_under_paths (reg : GitDirCollection.t) (hint : string) :
  holds_paths reg ->
  forall v, In v (stores_under reg hint) -> exists p, v = PyPath p.
Proof.
  intros H v. unfold stores_under.
  destruct (PyDict.get reg hint) as [l|] eqn:E; [|contradiction].
  apply H. now apply dict_get_In with hint.
Qed.

(** A handle given as [str] is appended at every call: the membership
    test compares it with the [Path] objects of the list. *)
Lemma add_str_appends (reg : GitDirCollection.t) (hint : pyval) (s : string) :
  holds_paths reg ->
  stores_under (GitDirCollection.add env reg hint (PyStr s)) (py_str hint) =
  stores_under reg (py_str hint) ++ [PyPath (pathlib env s)].
Proof.
  intros H. rewrite add_stores_same.
  rewrite py_in_str_paths; [reflexivity|].
  now apply stores_under_paths.
Qed.

(** A handle given as [Path] is registered once: the sibling case, in
    which the membership test works. *)
Lemma add_Path_idempotent (reg : GitDirCollection.t) (hint : pyval)
      (p : string) :
  let once := GitDirCollection.add env reg hint (PyPath p) in
  GitDirCollection.add env once hint (PyPath p) = once.
Proof.
  cbv zeta.
  assert (Hin : In (PyPath p)
                   (stores_under (GitDirCollection.add env reg hint (PyPath p))
                                 (py_str hint))).
  { rewrite add_stores_same.
    destruct (py_in (PyPath p) _) eqn:E.
    - now apply py_in_In.
    - apply in_or_app. right. now left. }
  rewrite (add_unfold env (GitDirCollection.add env reg hint (PyPath p))).
  cbv zeta. apply py_in_In in Hin. rewrite Hin.
  unfold stores_under in Hin.
  destruct (PyDict.get _ (py_str hint)); [reflexivity | discriminate].
Qed.

Lemma add_Path_same_NoDup (reg : GitDirCollection.t) (hint : pyval)
      (p : string) :
  NoDup (stores_under reg (py_str hint)) ->
  NoDup (stores_under (GitDirCollection.add env reg hint (PyPath p))
                      (py_str hint)).
Proof.
  intros H. rewrite add_stores_same.
  destruct (py_in (PyPath p) _) eqn:E; [exact H|].
  apply NoDup_app; [exact H | repeat constructor; intros [] |].
  intros x Hx [<- | []].
  apply py_in_In in Hx. simpl in Hx. congruence.
Qed.

(** C7, at the failing input.  Registering a git-dir given as [str] a
    second time under the same hint appends it again: after any sequence
    of [add], [add(hint, s)] twice leaves the handle [Path(s)] twice in
    the sequence of the hint, and the second call changes the registry. *)
Theorem add_str_twice_registers_twice
        (calls : list (pyval * pyval)) (hint : pyval) (s : string) :
  let reg := add_all env GitDirCollection.init calls in
  let once := GitDirCollection.add env reg hint (PyStr s) in
  let twice := GitDirCollection.add env once hint (PyStr s) in
  stores_under twice (py_str hint) =
  stores_under reg (py_str hint)
               ++ [PyPath (pathlib env s); PyPath (pathlib env s)]
  /\ ~ NoDup (stores_under twice (py_str hint))
  /\ twice <> once.
Proof.
  cbv zeta.
  assert (Hreg : holds_paths (add_all env GitDirCollection.init calls))
    by (apply holds_paths_add_all, holds_paths_init).
  assert (Honce := holds_paths_add _ hint (PyStr s) Hreg).
  assert (E : stores_under
                (GitDirCollection.add env
                   (GitDirCollection.add env
                      (add_all env GitDirCollection.init calls) hint (PyStr s))
                   hint (PyStr s)) (py_str hint) =
              stores_under (add_all env GitDirCollection.init calls)
                           (py_str hint)
                ++ [PyPath (pathlib env s); PyPath (pathlib env s)]).
  { rewrite add_str_appends by exact Honce.
    rewrite add_str_appends by exact Hreg.
    now rewrite <- app_assoc. }
  split; [exact E|]. split.
  - rewrite E. intros ND. apply NoDup_remove_2 in ND.
    apply ND. apply in_or_app. right. now left.
  - intros Heq. rewrite Heq in E at 1.
    rewrite add_str_appends in E by exact Hreg.
    apply (f_equal (@List.length pyval)) in E.
    rewrite !length_app in E. simpl in E. lia.
Qed.

(** C3.  When git answers each query with the id it was asked for,
    [find] returns the first store under the hint that contains the
    revision; failing that, the first of all the registered stores (the
    hints in the order of their registration, the stores of a hint in
    insertion order); it returns [None] exactly when no registered store
    contains the revision, and a store it returns is registered and
    contains the revision. *)
Theorem find_first_under_hint_then_all
        (reg : GitDirCollection.t) (hint : pyval) (rev : string) :
  (forall g, In g (all_stores reg) -> answers_exactly env rev g) ->
  GitDirCollection.find env reg hint rev =
    Ok (find_spec env reg (py_str hint) rev)
  /\ (GitDirCollection.find env reg hint rev = Ok None <->
      forall g, In g (all_stores reg) -> contains_commit env rev g = false)
  /\ (forall g, GitDirCollection.find env reg hint rev = Ok (Some g) ->
                In g (all_stores reg) /\ contains_commit env rev g = true).
Proof.
  intros H. rewrite (find_is_find_spec env reg hint rev H).
  unfold find_spec.
  destruct (List.find (contains_commit env rev)
                      (stores_under reg (py_str hint))) as [g0|] eqn:E1.
  - apply find_some in E1. destruct E1 as [Hin Hc].
    apply stores_under_all in Hin.
    split; [reflexivity|]. split.
    + split; [discriminate|]. intros Hall. rewrite (Hall g0 Hin) in Hc.
      discriminate.
    + intros g Hg. injection Hg as <-. now split.
  - split; [reflexivity|]. split.
    + split.
      * intros Hn. injection Hn as Hn. now apply find_none_iff.
      * intros Hall. f_equal. now apply find_none_iff.
    + intros g Hg. injection Hg as Hg. now apply find_some in Hg.
Qed.

End RegistryClaims.

(** C3 on the sample: [r2] is under no hint [/top/old/bar]; the scan of
    all the stores finds it in the first clone given with [--lookup]. *)
Lemma find_first_under_hint_then_all_witness :
  GitDirCollection.find (Sample.env true) (Sample.gitdirs true)
                        (PyStr "/top/old/bar") "r2"
  = Ok (Some (PyPath "/backup/bar.git")).
Proof.
  destruct (find_first_under_hint_then_all
              (Sample.env true) (Sample.gitdirs true)
              (PyStr "/top/old/bar") "r2") as [E _].
  - intros g Hg. vm_compute in Hg.
    destruct Hg as [<- | [<- | [<- | [<- | []]]]]; vm_compute;
      intros; congruence.
  - rewrite E. vm_compute. reflexivity.
Defined.

(* ===================================================================== *)
(** * The walk: what [recursively_iter_repos] yields *)
(* ===================================================================== *)

Lemma nodes_of_app (a b : list item) :
  nodes_of (a ++ b) = nodes_of a ++ nodes_of b.
Proof.
  induction a as [|[n|l] a IH]; simpl; [reflexivity | now rewrite IH | exact IH].
Qed.

Lemma nodes_of_say (ls : list line) : nodes_of (map Say ls) = [].
Proof. induction ls as [|l ls IH]; simpl; [reflexivity | exact IH]. Qed.

Lemma list_max_cons_le (a : nat) (l : list nat) (n : nat) :
  list_max (a :: l) <= n <-> a <= n /\ list_max l <= n.
Proof. simpl. lia. Qed.

Section WalkFacts.

Variable env : Env.
Variable gitdirs : GitDirCollection.t.

#[local] Abbreviation walk := (recursively_iter_repos env gitdirs).
#[local] Abbreviation walk_entries := (walk_submodules env gitdirs).

(** At depth 0 the loop over the entries only prints. *)
Lemma walk_entries_zero recur top store rev entries e :
  exists its,
    walk_entries recur top store rev 0 entries e = (its, ending_of e)
    /\ nodes_of its = [].
Proof.
  induction entries as [|[path pinned] entries IH]; simpl.
  - destruct e as [x|]; [|now exists []].
    unfold raise_items. eexists. split; [reflexivity | apply nodes_of_say].
  - destruct IH as [its [-> Hn]]. eexists. split; [reflexivity | exact Hn].
Qed.

(** One turn of the loop when the entry is resolved and the recursive
    call finishes. *)
Lemma walk_entries_step recur top store rev d path pinned entries e sub its :
  d <> 0%Z ->
  assert_path_format path = Ok tt ->
  GitDirCollection.find env gitdirs (PyStr (top ++ "/" ++ path)%string) pinned
    = Ok (Some sub) ->
  recur (top ++ "/" ++ path)%string sub pinned (d - 1)%Z = (its, Finished) ->
  walk_entries recur top store rev d ((path, pinned) :: entries) e =
  (its ++ fst (walk_entries recur top store rev d entries e),
   snd (walk_entries recur top store rev d entries e)).
Proof.
  intros Hd Hp Hf Hr. cbn [walk_submodules].
  apply Z.eqb_neq in Hd. rewrite Hd, Hp, Hf, Hr.
  now destruct (walk_entries recur top store rev d entries e).
Qed.

(** A reachable tree is walked in pre-order, as soon as the fuel covers
    its height. *)
Lemma reachable_walk :
  (forall d n t,
      reachable env gitdirs d n t ->
      forall fuel, height t <= fuel ->
        exists its,
          walk fuel (fst (fst n)) (snd (fst n)) (snd n) d = (its, Finished)
          /\ nodes_of its = preorder t)
  /\
  (forall d top entries children,
      reachable_entries env gitdirs d top entries children ->
      d <> 0%Z ->
      forall fuel store rev, list_max (map height children) <= fuel ->
        exists its,
          walk_entries (walk fuel) top store rev d entries None
            = (its, Finished)
          /\ nodes_of its = flat_map preorder children).
Proof.
  apply reachable_mutind.
  - (* depth 0 *)
    intros top store rev entries Hg [|fuel] Hh; simpl in Hh; [lia|].
    simpl. unfold gitlinks in Hg.
    destruct (iter_git_submodules_at_rev env store rev) as [subs [x|]];
      try discriminate.
    destruct (walk_entries_zero (walk fuel) top store rev subs None)
      as [its [-> Hn]].
    eexists. split; [reflexivity|]. simpl. now rewrite Hn.
  - (* deeper *)
    intros d top store rev entries children Hd Hg _ IH [|fuel] Hh;
      simpl in Hh; [lia|].
    simpl. unfold gitlinks in Hg.
    destruct (iter_git_submodules_at_rev env store rev) as [subs [x|]];
      try discriminate.
    injection Hg as ->.
    destruct (IH Hd fuel store rev) as [its [-> Hn]]; [lia|].
    eexists. split; [reflexivity|]. simpl. now rewrite Hn.
  - (* no entry *)
    intros d top _ fuel store rev _. exists []. now split.
  - (* one entry, then the others *)
    intros d top path pinned entries sub child children Hp Hf _ IHc _ IHr
           Hd fuel store rev Hh.
    simpl in Hh.
    destruct (IHc fuel) as [its1 [E1 N1]]; [lia|]. simpl in E1.
    destruct (IHr Hd fuel store rev) as [its2 [E2 N2]]; [lia|].
    rewrite (walk_entries_step _ _ _ _ _ _ _ _ _ _ _ Hd Hp Hf E1), E2.
    eexists. split; [reflexivity|].
    simpl. now rewrite nodes_of_app, N1, N2.
Qed.

(** Conversely, a walk that finishes has walked a reachable tree. *)
Lemma walk_entries_finished fuel
      (IH : forall top store rev d its,
          walk fuel top store rev d = (its, Finished) ->
          exists t, reachable env gitdirs d (top, store, rev) t
                    /\ nodes_of its = preorder t /\ height t <= fuel)
      top store rev d entries e its :
  d <> 0%Z ->
  walk_entries (walk fuel) top store rev d entries e = (its, Finished) ->
  e = None /\
  exists children,
    reachable_entries env gitdirs d top entries children
    /\ nodes_of its = flat_map preorder children
    /\ list_max (map height children) <= fuel.
Proof.
  intros Hd. revert its.
  induction entries as [|[path pinned] entries IHe]; intros its; simpl.
  - destruct e as [x|]; intros H; [unfold raise_items in H; discriminate|].
    injection H as <-. split; [reflexivity|].
    exists []. repeat split; [constructor | simpl; lia].
  - assert (Hd' := Hd). apply Z.eqb_neq in Hd'. rewrite Hd'.
    destruct (assert_path_format path) as [[]|x] eqn:Hp;
      [|unfold raise_items; discriminate].
    destruct (GitDirCollection.find env gitdirs _ pinned)
      as [[sub|]|x] eqn:Hf; [| |unfold raise_items; discriminate].
    + destruct (walk fuel _ sub pinned (d - 1)%Z) as [its1 e1] eqn:E1.
      destruct e1; try discriminate.
      destruct (walk_entries (walk fuel) top store rev d entries e)
        as [its2 e2] eqn:E2.
      intros H. injection H as <- ->.
      destruct (IHe its2 eq_refl) as [-> [children [Hr [Hn Hh]]]].
      destruct (IH _ _ _ _ _ E1) as [t [Ht [Hnt Hht]]].
      split; [reflexivity|]. exists (t :: children). repeat split.
      * econstructor; eassumption.
      * simpl. now rewrite nodes_of_app, Hnt, Hn.
      * simpl. lia.
    + unfold not_found.
      destruct (git_config env _ _) as [c|x]; [discriminate|].
      unfold raise_items. discriminate.
Qed.

Lemma walk_finished fuel :
  forall top store rev d its,
    walk fuel top store rev d = (its, Finished) ->
    exists t, reachable env gitdirs d (top, store, rev) t
              /\ nodes_of its = preorder t /\ height t <= fuel.
Proof.
  induction fuel as [|fuel IH]; intros top store rev d its; simpl;
    [discriminate|].
  destruct (iter_git_submodules_at_rev env store rev) as [subs e] eqn:Els.
  destruct (walk_entries (walk fuel) top store rev d subs e)
    as [its' e'] eqn:Ew.
  intros H. injection H as <- ->.
  destruct (Z.eq_dec d 0) as [-> | Hd].
  - destruct (walk_entries_zero (walk fuel) top store rev subs e)
      as [its0 [E0 N0]].
    rewrite E0 in Ew. injection Ew as <- He.
    destruct e as [x|]; [discriminate|].
    exists (Node (top, store, rev) []). repeat split.
    + apply reachable_stop with subs. unfold gitlinks. now rewrite Els.
    + simpl. now rewrite N0.
    + simpl. lia.
  - destruct (walk_entries_finished fuel IH _ _ _ _ _ _ _ Hd Ew)
      as [-> [children [Hr [Hn Hh]]]].
    exists (Node (top, store, rev) children). repeat split.
    + apply reachable_recurse with subs; [exact Hd | | exact Hr].
      unfold gitlinks. now rewrite Els.
    + simpl. now rewrite Hn.
    + simpl. lia.
Qed.

(** Within a depth [d >= 0] the tree is no higher than [d + 1]. *)
Lemma reachable_height :
  (forall d n t,
      reachable env gitdirs d n t ->
      (0 <= d)%Z -> height t <= S (Z.to_nat d))
  /\
  (forall d top entries children,
      reachable_entries env gitdirs d top entries children ->
      (0 < d)%Z -> list_max (map height children) <= Z.to_nat d).
Proof.
  apply reachable_mutind.
  - intros. simpl. lia.
  - intros d top store rev entries children Hd _ _ IH Hpos. simpl.
    assert (H : (0 < d)%Z) by lia. specialize (IH H). lia.
  - intros. simpl. lia.
  - intros d top path pinned entries sub child children _ _ _ IHc _ IHr Hpos.
    simpl. specialize (IHr Hpos).
    assert (H : (0 <= d - 1)%Z) by lia. specialize (IHc H).
    replace (Z.to_nat d) with (S (Z.to_nat (d - 1))) by lia. lia.
Qed.

(** With a negative depth, the reachable tree is the full tree. *)
Lemma full_reachable :
  (forall n t, full env gitdirs n t ->
               forall d, (d < 0)%Z -> reachable env gitdirs d n t)
  /\
  (forall top entries children,
      full_entries env gitdirs top entries children ->
      forall d, (d < 0)%Z -> reachable_entries env gitdirs d top entries children).
Proof.
  apply full_mutind.
  - intros top store rev entries children Hg _ IH d Hd.
    apply reachable_recurse with entries; [lia | exact Hg | now apply IH].
  - intros. constructor.
  - intros top path pinned entries store child children Hp Hf _ IHc _ IHr d Hd.
    econstructor; [exact Hp | exact Hf | apply IHc; lia | now apply IHr].
Qed.

End WalkFacts.

Lemma preorder_length (t : tree) : List.length (preorder t) = size t.
Proof.
  revert t. fix IH 1. intros [n children]. simpl. f_equal.
  induction children as [|c children IHc]; simpl; [reflexivity|].
  now rewrite length_app, IH, IHc.
Qed.

(** The walk at depth 0 yields its root and nothing else, however the
    listing of the entries ends. *)
Lemma walk_depth_zero (env : Env) (gitdirs : GitDirCollection.t)
      (fuel : nat) (top : string) (store : pyval) (rev : string) :
  nodes_of (fst (recursively_iter_repos env gitdirs (S fuel)
                                        top store rev 0))
  = [(top, store, rev)].
Proof.
  simpl.
  destruct (iter_git_submodules_at_rev env store rev) as [subs e].
  assert (H : nodes_of (fst (walk_submodules env gitdirs
                               (recursively_iter_repos env gitdirs fuel)
                               top store rev 0 subs e)) = []).
  { induction subs as [|[p r] subs IH]; simpl.
    - destruct e; simpl; [apply nodes_of_say | reflexivity].
    - destruct (walk_submodules _ _ _ _ _ _ _ subs e). exact IH. }
  destruct (walk_submodules _ _ _ _ _ _ _ subs e). simpl in *.
  now rewrite H.
Qed.

(** C6.  With a depth of exactly 0 the walk yields the root node and
    nothing else; with a depth below 0 there is no limit: the walk yields
    the full tree, in pre-order, once the fuel covers its height. *)
Theorem walk_depth_zero_and_unlimited
        (env : Env) (gitdirs : GitDirCollection.t)
        (top : string) (store : pyval) (rev : string) :
  (forall fuel,
      nodes_of (fst (recursively_iter_repos env gitdirs (S fuel)
                                            top store rev 0))
      = [(top, store, rev)])
  /\ (forall d t,
         (d < 0)%Z ->
         full env gitdirs (top, store, rev) t ->
         forall fuel, height t <= fuel ->
           exists its,
             recursively_iter_repos env gitdirs fuel top store rev d
               = (its, Finished)
             /\ nodes_of its = preorder t).
Proof.
  split.
  - intros fuel. apply walk_depth_zero.
  - intros d t Hd Ht fuel Hf.
    apply (proj1 (full_reachable env gitdirs) _ _ Ht) in Hd.
    exact (proj1 (reachable_walk env gitdirs) _ _ _ Hd fuel Hf).
Qed.

Lemma sample_full :
  full (Sample.env true) (Sample.gitdirs true) SampleTree.top SampleTree.all.
Proof.
  unfold SampleTree.all, SampleTree.top.
  eapply full_node; [vm_compute; reflexivity |].
  eapply full_cons; [reflexivity | vm_compute; reflexivity | |].
  { eapply full_node; [vm_compute; reflexivity |].
    eapply full_cons; [reflexivity | vm_compute; reflexivity | |].
    - eapply full_node; [vm_compute; reflexivity | constructor].
    - constructor. }
  eapply full_cons; [reflexivity | vm_compute; reflexivity | |].
  - eapply full_node; [vm_compute; reflexivity | constructor].
  - constructor.
Defined.

(** C6 on the sample: depth 0 gives the top repository alone, depth -1
    the four repositories. *)
Lemma walk_depth_zero_and_unlimited_witness :
  nodes_of (fst (recursively_iter_repos (Sample.env true)
                   (Sample.gitdirs true) 1 "/top" (PyStr "/top/.git") "r0" 0))
  = [SampleTree.top]
  /\ exists its,
      recursively_iter_repos (Sample.env true) (Sample.gitdirs true) 3
                             "/top" (PyStr "/top/.git") "r0" (-1)
        = (its, Finished)
      /\ nodes_of its = preorder SampleTree.all.
Proof.
  destruct (walk_depth_zero_and_unlimited
              (Sample.env true) (Sample.gitdirs true)
              "/top" (PyStr "/top/.git") "r0") as [H0 Hneg].
  split.
  - exact (H0 0).
  - apply (Hneg (-1)%Z SampleTree.all).
    + reflexivity.
    + exact sample_full.
    + vm_compute. lia.
Defined.

(* ===================================================================== *)
(** * [ParallelJobs]: launch order is wait order *)
(* ===================================================================== *)

Section JobsFacts.

Variable os : OS.

Import ParallelJobs.

Lemma job_of_poll (now : nat) (p : Popen) : job_of (poll os now p) = job_of p.
Proof.
  unfold poll. destruct (returncode p); [reflexivity|].
  now destruct (finish os p <=? now)%nat.
Qed.

Lemma finish_poll (now : nat) (p : Popen) :
  finish os (poll os now p) = finish os p.
Proof.
  unfold poll. destruct (returncode p); [reflexivity|].
  now destruct (finish os p <=? now)%nat.
Qed.

Lemma jobs_of_polled (now : nat) (l : list Popen) :
  map job_of (map (poll os now) l) = map job_of l.
Proof.
  rewrite map_map. apply map_ext. apply job_of_poll.
Qed.

Lemma deadline_polled (now : nat) (l : list Popen) :
  deadline os (map (poll os now) l) = deadline os l.
Proof.
  induction l as [|p l IH]; simpl; [reflexivity|].
  now rewrite finish_poll, IH.
Qed.

(** Past the deadline, polling finds every process ended. *)
Lemma none_pending_past_deadline (now : nat) (l : list Popen) :
  deadline os l <= now ->
  filter (fun p => is_None (returncode p)) (map (poll os now) l) = [].
Proof.
  induction l as [|p l IH]; simpl; intros H; [reflexivity|].
  rewrite IH by lia.
  unfold poll. destruct (returncode p) eqn:E; simpl.
  - now rewrite E.
  - destruct (Nat.leb_spec (finish os p) now); [reflexivity | lia].
Qed.

(** The admission loop ends: it sleeps at most until the deadline of the
    pending processes.  It changes nothing but the clock and the return
    codes that polling fills in. *)
Lemma admission_terminates (fuel : nat) :
  forall (self : t) (st : state),
    (0 < nproc self)%Z ->
    deadline os (pending self) <= clock st + fuel ->
    exists self' k,
      admission os fuel self st =
        (Return self',
         {| clock := clock st + k; next_pid := next_pid st;
            trace := trace st ++ repeat EvSleep k |})
      /\ map job_of (pending self') = map job_of (pending self)
      /\ nproc self' = nproc self.
Proof.
  induction fuel as [|fuel IH]; intros self st Hn Hd; cbn [admission].
  - rewrite none_pending_past_deadline by lia. simpl List.length.
    cbn [nproc]. apply Z.ltb_lt in Hn. simpl Z.of_nat. rewrite Hn.
    eexists _, 0. cbn [pending nproc]. rewrite Nat.add_0_r, app_nil_r.
    split; [destruct st; reflexivity|]. split; [apply jobs_of_polled | reflexivity].
  - cbn [nproc].
    destruct (Z.of_nat _ <? nproc self)%Z.
    + eexists _, 0. cbn [pending nproc]. rewrite Nat.add_0_r, app_nil_r.
      split; [destruct st; reflexivity|].
      split; [apply jobs_of_polled | reflexivity].
    + unfold bind, sleep.
      edestruct (IH {| pending := map (poll os (clock st)) (pending self);
                       nproc := nproc self |}
                    {| clock := S (clock st); next_pid := next_pid st;
                       trace := trace st ++ [EvSleep] |})
        as [self' [k [E [Hj Hp]]]].
      * exact Hn.
      * cbn [pending clock]. rewrite deadline_polled. lia.
      * rewrite E. exists self', (S k). cbn [clock next_pid trace].
        split; [|split].
        -- rewrite <- app_assoc. simpl. repeat f_equal. lia.
        -- rewrite Hj. cbn [pending]. apply jobs_of_polled.
        -- exact Hp.
Qed.

(** [launch] always returns; the new process is appended to the queue
    and no job leaves it. *)
Lemma launch_appends (self : t) (cmd : list string) (ud : option userdata_t)
      (st : state) :
  exists self' st' k,
    launch os self cmd ud st = (Return self', st')
    /\ map job_of (pending self') =
       map job_of (pending self) ++ [(next_pid st, cmd, ud)]
    /\ nproc self' = nproc self
    /\ next_pid st' = S (next_pid st)
    /\ trace st' = trace st ++ launch_events k (next_pid st) cmd
                                             (nproc self =? 1)%Z.
Proof.
  unfold launch. unfold bind at 1.
  lazymatch goal with
  | |- exists _ _ _, (let (_, _) := ?X in _) = _ /\ _ =>
      assert (Hadm : exists self1 k,
                 X = (Return self1,
                      {| clock := clock st + k; next_pid := next_pid st;
                         trace := trace st ++ repeat EvSleep k |})
                 /\ map job_of (pending self1) = map job_of (pending self)
                 /\ nproc self1 = nproc self)
  end.
  { destruct (1 <? nproc self)%Z eqn:E.
    - apply Z.ltb_lt in E. apply admission_terminates; lia.
    - exists self, 0. unfold ret. rewrite Nat.add_0_r, app_nil_r.
      split; [destruct st; reflexivity | split; reflexivity]. }
  destruct Hadm as [self1 [k [E [Hj Hp]]]].
  rewrite E.
  unfold bind at 1. unfold popen at 1. cbn [clock next_pid trace].
  rewrite Hp.
  destruct (nproc self =? 1)%Z eqn:E1.
  - unfold bind, wait, ret. cbn [clock next_pid trace pid args userdata].
    eexists _, _, k. split; [reflexivity|].
    cbn [pending nproc next_pid trace]. rewrite map_app, Hj.
    repeat split. unfold launch_events. now rewrite <- !app_assoc.
  - unfold bind, ret. eexists _, _, k. split; [reflexivity|].
    cbn [pending nproc next_pid trace]. rewrite map_app, Hj.
    repeat split. unfold launch_events. now rewrite <- !app_assoc, app_nil_r.
Qed.

(** [wait_next_in_order] on a queue that is not empty: the head leaves
    the queue, ended, and the rest stays in order. *)
Lemma wait_next_in_order_head (self : t) (p : Popen) (rest : list Popen)
      (st : state) :
  pending self = p :: rest ->
  wait_next_in_order os self st =
  (Return (set_returncode p (Some (status os (pid p) (args p))),
           {| pending := rest; nproc := nproc self |}),
   {| clock := Nat.max (clock st) (finish os p);
      next_pid := next_pid st;
      trace := trace st ++ [EvWait (pid p)] |}).
Proof.
  intros E. unfold wait_next_in_order. rewrite E. reflexivity.
Qed.

Lemma wait_next_in_order_empty (self : t) (st : state) :
  pending self = [] ->
  wait_next_in_order os self st = (Throw IndexError, st).
Proof.
  intros E. unfold wait_next_in_order. rewrite E. reflexivity.
Qed.

(** [launch] never turns the clock back. *)
Lemma launch_clock (self : t) (cmd : list string) (ud : option userdata_t)
      (st : state) :
  clock st <= clock (snd (launch os self cmd ud st)).
Proof.
  unfold launch. unfold bind at 1.
  lazymatch goal with
  | |- _ <= clock (snd (let (_, _) := ?X in _)) =>
      assert (Hadm : exists self1 k,
                 X = (Return self1,
                      {| clock := clock st + k; next_pid := next_pid st;
                         trace := trace st ++ repeat EvSleep k |})
                 /\ map job_of (pending self1) = map job_of (pending self)
                 /\ nproc self1 = nproc self)
  end.
  { destruct (1 <? nproc self)%Z eqn:E.
    - apply Z.ltb_lt in E. apply admission_terminates; lia.
    - exists self, 0. unfold ret. rewrite Nat.add_0_r, app_nil_r.
      split; [destruct st; reflexivity | split; reflexivity]. }
  destruct Hadm as [self1 [k [E _]]].
  rewrite E.
  unfold bind at 1. unfold popen at 1. cbn [clock next_pid trace].
  destruct (nproc self1 =? 1)%Z.
  - unfold bind, wait, ret. cbn [snd clock]. lia.
  - unfold bind, ret. cbn [snd clock]. lia.
Qed.

(** The queue discipline, operation after operation.  When no wait of
    the sequence meets an empty queue, the run returns: every wait has
    returned a job, the jobs returned followed by the jobs pending are
    the jobs that were pending followed by the jobs launched, and each
    job returned has ended by then.  Otherwise the run raises
    [IndexError]. *)
Lemma run_ops_queue (ops : list job_op) :
  forall (jobs : t) (returned : list Popen) (st : state),
    if well_queued ops (List.length (pending jobs)) then
      exists new jobs' st',
        run_ops os ops jobs returned st = (Return (returned ++ new, jobs'), st')
        /\ List.length new = count_waits ops
        /\ map job_of new ++ map job_of (pending jobs') =
           map job_of (pending jobs) ++ launched (next_pid st) ops
        /\ (forall p, In p new ->
                      returncode p = Some (status os (pid p) (args p))
                      /\ finish os p <= clock st')
        /\ clock st <= clock st'
    else
      exists st', run_ops os ops jobs returned st = (Throw IndexError, st').
Proof.
  induction ops as [|[cmd ud|] ops IH]; intros jobs returned st;
    cbn [run_ops well_queued count_waits launched].
  - exists [], jobs, st. unfold ret. rewrite !app_nil_r.
    repeat split; try reflexivity; try lia; contradiction.
  - destruct (launch_appends jobs cmd ud st)
      as [jobs1 [st1 [k [E [Hj [_ [Hp _]]]]]]].
    pose proof (launch_clock jobs cmd ud st) as Hc. rewrite E in Hc.
    cbn [snd] in Hc.
    assert (Hlen : List.length (pending jobs1) = S (List.length (pending jobs))).
    { rewrite <- (length_map job_of (pending jobs1)), Hj.
      rewrite length_app, length_map. simpl. lia. }
    unfold bind. rewrite E. specialize (IH jobs1 returned st1).
    rewrite Hlen in IH.
    destruct (well_queued ops (S (List.length (pending jobs)))).
    + destruct IH as [new [jobs' [st' [E' [Hn [Hq [Hr Hc']]]]]]].
      exists new, jobs', st'. split; [exact E'|]. split; [exact Hn|].
      split; [|split; [exact Hr | lia]].
      rewrite Hq, Hj, Hp. now rewrite <- app_assoc.
    + exact IH.
  - destruct (pending jobs) as [|p rest] eqn:Ep; cbn [List.length].
    + unfold bind. rewrite (wait_next_in_order_empty jobs st Ep).
      now exists st.
    + unfold bind. rewrite (wait_next_in_order_head jobs p rest st Ep).
      cbn [fst snd].
      match goal with
      | |- context [run_ops os ops ?j ?r ?s] => specialize (IH j r s)
      end.
      cbn [pending] in IH.
      destruct (well_queued ops (List.length rest)); [|exact IH].
      destruct IH as [new [jobs' [st' [E' [Hn [Hq [Hr Hc']]]]]]].
      cbn [clock next_pid] in Hq, Hc'.
      eexists (_ :: new), jobs', st'. split; [|split; [|split; [|split]]].
      * rewrite E', <- app_assoc. reflexivity.
      * simpl. now rewrite Hn.
      * cbn [map app]. now rewrite Hq.
      * intros q [<- | Hq']; [|now apply Hr].
        split; [reflexivity|].
        unfold finish in *. cbn [started pid args set_returncode]. lia.
      * lia.
Qed.

End JobsFacts.

(** C4.  Whatever the durations and exit statuses of the processes, and
    however launches and waits alternate from a new scheduler: as long
    as no wait comes on an empty queue, every call returns, and the jobs
    that [wait_next_in_order] has returned are the first launched jobs,
    in launch order, one per wait, while the jobs pending are the later
    ones.  Each returned process has ended by then, whenever the others
    end.  On the queue so reached, a further call blocks on the head:
    it returns the next launched job with its exit status, it leaves the
    rest in order, and it lets the clock run until that process has
    ended; on an empty queue it raises [IndexError] and changes
    nothing.  A sequence in which some wait meets an empty queue ends
    with [IndexError]. *)
Theorem wait_next_in_order_launch_order
        (os : OS) (nproc : Z) (ops : list job_op) (st : state) :
  let all := launched (next_pid st) ops in
  let k := count_waits ops in
  if well_queued ops 0 then
    exists returned jobs st1,
      run_ops os ops (ParallelJobs.init nproc) [] st
      = (Return (returned, jobs), st1)
      /\ List.length returned = k
      /\ map job_of returned ++ map job_of (ParallelJobs.pending jobs) = all
      /\ map job_of returned = firstn k all
      /\ map job_of (ParallelJobs.pending jobs) = skipn k all
      /\ (forall p, In p returned ->
                    returncode p = Some (status os (pid p) (args p))
                    /\ ended os (clock st1) p = true)
      /\ match ParallelJobs.pending jobs with
         | [] =>
             ParallelJobs.wait_next_in_order os jobs st1
             = (Throw IndexError, st1)
         | p :: rest =>
             nth_error all k = Some (job_of p)
             /\ ParallelJobs.wait_next_in_order os jobs st1
                = (Return (ParallelJobs.set_returncode
                             p (Some (status os (pid p) (args p))),
                           {| ParallelJobs.pending := rest;
                              ParallelJobs.nproc :=
                                ParallelJobs.nproc jobs |}),
                   {| clock := Nat.max (clock st1)
                                       (ParallelJobs.finish os p);
                      next_pid := next_pid st1;
                      trace := trace st1 ++ [EvWait (pid p)] |})
         end
  else
    exists st1,
      run_ops os ops (ParallelJobs.init nproc) [] st
      = (Throw IndexError, st1).
Proof.
  intros all k. subst all k.
  generalize (run_ops_queue os ops (ParallelJobs.init nproc) [] st).
  cbn [ParallelJobs.init ParallelJobs.pending List.length].
  destruct (well_queued ops 0); [|auto].
  intros [new [jobs [st1 [E [Hn [Hq [Hr _]]]]]]].
  cbn [map app] in Hq, E.
  assert (Hlen : List.length (map job_of new) = count_waits ops)
    by now rewrite length_map.
  exists new, jobs, st1. split; [exact E|]. split; [exact Hn|].
  split; [exact Hq|]. split; [|split; [|split]].
  - rewrite <- Hq, <- Hlen.
    now rewrite firstn_app, Nat.sub_diag, firstn_all, firstn_O, app_nil_r.
  - rewrite <- Hq, <- Hlen.
    now rewrite skipn_app, Nat.sub_diag, skipn_all, skipn_O.
  - intros p Hp. destruct (Hr p Hp) as [H1 H2]. split; [exact H1|].
    unfold ended. now apply Nat.leb_le.
  - destruct (ParallelJobs.pending jobs) as [|p rest] eqn:Ep.
    + now apply wait_next_in_order_empty.
    + split; [|now apply wait_next_in_order_head].
      rewrite <- Hq, <- Hlen. cbn [map].
      now rewrite nth_error_app2, Nat.sub_diag by lia.
Qed.

(** On the sample, the second job ends at time 7 and the first at time
    10; the first wait still returns the first job. *)
Example later_job_ends_first :
  let ops := [OpLaunch ["first"] None; OpLaunch ["second"] None; OpWait] in
  ended Sample.os 7 {| pid := 1; args := ["second"]; userdata := None;
                       started := 0; returncode := None |} = true
  /\ ended Sample.os 7 {| pid := 0; args := ["first"]; userdata := None;
                          started := 0; returncode := None |} = false
  /\ map job_of
         (fst (match fst (run_ops Sample.os ops (ParallelJobs.init 4) []
                                  initial_state) with
               | Return r => r
               | _ => ([], ParallelJobs.init 4)
               end))
     = [(0, ["first"], None)].
Proof. vm_compute. repeat split. Qed.

(* ===================================================================== *)
(** * Runs of [main] *)
(* ===================================================================== *)

Lemma with_trace_nil (st : state) : with_trace st [] = st.
Proof. destruct st. unfold with_trace. simpl. now rewrite app_nil_r. Qed.

Lemma with_trace_app (st : state) (a b : list event) :
  with_trace (with_trace st a) b = with_trace st (a ++ b).
Proof. unfold with_trace. simpl. now rewrite app_assoc. Qed.

Lemma bind_return {A B} (m : M A) (k : A -> M B) (st st' : state) (a : A) :
  m st = (Return a, st') -> bind m k st = k a st'.
Proof. intros H. unfold bind. now rewrite H. Qed.

Lemma bind_throw {A B} (m : M A) (k : A -> M B) (st st' : state) (e : exn) :
  m st = (Throw e, st') -> bind m k st = (Throw e, st').
Proof. intros H. unfold bind. now rewrite H. Qed.

Lemma popens_app (a b : list event) : popens (a ++ b) = popens a ++ popens b.
Proof.
  induction a as [|[] a IH]; simpl; try exact IH; [reflexivity|].
  now rewrite IH.
Qed.

Lemma waits_app (a b : list event) : waits (a ++ b) = waits a ++ waits b.
Proof.
  induction a as [|[] a IH]; simpl; try exact IH; [reflexivity|].
  now rewrite IH.
Qed.

Lemma dry_runs_app (a b : list event) :
  dry_runs (a ++ b) = dry_runs a ++ dry_runs b.
Proof.
  induction a as [|e a IH]; simpl; [reflexivity|].
  destruct e as [[[]| | |]| | | | |]; simpl; try exact IH.
  now rewrite IH.
Qed.

Lemma popens_sleeps (k : nat) : popens (repeat EvSleep k) = [].
Proof. induction k; simpl; auto. Qed.

Lemma assembly_sleeps (k : nat) :
  Forall (fun e => is_assembly e = false) (repeat EvSleep k).
Proof. induction k; simpl; constructor; auto. Qed.

Lemma launch_events_popens k pid cmd sync :
  popens (launch_events k pid cmd sync) = [cmd].
Proof.
  unfold launch_events. rewrite popens_app, popens_sleeps.
  now destruct sync.
Qed.

Lemma launch_events_assembly k pid cmd sync :
  Forall (fun e => is_assembly e = false) (launch_events k pid cmd sync).
Proof.
  unfold launch_events. apply Forall_app. split; [apply assembly_sleeps|].
  destruct sync; repeat constructor.
Qed.

Lemma launch_events_dry_runs k pid cmd sync :
  dry_runs (launch_events k pid cmd sync) = [].
Proof.
  unfold launch_events. rewrite dry_runs_app.
  replace (dry_runs (repeat EvSleep k)) with (@nil (nat * string))
    by (induction k; simpl; auto).
  now destruct sync.
Qed.

(** ** The nodes of a walk lie under its top directory *)

Lemma under_refl (top : string) (store : pyval) (rev : string) :
  under top (top, store, rev).
Proof. now left. Qed.

Lemma under_trans (top path : string) (n : node) :
  under (top ++ "/" ++ path)%string n -> under top n.
Proof.
  intros [H | [rel H]]; right.
  - now exists path.
  - exists (path ++ "/" ++ rel)%string. rewrite H.
    now rewrite !string_app_assoc.
Qed.

Lemma under_startswith (top : string) (n : node) :
  under top n ->
  PyString.startswith (fst (fst n) ++ "/") (top ++ "/") = true.
Proof.
  intros [-> | [rel ->]].
  - rewrite <- (string_app_nil_r (top ++ "/")) at 1. apply startswith_app.
  - replace ((top ++ "/" ++ rel) ++ "/")%string
      with ((top ++ "/") ++ (rel ++ "/"))%string
      by (now rewrite !string_app_assoc).
    apply startswith_app.
Qed.

Section WalkUnder.

Variable env : Env.
Variable gitdirs : GitDirCollection.t.

Lemma not_found_no_node top store rev path pinned fullpath :
  nodes_of (fst (not_found env top store rev path pinned fullpath)) = [].
Proof.
  unfold not_found. destruct (git_config env _ _) as [c|x].
  - simpl. destruct c as [[|? ?]|]; simpl; try reflexivity.
    destruct (extract_submodule_config _ _) as [[|? ?]|]; reflexivity.
  - unfold raise_items. simpl. apply nodes_of_say.
Qed.

Lemma walk_entries_under fuel
      (IH : forall top store rev d n,
          In n (nodes_of (fst (recursively_iter_repos env gitdirs fuel
                                                      top store rev d))) ->
          under top n)
      top store rev d entries e n :
  In n (nodes_of (fst (walk_submodules env gitdirs
                         (recursively_iter_repos env gitdirs fuel)
                         top store rev d entries e))) ->
  under top n.
Proof.
  induction entries as [|[path pinned] entries IHe]; cbn [walk_submodules].
  - destruct e; simpl; [rewrite nodes_of_say|]; contradiction.
  - destruct (d =? 0)%Z.
    + destruct (walk_submodules _ _ _ _ _ _ _ entries e). exact IHe.
    + destruct (assert_path_format path);
        [|simpl; rewrite nodes_of_say; contradiction].
      destruct (GitDirCollection.find env gitdirs _ pinned) as [[sub|]|x].
      * destruct (recursively_iter_repos env gitdirs fuel _ sub pinned _)
          as [its1 e1] eqn:E1.
        assert (H1 : forall m, In m (nodes_of its1) ->
                               under (top ++ "/" ++ path)%string m).
        { intros m Hm. apply (IH _ sub pinned (d - 1)%Z). now rewrite E1. }
        destruct (walk_submodules _ _ _ _ _ _ _ entries e) as [its2 e2].
        destruct e1 as [|x|]; simpl.
        -- rewrite nodes_of_app. intros H. apply in_app_or in H.
           destruct H as [H | H]; [|now apply IHe].
           apply under_trans with path. now apply H1.
        -- intros H. apply under_trans with path. now apply H1.
        -- intros H. apply under_trans with path. now apply H1.
      * rewrite not_found_no_node. contradiction.
      * simpl. rewrite nodes_of_say. contradiction.
Qed.

Lemma walk_under fuel :
  forall top store rev d n,
    In n (nodes_of (fst (recursively_iter_repos env gitdirs fuel
                                                top store rev d))) ->
    under top n.
Proof.
  induction fuel as [|fuel IH]; intros top store rev d n; simpl;
    [contradiction|].
  destruct (iter_git_submodules_at_rev env store rev) as [subs e].
  destruct (walk_submodules _ _ _ _ _ _ _ subs e) as [its e'] eqn:E.
  simpl. intros [<- | H]; [apply under_refl|].
  apply (walk_entries_under fuel IH top store rev d subs e). now rewrite E.
Qed.

Lemma no_dry_run_app a b : no_dry_run a -> no_dry_run b -> no_dry_run (a ++ b).
Proof.
  unfold no_dry_run. intros Ha Hb.
  now rewrite flat_map_app, dry_runs_app, Ha, Hb.
Qed.

Lemma no_dry_run_raise (e : exn) : no_dry_run (fst (raise_items e)).
Proof. destruct e; reflexivity. Qed.

Lemma no_dry_run_not_found top store rev path pinned fullpath :
  no_dry_run (fst (not_found env top store rev path pinned fullpath)).
Proof.
  unfold not_found. destruct (git_config env _ _) as [c|x].
  - simpl. destruct c as [[|? ?]|]; try reflexivity.
    destruct (extract_submodule_config _ _) as [[|? ?]|]; reflexivity.
  - destruct x; reflexivity.
Qed.

Lemma walk_entries_no_dry_run fuel
      (IH : forall top store rev d,
          no_dry_run (fst (recursively_iter_repos env gitdirs fuel
                                                  top store rev d)))
      top store rev d entries e :
  no_dry_run (fst (walk_submodules env gitdirs
                     (recursively_iter_repos env gitdirs fuel)
                     top store rev d entries e)).
Proof.
  induction entries as [|[path pinned] entries IHe]; cbn [walk_submodules].
  - destruct e; [apply no_dry_run_raise | reflexivity].
  - destruct (d =? 0)%Z.
    + destruct (walk_submodules _ _ _ _ _ _ _ entries e). exact IHe.
    + destruct (assert_path_format path); [|apply no_dry_run_raise].
      destruct (GitDirCollection.find env gitdirs _ pinned) as [[sub|]|x].
      * specialize (IH (top ++ "/" ++ path)%string sub pinned (d - 1)%Z).
        destruct (recursively_iter_repos env gitdirs fuel _ sub pinned _)
          as [its1 e1].
        destruct (walk_submodules _ _ _ _ _ _ _ entries e) as [its2 e2].
        destruct e1; simpl; try exact IH.
        now apply no_dry_run_app.
      * apply no_dry_run_not_found.
      * apply no_dry_run_raise.
Qed.

Lemma walk_no_dry_run fuel :
  forall top store rev d,
    no_dry_run (fst (recursively_iter_repos env gitdirs fuel top store rev d)).
Proof.
  induction fuel as [|fuel IH]; intros top store rev d; simpl;
    [reflexivity|].
  destruct (iter_git_submodules_at_rev env store rev) as [subs e].
  generalize (walk_entries_no_dry_run fuel IH top store rev d subs e).
  destruct (walk_submodules _ _ _ _ _ _ _ subs e) as [its e'].
  simpl. exact (fun H => H).
Qed.

End WalkUnder.

Section MainFacts.

Variable env : Env.
Variable os : OS.
Variable opt : options.

Lemma dry_run_events_say top total its :
  exists lines, dry_run_events opt top total its = map EvSay lines.
Proof.
  revert total. induction its as [|[[[f g] r]|l] its IH]; intros total.
  - now exists [].
  - destruct (IH (total + 1)) as [ls E]. simpl. rewrite E.
    now eexists (_ :: ls).
  - destruct (IH total) as [ls E]. simpl. rewrite E. now exists (l :: ls).
Qed.

Lemma dry_run_events_actions top its :
  no_dry_run its ->
  forall total,
    dry_runs (dry_run_events opt top total its)
    = node_actions opt top total (nodes_of its).
Proof.
  unfold no_dry_run.
  induction its as [|[[[f g] r]|l] its IH]; intros H total.
  - reflexivity.
  - simpl. rewrite Nat.add_1_r. f_equal. apply IH. exact H.
  - simpl in *. destruct l as [[]| | |]; simpl in *;
      try (apply IH; exact H).
    discriminate.
Qed.

Lemma say_with_trace (l : line) (st : state) :
  say l st = (Return tt, with_trace st [EvSay l]).
Proof. reflexivity. Qed.

(** The body of the loop in a dry run. *)
Lemma main_node_dryrun format top f g r jobs total st :
  dryrun opt = true ->
  under top (f, g, r) ->
  main_node os opt format (top ++ "/") (f, g, r) (jobs, total) st =
  (Return (jobs, total + 1),
   with_trace st (dry_run_events opt top total [Yield (f, g, r)])).
Proof.
  intros Hdry Hu. unfold main_node.
  pose proof (under_startswith top (f, g, r) Hu) as Hs.
  cbn [fst] in Hs. rewrite Hs. cbn [negb]. rewrite Hdry.
  reflexivity.
Qed.

(** The loop over the nodes in a dry run: it only prints. *)
Lemma main_nodes_dryrun format top its :
  dryrun opt = true ->
  (forall n, In n (nodes_of its) -> under top n) ->
  forall jobs total st,
    main_nodes os opt format (top ++ "/") its (jobs, total) st =
    (Return (jobs, total + List.length (nodes_of its)),
     with_trace st (dry_run_events opt top total its)).
Proof.
  intros Hdry. induction its as [|[[[f g] r]|l] its IH];
    intros Hu jobs total st; cbn [main_nodes nodes_of].
  - unfold ret. simpl. now rewrite Nat.add_0_r, with_trace_nil.
  - rewrite (bind_return _ _ _ _ _
               (main_node_dryrun format top f g r jobs total st Hdry
                                 (Hu _ (or_introl eq_refl)))).
    rewrite IH by (intros n Hn; apply Hu; now right).
    rewrite with_trace_app. simpl List.length.
    replace (total + 1 + List.length (nodes_of its))
      with (total + S (List.length (nodes_of its))) by lia.
    reflexivity.
  - rewrite (bind_return _ _ _ _ _ (say_with_trace l st)).
    rewrite IH by exact Hu. now rewrite with_trace_app.
Qed.

(** The body of the loop in a real run: a line, then the launch. *)
Lemma main_node_real format top f g r jobs total st :
  dryrun opt = false ->
  under top (f, g, r) ->
  exists jobs' st' l k,
    main_node os opt format (top ++ "/") (f, g, r) (jobs, total) st =
      (Return (jobs', total + 1), st')
    /\ trace st' =
       trace st ++ EvSay l
         :: launch_events k (next_pid st)
                          (node_cmd opt format top total (f, g, r))
                          (ParallelJobs.nproc jobs =? 1)%Z.
Proof.
  intros Hdry Hu. unfold main_node.
  pose proof (under_startswith top (f, g, r) Hu) as Hs.
  cbn [fst] in Hs. rewrite Hs. cbn [negb]. rewrite Hdry.
  unfold bind at 1. unfold bind at 1. unfold say, emit.
  match goal with
  | |- context [ParallelJobs.launch os jobs ?c ?u ?s] =>
      destruct (launch_appends os jobs c u s)
        as [jobs1 [st1 [k [E [_ [_ [_ Ht]]]]]]]; rewrite E
  end.
  unfold ret. cbn [trace next_pid] in Ht.
  eexists jobs1, st1, _, k. split; [reflexivity|].
  rewrite Ht, <- app_assoc. reflexivity.
Qed.

(** The loop over the nodes in a real run: it prints and launches one
    job per node, in order; it touches no file. *)
Lemma main_nodes_real format top its :
  dryrun opt = false ->
  (forall n, In n (nodes_of its) -> under top n) ->
  forall jobs total st,
    exists jobs' st' evs,
      main_nodes os opt format (top ++ "/") its (jobs, total) st =
        (Return (jobs', total + List.length (nodes_of its)), st')
      /\ trace st' = trace st ++ evs
      /\ Forall (fun e => is_assembly e = false) evs
      /\ popens evs = node_cmds opt format top total (nodes_of its).
Proof.
  intros Hdry. induction its as [|[[[f g] r]|l] its IH];
    intros Hu jobs total st; cbn [main_nodes nodes_of].
  - exists jobs, st, []. unfold ret. simpl.
    rewrite Nat.add_0_r, app_nil_r. repeat split. constructor.
  - destruct (main_node_real format top f g r jobs total st Hdry
                             (Hu _ (or_introl eq_refl)))
      as [jobs1 [st1 [l [k [E Ht]]]]].
    rewrite (bind_return _ _ _ _ _ E).
    destruct (IH (fun n Hn => Hu n (or_intror Hn)) jobs1 (total + 1) st1)
      as [jobs' [st' [evs [E' [Ht' [Ha Hp]]]]]].
    rewrite E'.
    eexists jobs', st', (_ :: launch_events k _ _ _ ++ evs).
    split; [|split; [|split]].
    + simpl List.length.
      replace (total + 1 + List.length (nodes_of its))
        with (total + S (List.length (nodes_of its))) by lia.
      reflexivity.
    + rewrite Ht', Ht. rewrite <- !app_assoc. reflexivity.
    + constructor; [reflexivity|]. apply Forall_app. split; [|exact Ha].
      apply launch_events_assembly.
    + cbn [popens]. rewrite popens_app, launch_events_popens, Hp.
      cbn [node_cmds app]. rewrite Nat.add_1_r. reflexivity.
  - rewrite (bind_return _ _ _ _ _ (say_with_trace l st)).
    destruct (IH Hu jobs total (with_trace st [EvSay l]))
      as [jobs' [st' [evs [E' [Ht' [Ha Hp]]]]]].
    rewrite E'.
    exists jobs', st', (EvSay l :: evs).
    split; [reflexivity|]. split; [|split].
    + rewrite Ht'. simpl. now rewrite <- app_assoc.
    + constructor; [reflexivity | exact Ha].
    + exact Hp.
Qed.

End MainFacts.

Section DrainFacts.

Variable os : OS.

Import ParallelJobs.

(** One turn of the drain loop when the archive job has failed: the run
    aborts at once; nothing is appended, nothing is removed. *)
Lemma main_drain_failed fuel format final_output jobs done total st p rest :
  pending jobs = p :: rest ->
  status os (pid p) (args p) <> 0%Z ->
  main_drain os (S fuel) format final_output jobs done total st =
  (Throw (RuntimeError
            (MsgArchiveFailed (Some (status os (pid p) (args p))) (args p))),
   {| clock := Nat.max (clock st) (finish os p);
      next_pid := next_pid st;
      trace := trace st
                 ++ [EvSay (Info (MsgWaiting (done + 1) total));
                     EvWait (pid p);
                     EvSay (Fatal (MsgArchiveFailed
                                     (Some (status os (pid p) (args p)))
                                     (args p)))] |}).
Proof.
  intros Ep Hs. cbn [main_drain]. unfold can_wait. rewrite Ep.
  cbn [List.length Nat.ltb Nat.leb].
  rewrite (bind_return _ _ _ _ _ (say_with_trace _ st)).
  rewrite (bind_return _ _ _ _ _
             (wait_next_in_order_head os jobs p rest _ Ep)).
  cbn [returncode set_returncode nonzero args].
  apply Z.eqb_neq in Hs. rewrite Hs. cbn [negb].
  unfold fatal_M, bind, say, emit, throw. cbn [clock next_pid trace with_trace].
  now rewrite <- !app_assoc.
Qed.

(** One turn of the drain loop when the archive job has succeeded and
    tar too: the segment is appended, then removed; a removal that fails
    gives a warning, and the loop goes on with the next job. *)
Lemma main_drain_appended fuel final_output jobs done total st p rest ud :
  pending jobs = p :: rest ->
  status os (pid p) (args p) = 0%Z ->
  userdata p = Some ud ->
  run_status os (tar_cmd final_output (ud_output ud)) = 0%Z ->
  main_drain os (S fuel) "tar" final_output jobs done total st =
  main_drain os fuel "tar" final_output
             {| pending := rest; nproc := nproc jobs |} (done + 1) total
             {| clock := Nat.max (clock st) (finish os p);
                next_pid := next_pid st;
                trace := trace st
                  ++ [EvSay (Info (MsgWaiting (done + 1) total));
                      EvWait (pid p);
                      EvRun (tar_cmd final_output (ud_output ud)) 0;
                      EvUnlink (ud_output ud) (unlink os (ud_output ud))]
                  ++ match unlink os (ud_output ud) with
                     | None => []
                     | Some _ => [EvSay (Warning (MsgCleanup (ud_output ud)))]
                     end |}.
Proof.
  intros Ep Hs Hud Htar. cbn [main_drain]. unfold can_wait. rewrite Ep.
  cbn [List.length Nat.ltb Nat.leb].
  rewrite (bind_return _ _ _ _ _ (say_with_trace _ st)).
  rewrite (bind_return _ _ _ _ _
             (wait_next_in_order_head os jobs p rest _ Ep)).
  cbn [returncode set_returncode nonzero args userdata].
  rewrite Hs, Hud. cbn [Z.eqb negb]. rewrite String.eqb_refl. cbn [negb].
  unfold run_M, lift, run. fold (tar_cmd final_output (ud_output ud)).
  rewrite Htar. cbn [Z.eqb negb andb].
  unfold bind, emit, ret, except_all, os_unlink.
  cbn [clock next_pid trace with_trace].
  destruct (unlink os (ud_output ud)) as [x|].
  - unfold say, emit. cbn [clock next_pid trace].
    f_equal. f_equal. rewrite <- !app_assoc. reflexivity.
  - f_equal. f_equal. rewrite <- !app_assoc. reflexivity.
Qed.

(** One turn of the drain loop when the archive job has succeeded but
    tar fails: the failure is fatal, and the segment stays. *)
Lemma main_drain_tar_failed fuel final_output jobs done total st p rest ud :
  pending jobs = p :: rest ->
  status os (pid p) (args p) = 0%Z ->
  userdata p = Some ud ->
  run_status os (tar_cmd final_output (ud_output ud)) <> 0%Z ->
  main_drain os (S fuel) "tar" final_output jobs done total st =
  (Throw (RuntimeError
            (MsgCommandFailed
               (run_status os (tar_cmd final_output (ud_output ud)))
               (tar_cmd final_output (ud_output ud)))),
   {| clock := Nat.max (clock st) (finish os p);
      next_pid := next_pid st;
      trace := trace st
        ++ [EvSay (Info (MsgWaiting (done + 1) total));
            EvWait (pid p);
            EvRun (tar_cmd final_output (ud_output ud))
                  (run_status os (tar_cmd final_output (ud_output ud)));
            EvSay (Fatal (MsgCommandFailed
                            (run_status os
                               (tar_cmd final_output (ud_output ud)))
                            (tar_cmd final_output (ud_output ud))))] |}).
Proof.
  intros Ep Hs Hud Htar. cbn [main_drain]. unfold can_wait. rewrite Ep.
  cbn [List.length Nat.ltb Nat.leb].
  rewrite (bind_return _ _ _ _ _ (say_with_trace _ st)).
  rewrite (bind_return _ _ _ _ _
             (wait_next_in_order_head os jobs p rest _ Ep)).
  cbn [returncode set_returncode nonzero args userdata].
  rewrite Hs, Hud. cbn [Z.eqb negb]. rewrite String.eqb_refl. cbn [negb].
  unfold run_M, lift, run. fold (tar_cmd final_output (ud_output ud)).
  apply Z.eqb_neq in Htar. rewrite Htar. cbn [negb andb].
  unfold fatal, fatal_M, bind, emit, say, emit, throw.
  cbn [clock next_pid trace with_trace].
  now rewrite <- !app_assoc.
Qed.

(** The whole drain loop: it ends, it waits for the processes in the
    order of the queue, and it launches nothing. *)
Lemma main_drain_events fuel format final_output :
  forall jobs done total st,
    List.length (pending jobs) <= fuel ->
    exists o st' evs k,
      main_drain os fuel format final_output jobs done total st = (o, st')
      /\ o <> NoFuel
      /\ trace st' = trace st ++ evs
      /\ popens evs = []
      /\ waits evs = firstn k (map pid (pending jobs)).
Proof.
  induction fuel as [|fuel IH]; intros jobs done total st Hlen.
  - destruct (pending jobs) as [|p rest] eqn:Ep; [|simpl in Hlen; lia].
    cbn [main_drain]. unfold can_wait. rewrite Ep. simpl.
    exists (Return tt), st, [], 0. rewrite app_nil_r.
    repeat split. discriminate.
  - destruct (pending jobs) as [|p rest] eqn:Ep.
    + cbn [main_drain]. unfold can_wait. rewrite Ep. simpl.
      exists (Return tt), st, [], 0. rewrite app_nil_r.
      repeat split. discriminate.
    + cbn [main_drain]. unfold can_wait. rewrite Ep.
      cbn [List.length Nat.ltb Nat.leb].
      rewrite (bind_return _ _ _ _ _ (say_with_trace _ st)).
      rewrite (bind_return _ _ _ _ _
                 (wait_next_in_order_head os jobs p rest _ Ep)).
      cbn [returncode set_returncode nonzero args userdata].
      destruct (negb (status os (pid p) (args p) =? 0)%Z).
      { eexists _, _, _, 1. unfold fatal_M, bind, say, emit, throw.
        cbn [clock next_pid trace with_trace].
        split; [reflexivity|]. split; [discriminate|].
        split; [now rewrite <- !app_assoc|]. split; reflexivity. }
      destruct (negb (format =? "tar")).
      { eexists _, _, _, 1. unfold throw.
        split; [reflexivity|]. split; [discriminate|].
        cbn [clock next_pid trace with_trace].
        split; [now rewrite <- !app_assoc|]. split; reflexivity. }
      destruct (userdata p) as [ud|].
      2:{ eexists _, _, _, 1. unfold throw.
          split; [reflexivity|]. split; [discriminate|].
          cbn [clock next_pid trace with_trace].
          split; [now rewrite <- !app_assoc|]. split; reflexivity. }
      unfold run_M, lift, run. cbn [negb andb].
      destruct (negb (run_status os _ =? 0)%Z).
      { eexists _, _, _, 1. unfold fatal, fatal_M, bind, say, emit, throw.
        cbn [clock next_pid trace with_trace].
        split; [reflexivity|]. split; [discriminate|].
        split; [now rewrite <- !app_assoc|]. split; reflexivity. }
      unfold bind, emit, ret, except_all, os_unlink.
      cbn [clock next_pid trace with_trace].
      assert (Hrest : forall j d s,
                 pending j = rest ->
                 exists o st' evs k,
                   main_drain os fuel format final_output j d total s
                     = (o, st')
                   /\ o <> NoFuel
                   /\ trace st' = trace s ++ evs
                   /\ popens evs = []
                   /\ waits evs = firstn k (map pid rest)).
      { intros j d s Hj. rewrite <- Hj. apply IH. rewrite Hj.
        simpl in Hlen. lia. }
      destruct (unlink os (ud_output ud)) as [x|].
      * unfold say, emit. cbn [clock next_pid trace].
        match goal with
        | |- context [main_drain os fuel format final_output ?j ?d total ?s] =>
            destruct (Hrest j d s eq_refl)
              as [o [st' [evs [k [E [Ho [Ht [Hp Hw]]]]]]]]
        end.
        rewrite E. eexists o, st', _, (S k).
        split; [reflexivity|]. split; [exact Ho|].
        cbn [trace] in Ht. rewrite Ht, <- !app_assoc. cbn [app].
        split; [reflexivity|]. cbn [popens waits map firstn].
        now rewrite Hp, Hw.
      * match goal with
        | |- context [main_drain os fuel format final_output ?j ?d total ?s] =>
            destruct (Hrest j d s eq_refl)
              as [o [st' [evs [k [E [Ho [Ht [Hp Hw]]]]]]]]
        end.
        rewrite E. eexists o, st', _, (S k).
        split; [reflexivity|]. split; [exact Ho|].
        cbn [trace] in Ht. rewrite Ht, <- !app_assoc. cbn [app].
        split; [reflexivity|]. cbn [popens waits map firstn].
        now rewrite Hp, Hw.
Qed.

End DrainFacts.

(* ===================================================================== *)
(** * The format of the archive *)
(* ===================================================================== *)

Lemma endswith_exclusive (s a b : string) :
  String.length a <= String.length b ->
  PyString.endswith b a = false ->
  PyString.endswith s a = true -> PyString.endswith s b = true -> False.
Proof.
  intros Hlen Hno Ha Hb.
  rewrite (endswith_both s a b Ha Hb Hlen) in Hno. discriminate.
Qed.

(** The loop without [break] keeps the last extension that matches; no
    two of the four extensions end the same path, so this is also the
    first. *)
Lemma format_of_output_first (output : string) :
  format_of_output output = format_by_extension output.
Proof.
  unfold format_of_output, format_by_extension.
  cbn [fold_left String.append].
  destruct (PyString.endswith output ".tar.gz") eqn:E1;
    destruct (PyString.endswith output ".tar") eqn:E2;
    destruct (PyString.endswith output ".tgz") eqn:E3;
    destruct (PyString.endswith output ".zip") eqn:E4;
    try reflexivity; exfalso.
  all: try (apply (endswith_exclusive output ".zip" ".tar.gz");
            [simpl; lia | reflexivity | assumption | assumption]).
  all: try (apply (endswith_exclusive output ".tgz" ".tar.gz");
            [simpl; lia | reflexivity | assumption | assumption]).
  all: try (apply (endswith_exclusive output ".tar" ".tar.gz");
            [simpl; lia | reflexivity | assumption | assumption]).
  all: try (apply (endswith_exclusive output ".zip" ".tar");
            [simpl; lia | reflexivity | assumption | assumption]).
  all: try (apply (endswith_exclusive output ".tgz" ".tar");
            [simpl; lia | reflexivity | assumption | assumption]).
  all: try (apply (endswith_exclusive output ".zip" ".tgz");
            [simpl; lia | reflexivity | assumption | assumption]).
Qed.

Lemma supported_tar (f : option string) :
  supported f = Some "tar" <-> f = Some "tar".
Proof.
  unfold supported, SUPPORTED_FORMAT. cbn [existsb]. split.
  - destruct f as [f|]; [|discriminate].
    rewrite orb_false_r. destruct (f =? "tar") eqn:E; [|discriminate].
    apply String.eqb_eq in E. now subst.
  - intros ->. reflexivity.
Qed.

Lemma supported_none (f : option string) :
  f <> Some "tar" -> supported f = None.
Proof.
  unfold supported, SUPPORTED_FORMAT. cbn [existsb].
  destruct f as [f|]; [|reflexivity].
  rewrite orb_false_r. destruct (f =? "tar") eqn:E; [|reflexivity].
  apply String.eqb_eq in E. subst. intros H. now elim H.
Qed.

Lemma supported_some (f : option string) (g : string) :
  supported f = Some g -> g = "tar" /\ f = Some "tar".
Proof.
  unfold supported, SUPPORTED_FORMAT. cbn [existsb].
  destruct f as [f|]; [|discriminate].
  rewrite orb_false_r. destruct (f =? "tar") eqn:E; [|discriminate].
  apply String.eqb_eq in E. subst. intros H. injection H as <-. now split.
Qed.

(** C9.  With no format given, the format is the extension of the output
    path, among tar.gz, tar, tgz and zip tested in this order; a format
    given is kept.  Any format other than tar, and no format at all,
    ends [main] with a fatal error: the run prints the error and raises,
    whatever git would answer and before anything else happens. *)
Theorem unsupported_format_is_fatal (opt : options) :
  (format opt = None ->
   effective_format opt = format_by_extension (output opt))
  /\ (forall f, format opt = Some f -> effective_format opt = Some f)
  /\ (effective_format opt <> Some "tar" ->
      forall env os fuel st,
        main env os fuel opt st =
          (Throw (RuntimeError (MsgUnsupportedFormat (effective_format opt))),
           with_trace st
             [EvSay (Fatal (MsgUnsupportedFormat (effective_format opt)))])
        /\ exit_status (fst (main env os fuel opt st)) = Some 1%Z).
Proof.
  split; [|split].
  - intros H. unfold effective_format. rewrite H.
    apply format_of_output_first.
  - intros f H. unfold effective_format. now rewrite H.
  - intros H env os fuel st.
    assert (E : main env os fuel opt st =
                (Throw (RuntimeError
                          (MsgUnsupportedFormat (effective_format opt))),
                 with_trace st
                   [EvSay (Fatal (MsgUnsupportedFormat
                                    (effective_format opt)))])).
    { unfold main. rewrite (supported_none _ H). reflexivity. }
    split; [exact E|]. now rewrite E.
Qed.

(** C9 on an output named [out.tar.gz]: the format inferred is tar.gz,
    and the run is fatal at once. *)
Lemma unsupported_format_is_fatal_witness :
  let opt := {| tree_ish := None; output := "out.tar.gz"; format := None;
                prefix := ""; opt_nproc := 1; lookup := None;
                depth := (-1); dryrun := false; debug := false |} in
  effective_format opt = Some "tar.gz"
  /\ main (Sample.env true) Sample.os 3 opt initial_state =
     (Throw (RuntimeError (MsgUnsupportedFormat (Some "tar.gz"))),
      with_trace initial_state
        [EvSay (Fatal (MsgUnsupportedFormat (Some "tar.gz")))]).
Proof.
  cbv zeta.
  destruct (unsupported_format_is_fatal
              {| tree_ish := None; output := "out.tar.gz"; format := None;
                 prefix := ""; opt_nproc := 1; lookup := None;
                 depth := (-1); dryrun := false; debug := false |})
    as [H1 [_ H3]].
  split.
  - rewrite (H1 eq_refl). reflexivity.
  - destruct (H3 ltac:(rewrite (H1 eq_refl); discriminate)
                 (Sample.env true) Sample.os 3 initial_state) as [E _].
    rewrite E. rewrite (H1 eq_refl). reflexivity.
Defined.

(* ===================================================================== *)
(** * The phases of [main] *)
(* ===================================================================== *)

Section MainPhases.

Variable env : Env.
Variable os : OS.
Variable opt : options.

Lemma lift_raise {A} (e : exn) (st : state) :
  @lift A (Raise e) st = (Throw e, with_trace st (map EvSay (exn_lines e))).
Proof.
  destruct e; simpl; unfold throw; try now rewrite with_trace_nil.
  reflexivity.
Qed.

(** [main] when the setup fails. *)
Lemma main_setup_failed fuel st e :
  effective_format opt = Some "tar" ->
  main_setup env opt = Raise e ->
  main env os fuel opt st =
  (Throw e, with_trace st (map EvSay (exn_lines e))).
Proof.
  intros Hf Hs. unfold main. rewrite Hf. cbn [supported SUPPORTED_FORMAT existsb].
  rewrite String.eqb_refl. cbn [orb]. rewrite Hs.
  unfold bind. now rewrite lift_raise.
Qed.

(** [main] after the setup: the loop over the nodes, the end of the
    generator, the last part. *)
Lemma main_after_setup fuel st top_rev top top_gitdir gitdirs its e :
  effective_format opt = Some "tar" ->
  main_setup env opt = Ok (top_rev, top, top_gitdir, gitdirs) ->
  recursively_iter_repos env gitdirs fuel top (PyStr top_gitdir) top_rev
                         (depth opt) = (its, e) ->
  main env os fuel opt st =
  (acc <- main_nodes os opt "tar" (top ++ "/") its
                     (ParallelJobs.init (opt_nproc opt), 0) ;;
   generator_end e ;;
   main_finish os opt "tar" (fst acc) (snd acc))%M st.
Proof.
  intros Hf Hs Hw. unfold main. rewrite Hf.
  cbn [supported SUPPORTED_FORMAT existsb].
  rewrite String.eqb_refl. cbn [orb]. rewrite Hs.
  unfold lift, bind at 1, ret at 1. rewrite Hw.
  unfold bind.
  destruct (main_nodes os opt "tar" (top ++ "/") its _ st)
    as [[[jobs total]| |] st']; reflexivity.
Qed.

(** The last part of a real run: the final output is removed first;
    nothing is launched any more. *)
Lemma main_finish_real jobs total st :
  dryrun opt = false ->
  exists o st' evs,
    main_finish os opt "tar" jobs total st = (o, st')
    /\ trace st' =
       trace st ++ EvUnlink (output opt) (unlink os (output opt)) :: evs
    /\ popens evs = []
    /\ o <> NoFuel.
Proof.
  intros Hdry. unfold main_finish. rewrite Hdry.
  unfold bind at 1. unfold except_FileNotFoundError, os_unlink.
  destruct (main_drain_events os (List.length (ParallelJobs.pending jobs))
              "tar" (output opt) jobs 0 total
              {| clock := clock st; next_pid := next_pid st;
                 trace := trace st ++ [EvUnlink (output opt)
                                                (unlink os (output opt))] |}
              (le_n _))
    as [o [st' [evs [k [E [Ho [Ht [Hp _]]]]]]]].
  cbn [trace] in Ht.
  assert (Hgo :
    (main_drain os (List.length (ParallelJobs.pending jobs)) "tar"
                (output opt) jobs 0 total ;;
     say (Info MsgDone) ;; ret 0%Z)%M
      {| clock := clock st; next_pid := next_pid st;
         trace := trace st ++ [EvUnlink (output opt)
                                        (unlink os (output opt))] |}
    = (match o with
       | Return _ => Return 0%Z
       | Throw x => Throw x
       | NoFuel => NoFuel
       end,
       match o with
       | Return _ => with_trace st' [EvSay (Info MsgDone)]
       | _ => st'
       end)).
  { unfold bind at 1. rewrite E. destruct o as [[]|x|]; reflexivity. }
  destruct (unlink os (output opt)) as [x|] eqn:Eu.
  - destruct x;
      try (eexists _, _, []; split; [reflexivity|];
           cbn [trace]; repeat split; discriminate).
    rewrite Hgo.
    destruct o as [[]|x|].
    + eexists _, _, (evs ++ [EvSay (Info MsgDone)]).
      split; [reflexivity|]. cbn [trace with_trace]. rewrite Ht.
      rewrite <- !app_assoc, popens_app, Hp. repeat split. discriminate.
    + eexists _, _, evs. split; [reflexivity|]. rewrite Ht.
      rewrite <- !app_assoc. repeat split; [exact Hp | discriminate].
    + now elim Ho.
  - rewrite Hgo.
    destruct o as [[]|x|].
    + eexists _, _, (evs ++ [EvSay (Info MsgDone)]).
      split; [reflexivity|]. cbn [trace with_trace]. rewrite Ht.
      rewrite <- !app_assoc, popens_app, Hp. repeat split. discriminate.
    + eexists _, _, evs. split; [reflexivity|]. rewrite Ht.
      rewrite <- !app_assoc. repeat split; [exact Hp | discriminate].
    + now elim Ho.
Qed.

End MainPhases.

(* ===================================================================== *)
(** * Dry runs *)
(* ===================================================================== *)

(** C8.  A dry run only prints: its trace grows by printed lines alone,
    so no process is launched and no file is created, removed or
    written.  When the setup succeeds, the intended actions printed are
    those of the nodes of the walk, one per node, in order and numbered
    from 1; and when the walk finishes, [main] returns 0, the exit
    status of the process. *)
Theorem dry_run_only_prints
        (env : Env) (os : OS) (fuel : nat) (opt : options) (st : state) :
  dryrun opt = true ->
  (exists lines,
      snd (main env os fuel opt st) = with_trace st (map EvSay lines))
  /\ (forall top_rev top top_gitdir gitdirs its e,
         effective_format opt = Some "tar" ->
         main_setup env opt = Ok (top_rev, top, top_gitdir, gitdirs) ->
         recursively_iter_repos env gitdirs fuel top (PyStr top_gitdir)
                                top_rev (depth opt) = (its, e) ->
         dry_runs (trace (snd (main env os fuel opt st)))
         = dry_runs (trace st) ++ node_actions opt top 0 (nodes_of its)
         /\ (e = Finished ->
             fst (main env os fuel opt st) = Return 0%Z
             /\ exit_status (fst (main env os fuel opt st)) = Some 0%Z)).
Proof.
  intros Hdry.
  assert (Hrun : forall top_rev top top_gitdir gitdirs its e,
             effective_format opt = Some "tar" ->
             main_setup env opt = Ok (top_rev, top, top_gitdir, gitdirs) ->
             recursively_iter_repos env gitdirs fuel top (PyStr top_gitdir)
                                    top_rev (depth opt) = (its, e) ->
             main env os fuel opt st =
             (match e with
              | Finished => Return 0%Z
              | Raised x => Throw x
              | OutOfFuel => NoFuel
              end,
              with_trace st
                (dry_run_events opt top 0 its
                   ++ match e with
                      | Finished => [EvSay (Info MsgDryRunDone)]
                      | _ => []
                      end))).
  { intros top_rev top top_gitdir gitdirs its e Hf Hs Hw.
    rewrite (main_after_setup env os opt fuel st _ _ _ _ _ _ Hf Hs Hw).
    assert (Hu : forall n, In n (nodes_of its) -> under top n).
    { intros n Hn. apply (walk_under env gitdirs fuel top (PyStr top_gitdir)
                                     top_rev (depth opt)).
      now rewrite Hw. }
    rewrite (bind_return _ _ _ _ _
               (main_nodes_dryrun os opt "tar" top its Hdry Hu _ 0 st)).
    destruct e as [|x|]; unfold bind, generator_end, ret, throw, no_fuel.
    - unfold main_finish. rewrite Hdry. cbn [fst snd].
      unfold bind, say, emit, ret. cbn [clock next_pid trace with_trace].
      now rewrite <- app_assoc.
    - now rewrite app_nil_r.
    - now rewrite app_nil_r. }
  split.
  - destruct (supported (effective_format opt)) as [f|] eqn:Ef.
    + apply supported_some in Ef. destruct Ef as [-> Ef].
      destruct (main_setup env opt) as [[[[top_rev top] top_gitdir] gitdirs]|x]
        eqn:Es.
      * destruct (recursively_iter_repos env gitdirs fuel top
                    (PyStr top_gitdir) top_rev (depth opt)) as [its e] eqn:Ew.
        rewrite (Hrun _ _ _ _ _ _ Ef eq_refl Ew). cbn [snd].
        destruct (dry_run_events_say opt top 0 its) as [ls ->].
        destruct e.
        -- exists (ls ++ [Info MsgDryRunDone]). now rewrite map_app.
        -- exists ls. now rewrite app_nil_r.
        -- exists ls. now rewrite app_nil_r.
      * rewrite (main_setup_failed env os opt fuel st x Ef Es). cbn [snd].
        now exists (exn_lines x).
    + unfold main. rewrite Ef. now eexists [_].
  - intros top_rev top top_gitdir gitdirs its e Hf Hs Hw.
    rewrite (Hrun _ _ _ _ _ _ Hf Hs Hw). cbn [fst snd trace with_trace].
    split.
    + rewrite !dry_runs_app. rewrite dry_run_events_actions.
      * destruct e; simpl; now rewrite app_nil_r.
      * generalize (walk_no_dry_run env gitdirs fuel top (PyStr top_gitdir)
                                    top_rev (depth opt)).
        now rewrite Hw.
    + intros ->. now split.
Qed.

(** C8 on the sample: four repositories, four intended actions, and the
    exit status 0. *)
Lemma dry_run_only_prints_witness :
  let r := main (Sample.env true) Sample.os 3
                (Sample.with_dryrun Sample.opt) initial_state in
  dry_runs (trace (snd r))
  = [(1, "pkg/"); (2, "pkg/libs/foo/"); (3, "pkg/libs/foo/deep/");
     (4, "pkg/old/bar/")]
  /\ exit_status (fst r) = Some 0%Z.
Proof.
  cbv zeta.
  destruct (dry_run_only_prints (Sample.env true) Sample.os 3
              (Sample.with_dryrun Sample.opt) initial_state eq_refl)
    as [_ H].
  destruct (H "r0" "/top" "/top/.git" (Sample.gitdirs true)
              (fst (recursively_iter_repos (Sample.env true)
                      (Sample.gitdirs true) 3 "/top" (PyStr "/top/.git")
                      "r0" (-1)))
              Finished) as [H1 H2].
  - reflexivity.
  - vm_compute. reflexivity.
  - vm_compute. reflexivity.
  - split.
    + rewrite H1. vm_compute. reflexivity.
    + exact (proj2 (H2 eq_refl)).
Defined.

(* ===================================================================== *)
(** * Real runs: first every launch, then the assembly *)
(* ===================================================================== *)

Lemma node_cmds_length opt format top total nodes :
  List.length (node_cmds opt format top total nodes) = List.length nodes.
Proof.
  revert total. induction nodes as [|n nodes IH]; intros total; simpl;
    [reflexivity | now rewrite IH].
Qed.

(** A real run after a successful setup: the launches of the loop, one
    per node of the walk, then, if the walk has finished, the removal of
    the final output and the assembly. *)
Lemma main_real_trace env os fuel opt st top_rev top top_gitdir gitdirs
      its e :
  dryrun opt = false ->
  effective_format opt = Some "tar" ->
  main_setup env opt = Ok (top_rev, top, top_gitdir, gitdirs) ->
  recursively_iter_repos env gitdirs fuel top (PyStr top_gitdir) top_rev
                         (depth opt) = (its, e) ->
  exists loop_evs drain_evs,
    trace (snd (main env os fuel opt st)) = trace st ++ loop_evs ++ drain_evs
    /\ Forall (fun e => is_assembly e = false) loop_evs
    /\ popens loop_evs = node_cmds opt "tar" top 0 (nodes_of its)
    /\ popens drain_evs = []
    /\ (e <> Finished -> drain_evs = [])
    /\ (e = Finished ->
        exists rest,
          drain_evs = EvUnlink (output opt) (unlink os (output opt)) :: rest).
Proof.
  intros Hdry Ef Es Ew.
  rewrite (main_after_setup env os opt fuel st _ _ _ _ _ _ Ef Es Ew).
  assert (Hu : forall n, In n (nodes_of its) -> under top n).
  { intros n Hn. apply (walk_under env gitdirs fuel top (PyStr top_gitdir)
                                   top_rev (depth opt)).
    now rewrite Ew. }
  destruct (main_nodes_real os opt "tar" top its Hdry Hu
                            (ParallelJobs.init (opt_nproc opt)) 0 st)
    as [jobs' [st1 [evs [E [Ht [Ha Hp]]]]]].
  rewrite (bind_return _ _ _ _ _ E). cbn [fst snd].
  destruct e as [|x|].
  - unfold bind at 1, generator_end, ret at 1.
    destruct (main_finish_real os opt jobs' (0 + List.length (nodes_of its))
                               st1 Hdry)
      as [o [st' [evs2 [E2 [Ht2 [Hp2 _]]]]]].
    rewrite E2. cbn [snd].
    exists evs, (EvUnlink (output opt) (unlink os (output opt)) :: evs2).
    split; [now rewrite Ht2, Ht, <- app_assoc|].
    split; [exact Ha|]. split; [exact Hp|]. split; [exact Hp2|].
    split; [intros H; now elim H | intros _; now eexists].
  - unfold bind, generator_end, throw. cbn [snd].
    exists evs, []. rewrite app_nil_r. split; [exact Ht|].
    split; [exact Ha|]. split; [exact Hp|]. split; [reflexivity|].
    split; [reflexivity | discriminate].
  - unfold bind, generator_end, no_fuel. cbn [snd].
    exists evs, []. rewrite app_nil_r. split; [exact Ht|].
    split; [exact Ha|]. split; [exact Hp|]. split; [reflexivity|].
    split; [reflexivity | discriminate].
Qed.

(** The commands launched by a real run are those of the nodes of the
    walk, in the order of the walk, whatever the processes do. *)
Lemma launched_commands env os fuel opt st top_rev top top_gitdir gitdirs
      its e :
  dryrun opt = false ->
  effective_format opt = Some "tar" ->
  main_setup env opt = Ok (top_rev, top, top_gitdir, gitdirs) ->
  recursively_iter_repos env gitdirs fuel top (PyStr top_gitdir) top_rev
                         (depth opt) = (its, e) ->
  popens (trace (snd (main env os fuel opt st)))
  = popens (trace st) ++ node_cmds opt "tar" top 0 (nodes_of its).
Proof.
  intros Hdry Ef Es Ew.
  destruct (main_real_trace env os fuel opt st _ _ _ _ _ _ Hdry Ef Es Ew)
    as [loop_evs [drain_evs [Ht [_ [Hp [Hd _]]]]]].
  now rewrite Ht, !popens_app, Hp, Hd, app_nil_r.
Qed.

(** C10.  In a real run the trace is made of two parts.  The first holds
    the launches and changes no file; the second starts with the removal
    of the final output and launches nothing.  The second part exists
    only when the setup has succeeded and the walk has finished, and
    then the first part has launched the archive job of every node of
    the walk, in order. *)
Theorem assembly_after_every_launch
        (env : Env) (os : OS) (fuel : nat) (opt : options) (st : state) :
  dryrun opt = false ->
  exists loop_evs drain_evs,
    trace (snd (main env os fuel opt st)) = trace st ++ loop_evs ++ drain_evs
    /\ Forall (fun e => is_assembly e = false) loop_evs
    /\ popens drain_evs = []
    /\ (drain_evs = [] \/
        exists rest,
          drain_evs = EvUnlink (output opt) (unlink os (output opt)) :: rest)
    /\ (drain_evs <> [] ->
        exists top_rev top top_gitdir gitdirs its,
          effective_format opt = Some "tar"
          /\ main_setup env opt = Ok (top_rev, top, top_gitdir, gitdirs)
          /\ recursively_iter_repos env gitdirs fuel top (PyStr top_gitdir)
                                    top_rev (depth opt) = (its, Finished)
          /\ popens loop_evs = node_cmds opt "tar" top 0 (nodes_of its)).
Proof.
  intros Hdry.
  assert (Hsay : forall ls : list line,
             Forall (fun e => is_assembly e = false) (map EvSay ls)).
  { intros ls. apply Forall_forall. intros e He. apply in_map_iff in He.
    destruct He as [l [<- _]]. reflexivity. }
  destruct (supported (effective_format opt)) as [f|] eqn:Ef.
  2:{ unfold main. rewrite Ef. eexists [_], [].
      split; [reflexivity|]. split; [apply (Hsay [_])|].
      split; [reflexivity|]. split; [now left|]. intros H. now elim H. }
  apply supported_some in Ef. destruct Ef as [-> Ef].
  destruct (main_setup env opt) as [[[[top_rev top] top_gitdir] gitdirs]|x]
    eqn:Es.
  2:{ rewrite (main_setup_failed env os opt fuel st x Ef Es).
      exists (map EvSay (exn_lines x)), []. cbn [snd trace with_trace].
      rewrite app_nil_r. split; [reflexivity|]. split; [apply Hsay|].
      split; [reflexivity|]. split; [now left|]. intros H. now elim H. }
  destruct (recursively_iter_repos env gitdirs fuel top (PyStr top_gitdir)
                                   top_rev (depth opt)) as [its e] eqn:Ew.
  destruct (main_real_trace env os fuel opt st _ _ _ _ _ _ Hdry Ef Es Ew)
    as [loop_evs [drain_evs [Ht [Ha [Hp [Hd [Hne Hfin]]]]]]].
  exists loop_evs, drain_evs.
  split; [exact Ht|]. split; [exact Ha|]. split; [exact Hd|].
  destruct e as [|x|].
  - destruct (Hfin eq_refl) as [rest ->].
    split; [right; now exists rest|]. intros _.
    exists top_rev, top, top_gitdir, gitdirs, its. repeat split; assumption.
  - rewrite Hne by discriminate. split; [now left|]. intros H. now elim H.
  - rewrite Hne by discriminate. split; [now left|]. intros H. now elim H.
Qed.

(** C10 on the sample: four launches, then the removal of [out.tar] and
    the assembly. *)
Lemma assembly_after_every_launch_witness :
  exists loop_evs drain_evs,
    trace (snd (main (Sample.env true) Sample.os 3 Sample.opt initial_state))
    = loop_evs ++ drain_evs
    /\ Forall (fun e => is_assembly e = false) loop_evs
    /\ popens drain_evs = []
    /\ List.length (popens loop_evs) = 4
    /\ exists rest,
        drain_evs = EvUnlink "out.tar" (Some FileNotFoundError) :: rest.
Proof.
  destruct (assembly_after_every_launch (Sample.env true) Sample.os 3
              Sample.opt initial_state eq_refl)
    as [loop_evs [drain_evs [Ht [Ha [Hp [Hd Hall]]]]]].
  exists loop_evs, drain_evs.
  assert (Hne : drain_evs <> []).
  { intros ->. rewrite app_nil_r in Ht. vm_compute in Ht. subst loop_evs.
    apply Forall_forall
      with (x := EvUnlink "out.tar" (Some FileNotFoundError)) in Ha.
    - discriminate.
    - do 8 right. now left. }
  split; [exact Ht|]. split; [exact Ha|]. split; [exact Hp|]. split.
  - destruct (Hall Hne)
      as [top_rev [top [top_gitdir [gitdirs [its [_ [Hs [Hw Hc]]]]]]]].
    vm_compute in Hs. injection Hs as <- <- <- <-.
    rewrite Hc.
    assert (Hn : List.length (nodes_of its) = 4).
    { change its with (fst (its, Finished)). rewrite <- Hw.
      vm_compute. reflexivity. }
    now rewrite node_cmds_length.
  - destruct Hd as [-> | H]; [now elim Hne | exact H].
Defined.

(* ===================================================================== *)
(** * The assembly *)
(* ===================================================================== *)

(** C5.  The drain loop, started with the length of the queue as fuel,
    ends; it waits for the jobs in the order of the queue, which is the
    launch order, and launches nothing.  At each turn, for the job at
    the head of the queue: when its exit status is not zero the run
    aborts at once with a fatal error, without appending or removing
    anything; when it is zero, tar is run to append the segment to the
    final output, then the segment is removed, a removal that fails only
    printing a warning, and the loop goes on with the rest of the queue
    (a tar that fails is fatal like any failed command). *)
Theorem assembly_in_launch_order
        (os : OS) (final_output : string) (jobs : ParallelJobs.t)
        (done total : nat) (st : state) :
  (exists o st' evs k,
      main_drain os (List.length (ParallelJobs.pending jobs)) "tar"
                 final_output jobs done total st = (o, st')
      /\ o <> NoFuel
      /\ trace st' = trace st ++ evs
      /\ popens evs = []
      /\ waits evs = firstn k (map pid (ParallelJobs.pending jobs)))
  /\ (forall fuel p rest,
         ParallelJobs.pending jobs = p :: rest ->
         status os (pid p) (args p) <> 0%Z ->
         main_drain os (S fuel) "tar" final_output jobs done total st =
         (Throw (RuntimeError
                   (MsgArchiveFailed (Some (status os (pid p) (args p)))
                                     (args p))),
          {| clock := Nat.max (clock st) (ParallelJobs.finish os p);
             next_pid := next_pid st;
             trace := trace st
               ++ [EvSay (Info (MsgWaiting (done + 1) total));
                   EvWait (pid p);
                   EvSay (Fatal (MsgArchiveFailed
                                   (Some (status os (pid p) (args p)))
                                   (args p)))] |}))
  /\ (forall fuel p rest ud,
         ParallelJobs.pending jobs = p :: rest ->
         status os (pid p) (args p) = 0%Z ->
         userdata p = Some ud ->
         let cmd := tar_cmd final_output (ud_output ud) in
         let waited :=
           [EvSay (Info (MsgWaiting (done + 1) total)); EvWait (pid p);
            EvRun cmd (run_status os cmd)] in
         main_drain os (S fuel) "tar" final_output jobs done total st =
         if (run_status os cmd =? 0)%Z then
           main_drain os fuel "tar" final_output
             {| ParallelJobs.pending := rest;
                ParallelJobs.nproc := ParallelJobs.nproc jobs |}
             (done + 1) total
             {| clock := Nat.max (clock st) (ParallelJobs.finish os p);
                next_pid := next_pid st;
                trace := trace st
                  ++ (waited
                        ++ [EvUnlink (ud_output ud)
                                     (unlink os (ud_output ud))])
                  ++ match unlink os (ud_output ud) with
                     | None => []
                     | Some _ => [EvSay (Warning (MsgCleanup (ud_output ud)))]
                     end |}
         else
           (Throw (RuntimeError (MsgCommandFailed (run_status os cmd) cmd)),
            {| clock := Nat.max (clock st) (ParallelJobs.finish os p);
               next_pid := next_pid st;
               trace := trace st
                 ++ waited
                 ++ [EvSay (Fatal (MsgCommandFailed (run_status os cmd)
                                                    cmd))] |})).
Proof.
  split; [|split].
  - apply main_drain_events. apply le_n.
  - intros fuel p rest Ep Hs. now apply main_drain_failed with rest.
  - intros fuel p rest ud Ep Hs Hud cmd waited. subst cmd waited.
    destruct (run_status os (tar_cmd final_output (ud_output ud)) =? 0)%Z
      eqn:E.
    + apply Z.eqb_eq in E.
      rewrite (main_drain_appended os fuel final_output jobs done total st
                                   p rest ud Ep Hs Hud E).
      now rewrite E.
    + apply Z.eqb_neq in E.
      now rewrite (main_drain_tar_failed os fuel final_output jobs done
                                         total st p rest ud Ep Hs Hud E).
Qed.

(** C5 on two jobs: the first succeeds but its segment cannot be
    removed, the second has failed.  The first segment is appended, the
    warning printed, and the run aborts at the second job. *)
Lemma assembly_in_launch_order_witness :
  main_drain Sample.os_failing 2 "tar" "out.tar" SampleRun.queue 0 2
             initial_state
  = (Throw (RuntimeError (MsgArchiveFailed (Some 128%Z) ["second"])),
     {| clock := 10; next_pid := 0;
        trace := [EvSay (Info (MsgWaiting 1 2)); EvWait 0;
                  EvRun ["tar"; "--concatenate"; "-f"; "out.tar"; "out.tar.0"]
                        0;
                  EvUnlink "out.tar.0" (Some OSError);
                  EvSay (Warning (MsgCleanup "out.tar.0"));
                  EvSay (Info (MsgWaiting 2 2)); EvWait 1;
                  EvSay (Fatal (MsgArchiveFailed (Some 128%Z) ["second"]))]
     |}).
Proof.
  destruct (assembly_in_launch_order Sample.os_failing "out.tar"
              SampleRun.queue 0 2 initial_state) as [_ [_ Hok]].
  rewrite (Hok 1 (SampleRun.job 0 "first") [SampleRun.job 1 "second"]
               {| step := "gitarchive"; ud_output := "out.tar.0" |}
               eq_refl eq_refl eq_refl).
  cbv zeta. cbn [Sample.os_failing run_status Z.eqb].
  match goal with
  | |- main_drain _ _ _ _ ?j ?d ?t ?s = _ =>
      destruct (assembly_in_launch_order Sample.os_failing "out.tar"
                  j d t s) as [_ [Hfail _]]
  end.
  rewrite (Hfail 0 (SampleRun.job 1 "second") [] eq_refl
                 ltac:(vm_compute; discriminate)).
  reflexivity.
Defined.

(* ===================================================================== *)
(** * A submodule whose commit is in no store *)
(* ===================================================================== *)

Section Unresolved.

Variable env : Env.
Variable gitdirs : GitDirCollection.t.

Lemma config_lines_raise dic lines e :
  config_lines dic lines = Raise e -> e = ValueError.
Proof.
  revert dic. induction lines as [|l lines IH]; intros dic; simpl;
    [discriminate|].
  destruct l as [|k [|v [|? ?]]]; try (intros H; now injection H).
  apply IH.
Qed.

Lemma git_config_raise blob g e :
  git_config env blob (Some g) = Raise e -> e = ValueError.
Proof.
  unfold git_config. rewrite git_gitdir. cbn [rbind].
  destruct (run_lines env _) as [rc out].
  destruct (negb (rc =? 0)%Z); [discriminate|].
  destruct (config_lines [] out) eqn:E; [discriminate|].
  intros H. injection H as <-. now apply config_lines_raise in E.
Qed.

(** The walk at an entry that [find] does not resolve: the diagnostic
    is printed, no node follows, and the walk ends with [sys.exit(0)]
    (or with the error of a configuration that cannot be read). *)
Lemma walk_not_found recur top store rev d path pinned rest e :
  d <> 0%Z ->
  assert_path_format path = Ok tt ->
  GitDirCollection.find env gitdirs (PyStr (top ++ "/" ++ path)%string) pinned
    = Ok None ->
  exists more,
    fst (walk_submodules env gitdirs recur top store rev d
                         ((path, pinned) :: rest) e)
    = Say (Error (MsgNoGitDir (top ++ "/" ++ path)%string pinned path top
                              store rev)) :: more
    /\ nodes_of more = []
    /\ (snd (walk_submodules env gitdirs recur top store rev d
                             ((path, pinned) :: rest) e)
        = Raised (SystemExit 0)
        \/ snd (walk_submodules env gitdirs recur top store rev d
                                ((path, pinned) :: rest) e)
           = Raised ValueError).
Proof.
  intros Hd Hp Hf. cbn [walk_submodules].
  apply Z.eqb_neq in Hd. rewrite Hd, Hp, Hf. unfold not_found.
  destruct (git_config env _ (Some store)) as [c|x] eqn:Ec.
  - eexists. split; [reflexivity|]. split; [|now left].
    destruct c as [[|? ?]|]; try reflexivity.
    destruct (extract_submodule_config _ _) as [[|? ?]|]; reflexivity.
  - apply git_config_raise in Ec. subst x.
    eexists. split; [reflexivity|]. split; [reflexivity | now right].
Qed.

End Unresolved.

(** A run whose walk raises ends with the exception of the walk. *)
Lemma main_walk_raised env os fuel opt st top_rev top top_gitdir gitdirs
      its x :
  effective_format opt = Some "tar" ->
  main_setup env opt = Ok (top_rev, top, top_gitdir, gitdirs) ->
  recursively_iter_repos env gitdirs fuel top (PyStr top_gitdir) top_rev
                         (depth opt) = (its, Raised x) ->
  fst (main env os fuel opt st) = Throw x.
Proof.
  intros Hf Hs Hw.
  rewrite (main_after_setup env os opt fuel st _ _ _ _ _ _ Hf Hs Hw).
  assert (Hu : forall n, In n (nodes_of its) -> under top n).
  { intros n Hn. apply (walk_under env gitdirs fuel top (PyStr top_gitdir)
                                   top_rev (depth opt)).
    now rewrite Hw. }
  destruct (dryrun opt) eqn:Hdry.
  - rewrite (bind_return _ _ _ _ _
               (main_nodes_dryrun os opt "tar" top its Hdry Hu _ 0 st)).
    reflexivity.
  - destruct (main_nodes_real os opt "tar" top its Hdry Hu
                              (ParallelJobs.init (opt_nproc opt)) 0 st)
      as [jobs' [st1 [evs [E _]]]].
    rewrite (bind_return _ _ _ _ _ E). reflexivity.
Qed.

(** C1, as the code behaves.  When the walk meets a submodule whose
    commit is in no registered store, it prints the diagnostic and
    yields no further node, but it ends with [sys.exit(0)]: the exit
    status of the run is 0. *)
Theorem unresolved_submodule_exits_zero
        (env : Env) (os : OS) (fuel : nat) (opt : options) (st : state)
        (top_rev top top_gitdir : string) (gitdirs : GitDirCollection.t)
        (its : list item) :
  effective_format opt = Some "tar" ->
  main_setup env opt = Ok (top_rev, top, top_gitdir, gitdirs) ->
  recursively_iter_repos env gitdirs fuel top (PyStr top_gitdir) top_rev
                         (depth opt) = (its, Raised (SystemExit 0)) ->
  fst (main env os fuel opt st) = Throw (SystemExit 0)
  /\ exit_status (fst (main env os fuel opt st)) = Some 0%Z.
Proof.
  intros Hf Hs Hw.
  rewrite (main_walk_raised env os fuel opt st _ _ _ _ _ _ Hf Hs Hw).
  now split.
Qed.

(** C1 on the sample without the clones: the commit [r3] of
    [libs/foo/deep] is in no store; two jobs have been launched, the
    diagnostic is the last effect, and the exit status is 0. *)
Lemma unresolved_submodule_exits_zero_witness :
  GitDirCollection.find (Sample.env false) (Sample.gitdirs false)
                        (PyStr "/top/libs/foo/deep") "r3" = Ok None
  /\ exit_status (fst (main (Sample.env false) Sample.os 3
                            SampleRun.opt_no_lookup initial_state))
     = Some 0%Z
  /\ List.last (trace (snd (main (Sample.env false) Sample.os 3
                                 SampleRun.opt_no_lookup initial_state)))
               EvSleep
     = EvSay (Error (MsgNoGitDir "/top/libs/foo/deep" "r3" "deep"
                                 "/top/libs/foo"
                                 (PyPath "/top/.git/modules/foo") "r1")).
Proof.
  split; [vm_compute; reflexivity|]. split.
  - apply (unresolved_submodule_exits_zero
             (Sample.env false) Sample.os 3 SampleRun.opt_no_lookup
             initial_state "r0" "/top" "/top/.git" (Sample.gitdirs false)
             (fst (recursively_iter_repos (Sample.env false)
                     (Sample.gitdirs false) 3 "/top" (PyStr "/top/.git")
                     "r0" (-1)))).
    + reflexivity.
    + vm_compute. reflexivity.
    + vm_compute. reflexivity.
  - vm_compute. reflexivity.
Defined.

(* ===================================================================== *)
(** * The nodes of a walk are distinct *)
(* ===================================================================== *)

(** Two ways to cut one text: one of the two heads is a head of the
    other. *)
Lemma string_app_eq_app (p a q b : string) :
  (p ++ a = q ++ b)%string ->
  exists c, (q = p ++ c /\ a = c ++ b)%string
            \/ (p = q ++ c /\ b = c ++ a)%string.
Proof.
  revert q. induction p as [|x p IH]; intros q H.
  - exists q. left. now split.
  - destruct q as [|y q].
    + exists (String x p). right. now split.
    + simpl in H. injection H as -> H.
      destruct (IH q H) as [c [[-> ->] | [-> ->]]]; exists c;
        [left | right]; now split.
Qed.

(** What follows the root of a walk in the path of a node: nothing, or
    a slash and a relative path. *)
Lemma under_tail (top : string) (n : node) :
  under top n ->
  exists a, fst (fst n) = (top ++ a)%string
            /\ (a = "" \/ exists rel, a = ("/" ++ rel)%string).
Proof.
  intros [H | [rel H]].
  - exists "". rewrite string_app_nil_r. split; [exact H | now left].
  - exists ("/" ++ rel)%string. split; [exact H | right; now exists rel].
Qed.

(** Two entries with a node of the same path in their subtrees: the
    entries are the same, or one lies in the directory of the other. *)
Lemma same_path_entries (top p q : string) (m m' : node) :
  under (top ++ "/" ++ p)%string m ->
  under (top ++ "/" ++ q)%string m' ->
  fst (fst m) = fst (fst m') ->
  p = q \/ (exists rel, q = (p ++ "/" ++ rel)%string)
  \/ (exists rel, p = (q ++ "/" ++ rel)%string).
Proof.
  intros Hm Hm' E.
  apply under_tail in Hm. destruct Hm as [a [Ea Ha]].
  apply under_tail in Hm'. destruct Hm' as [b [Eb Hb]].
  rewrite Ea, Eb in E. rewrite !string_app_assoc in E.
  apply string_app_inv_head in E. simpl in E. injection E as E.
  destruct (string_app_eq_app p a q b E) as [c [[Hq Hc] | [Hp Hc]]].
  - destruct c as [|x c].
    + left. now rewrite string_app_nil_r in Hq.
    + right. left. destruct Ha as [-> | [rel ->]]; [discriminate|].
      simpl in Hc. injection Hc as <- _. now exists c.
  - destruct c as [|x c].
    + left. now rewrite string_app_nil_r in Hp.
    + right. right. destruct Hb as [-> | [rel ->]]; [discriminate|].
      simpl in Hc. injection Hc as <- _. now exists c.
Qed.

Lemma well_listed_tail (e : string * string) (entries : list (string * string)) :
  well_listed (e :: entries) -> well_listed entries.
Proof.
  intros [ND H]. split.
  - now inversion ND.
  - intros p q rel Hp Hq. apply H; now right.
Qed.

Section Distinct.

Variable env : Env.
Variable gitdirs : GitDirCollection.t.

Hypothesis listings :
  forall store rev entries,
    gitlinks env store rev = Some entries -> well_listed entries.

(** In a reachable tree every node lies under the root, and no two
    nodes have the same path. *)
Lemma reachable_distinct :
  (forall d n t,
      reachable env gitdirs d n t ->
      NoDup (fullpaths (preorder t))
      /\ forall m, In m (preorder t) -> under (fst (fst n)) m)
  /\
  (forall d top entries children,
      reachable_entries env gitdirs d top entries children ->
      well_listed entries ->
      NoDup (fullpaths (flat_map preorder children))
      /\ forall m, In m (flat_map preorder children) ->
                   exists p, In p (map fst entries)
                             /\ under (top ++ "/" ++ p)%string m).
Proof.
  apply reachable_mutind.
  - intros top store rev entries _. simpl. split.
    + repeat constructor. intros [].
    + intros m [<- | []]. apply under_refl.
  - intros d top store rev entries children _ Hg _ IH.
    destruct (IH (listings _ _ _ Hg)) as [ND Hu].
    cbn [preorder fullpaths map fst]. split.
    + constructor; [|exact ND].
      intros Hin. apply in_map_iff in Hin. destruct Hin as [m [Em Hm]].
      destruct (Hu m Hm) as [p [_ Hp]].
      apply under_tail in Hp. destruct Hp as [a [Ea _]].
      rewrite Ea in Em. apply (f_equal String.length) in Em.
      rewrite !string_app_length in Em. simpl in Em. lia.
    + intros m [<- | Hm]; [apply under_refl|].
      destruct (Hu m Hm) as [p [_ Hp]]. now apply under_trans with p.
  - intros d top _. simpl. split; [constructor | intros m []].
  - intros d top path pinned entries store child children _ _ _ IHc _ IHr WL.
    destruct IHc as [NDc Huc]. cbn [fst] in Huc.
    destruct (IHr (well_listed_tail _ _ WL)) as [NDr Hur].
    cbn [flat_map]. unfold fullpaths. rewrite map_app. split.
    + apply NoDup_app; [exact NDc | exact NDr |].
      intros x Hx Hx'.
      apply in_map_iff in Hx. destruct Hx as [m [Em Hm]].
      apply in_map_iff in Hx'. destruct Hx' as [m' [Em' Hm']].
      destruct (Hur m' Hm') as [q [Hq Huq]].
      destruct WL as [ND Hins]. cbn [map fst] in ND, Hins.
      destruct (same_path_entries top path q m m' (Huc m Hm) Huq)
        as [-> | [[rel ->] | [rel E]]].
      * now rewrite Em, Em'.
      * inversion ND. contradiction.
      * eapply (Hins path); [now left | right; exact Hq | reflexivity].
      * eapply (Hins q path rel); [right; exact Hq | now left | exact E].
    + intros m Hm. apply in_app_or in Hm. destruct Hm as [Hm | Hm].
      * exists path. split; [now left | now apply Huc].
      * destruct (Hur m Hm) as [p [Hp Hup]]. exists p.
        split; [now right | exact Hup].
Qed.

End Distinct.

(* ===================================================================== *)
(** * C2: the walk is the pre-order of the reachable tree *)
(* ===================================================================== *)

(** C2.  The walk yields the pre-order of the tree of repositories
    reachable within the depth: given such a tree, the walk finishes as
    soon as the fuel covers the height of the tree and its nodes are, in
    order, the root, then the whole subtree of each gitlink entry in the
    order of the listing, as many as the tree has nodes; a walk that
    finishes has yielded such a tree; for a depth [d >= 0] a fuel of
    [d + 1] is enough; when the listings are those of git trees, no path
    is yielded twice; and the commands that a real run launches are those
    of the nodes in this order, whatever the processes do. *)
Theorem walk_yields_preorder
        (env : Env) (gitdirs : GitDirCollection.t)
        (top : string) (store : pyval) (rev : string) (d : Z) :
  (forall t,
      reachable env gitdirs d (top, store, rev) t ->
      forall fuel, height t <= fuel ->
        exists its,
          recursively_iter_repos env gitdirs fuel top store rev d
            = (its, Finished)
          /\ nodes_of its = preorder t
          /\ List.length (nodes_of its) = size t)
  /\ (forall fuel its,
         recursively_iter_repos env gitdirs fuel top store rev d
           = (its, Finished) ->
         exists t, reachable env gitdirs d (top, store, rev) t
                   /\ nodes_of its = preorder t)
  /\ (forall t,
         reachable env gitdirs d (top, store, rev) t ->
         (0 <= d)%Z -> height t <= S (Z.to_nat d))
  /\ (forall t,
         reachable env gitdirs d (top, store, rev) t ->
         (forall store rev entries,
             gitlinks env store rev = Some entries -> well_listed entries) ->
         NoDup (fullpaths (preorder t)))
  /\ (forall os os' fuel opt st top_gitdir its e,
         dryrun opt = false ->
         effective_format opt = Some "tar" ->
         main_setup env opt = Ok (rev, top, top_gitdir, gitdirs) ->
         store = PyStr top_gitdir ->
         d = depth opt ->
         recursively_iter_repos env gitdirs fuel top store rev d = (its, e) ->
         popens (trace (snd (main env os fuel opt st)))
         = popens (trace st) ++ node_cmds opt "tar" top 0 (nodes_of its)
         /\ popens (trace (snd (main env os fuel opt st)))
            = popens (trace (snd (main env os' fuel opt st)))).
Proof.
  split; [|split; [|split; [|split]]].
  - intros t Ht fuel Hf.
    destruct (proj1 (reachable_walk env gitdirs) _ _ _ Ht fuel Hf)
      as [its [E N]].
    exists its. repeat split; [exact E | exact N|].
    rewrite N. apply preorder_length.
  - intros fuel its H.
    destruct (walk_finished env gitdirs fuel _ _ _ _ _ H) as [t [Ht [N _]]].
    now exists t.
  - intros t Ht. exact (proj1 (reachable_height env gitdirs) _ _ _ Ht).
  - intros t Ht Hl.
    exact (proj1 (proj1 (reachable_distinct env gitdirs Hl) _ _ _ Ht)).
  - intros os os' fuel opt st top_gitdir its e Hdry Hf Hs -> -> Hw.
    rewrite (launched_commands env os fuel opt st _ _ _ _ _ _ Hdry Hf Hs Hw).
    rewrite (launched_commands env os' fuel opt st _ _ _ _ _ _ Hdry Hf Hs Hw).
    now split.
Qed.

Lemma sample_reachable :
  reachable (Sample.env true) (Sample.gitdirs true) (-1)
            SampleTree.top SampleTree.all.
Proof.
  unfold SampleTree.all, SampleTree.top.
  eapply reachable_recurse; [discriminate | vm_compute; reflexivity |].
  eapply reachable_cons; [reflexivity | vm_compute; reflexivity | |].
  { eapply reachable_recurse; [discriminate | vm_compute; reflexivity |].
    eapply reachable_cons; [reflexivity | vm_compute; reflexivity | |].
    - eapply reachable_recurse; [discriminate | vm_compute; reflexivity |].
      constructor.
    - constructor. }
  eapply reachable_cons; [reflexivity | vm_compute; reflexivity | |].
  - eapply reachable_recurse; [discriminate | vm_compute; reflexivity |].
    constructor.
  - constructor.
Defined.

(** The answers of the sample come from its tables. *)
Lemma sample_answer {A} (table : list (list string * A)) (default : A)
      (cmd : list string) :
  Sample.answer table default cmd = default
  \/ In (Sample.answer table default cmd) (map snd table).
Proof.
  induction table as [|[c a] table IH]; simpl; [now left|].
  destruct (Sample.cmd_eqb c cmd); [right; now left|].
  destruct IH as [IH | IH]; [now left | right; now right].
Defined.

Lemma not_inside (p q rel : string) :
  String.prefix (p ++ "/") q = false -> q <> (p ++ "/" ++ rel)%string.
Proof.
  intros H ->. rewrite <- string_app_assoc in H.
  rewrite prefix_app in H. discriminate.
Defined.

(** The listings of the sample are well formed. *)
Lemma sample_listings (store : pyval) (rev : string)
      (entries : list (string * string)) :
  gitlinks (Sample.env true) store rev = Some entries -> well_listed entries.
Proof.
  unfold gitlinks, iter_git_submodules_at_rev.
  rewrite git_gitdir_checked. unfold run. cbn [Sample.env run_lines].
  match goal with
  | |- context [Sample.answer Sample.lines ?d ?c] =>
      destruct (sample_answer Sample.lines d c) as [-> | Hin];
      [discriminate|];
      destruct (Sample.answer Sample.lines d c) as [rc lines]
  end.
  cbn [Sample.lines map snd Sample.ls] in Hin.
  assert (Hnil : well_listed []).
  { split; [constructor | intros p q rel []]. }
  destruct Hin as [E | [E | [E | [E | [E | [E | []]]]]]];
    injection E as <- <-; cbn; intros H; try discriminate;
    injection H as <-; try exact Hnil.
  - split.
    + repeat constructor; simpl; intuition discriminate.
    + intros p q rel [<- | [<- | []]] [<- | [<- | []]];
        apply not_inside; reflexivity.
  - split.
    + repeat constructor; simpl; intuition discriminate.
    + intros p q rel [<- | []] [<- | []]; apply not_inside; reflexivity.
Defined.

(** C2 on the sample: the four repositories, in pre-order, with four
    distinct paths. *)
Lemma walk_yields_preorder_witness :
  (exists its,
      recursively_iter_repos (Sample.env true) (Sample.gitdirs true) 3
                             "/top" (PyStr "/top/.git") "r0" (-1)
        = (its, Finished)
      /\ nodes_of its =
         [SampleTree.top; SampleTree.foo; SampleTree.deep; SampleTree.bar])
  /\ NoDup (fullpaths (preorder SampleTree.all)).
Proof.
  destruct (walk_yields_preorder (Sample.env true) (Sample.gitdirs true)
                                 "/top" (PyStr "/top/.git") "r0" (-1))
    as [H [_ [_ [Hd _]]]].
  split.
  - destruct (H SampleTree.all sample_reachable 3) as [its [E [N _]]].
    + vm_compute. lia.
    + exists its. split; [exact E | exact N].
  - exact (Hd SampleTree.all sample_reachable sample_listings).
Defined.

(* ===================================================================== *)
(** * More on the registry: what [add] keeps, what [find] finds *)
(* ===================================================================== *)

Section RegistryGrowth.

Variable env : Env.

Lemma add_stores_grow (reg : GitDirCollection.t) (hint gitdir : pyval)
      (k : string) :
  exists more,
    stores_under (GitDirCollection.add env reg hint gitdir) k
    = stores_under reg k ++ more.
Proof.
  destruct (string_dec (py_str hint) k) as [<- | N].
  - rewrite add_stores_same.
    destruct (py_in gitdir _).
    + exists []. now rewrite app_nil_r.
    + now exists [py_Path env gitdir].
  - rewrite (add_stores_other env reg hint gitdir k N).
    exists []. now rewrite app_nil_r.
Qed.

Lemma add_keys_grow (reg : GitDirCollection.t) (hint gitdir : pyval) :
  exists more,
    PyDict.keys (GitDirCollection.add env reg hint gitdir)
    = PyDict.keys reg ++ more.
Proof.
  rewrite add_keys. destruct (PyDict.get reg (py_str hint)).
  - exists []. now rewrite app_nil_r.
  - now exists [py_str hint].
Qed.

Lemma add_all_stores_grow (calls : list (pyval * pyval)) :
  forall (reg : GitDirCollection.t) (k : string),
    exists more,
      stores_under (add_all env reg calls) k = stores_under reg k ++ more.
Proof.
  induction calls as [|[h g] calls IH]; intros reg k; simpl.
  - exists []. now rewrite app_nil_r.
  - destruct (IH (GitDirCollection.add env reg h g) k) as [m1 E1].
    destruct (add_stores_grow reg h g k) as [m2 E2].
    exists (m2 ++ m1). now rewrite E1, E2, app_assoc.
Qed.

Lemma add_all_keys_grow (calls : list (pyval * pyval)) :
  forall reg : GitDirCollection.t,
    exists more,
      PyDict.keys (add_all env reg calls) = PyDict.keys reg ++ more.
Proof.
  induction calls as [|[h g] calls IH]; intros reg; simpl.
  - exists []. now rewrite app_nil_r.
  - destruct (IH (GitDirCollection.add env reg h g)) as [m1 E1].
    destruct (add_keys_grow reg h g) as [m2 E2].
    exists (m2 ++ m1). now rewrite E1, E2, app_assoc.
Qed.

(** After [add], the handle is among the stores of its hint. *)
Lemma add_registers (reg : GitDirCollection.t) (hint gitdir : pyval) :
  holds_paths reg ->
  In (py_Path env gitdir)
     (stores_under (GitDirCollection.add env reg hint gitdir) (py_str hint)).
Proof.
  intros H. rewrite add_stores_same.
  destruct (py_in gitdir (stores_under reg (py_str hint))) eqn:E.
  - apply py_in_In in E.
    destruct (stores_under_paths reg (py_str hint) H _ E) as [p ->].
    exact E.
  - apply in_or_app. right. now left.
Qed.

Lemma add_all_registers (calls : list (pyval * pyval)) :
  forall (reg : GitDirCollection.t) (hint gitdir : pyval),
    holds_paths reg ->
    In (hint, gitdir) calls ->
    In (py_Path env gitdir)
       (stores_under (add_all env reg calls) (py_str hint)).
Proof.
  induction calls as [|[h g] calls IH]; intros reg hint gitdir H Hin;
    [contradiction|].
  simpl. destruct Hin as [E | Hin].
  - injection E as -> ->.
    destruct (add_all_stores_grow calls (GitDirCollection.add env reg hint
                                                              gitdir)
                                  (py_str hint)) as [more ->].
    apply in_or_app. left. now apply add_registers.
  - apply IH; [|exact Hin]. now apply holds_paths_add.
Qed.

(** X11.  Registration only appends.  After any sequence of calls to
    [add], the hints registered before are still the first hints, in the
    same order, and under every hint the stores registered before are
    still the first stores, in the same order: [find] keeps trying them
    first. *)
Theorem add_only_appends
        (reg : GitDirCollection.t) (calls : list (pyval * pyval)) :
  (exists hints,
      PyDict.keys (add_all env reg calls) = PyDict.keys reg ++ hints)
  /\ (forall hint, exists stores,
         stores_under (add_all env reg calls) hint
         = stores_under reg hint ++ stores).
Proof.
  split; [apply add_all_keys_grow|].
  intros hint. apply add_all_stores_grow.
Qed.

(** X12.  A registered store is never overlooked.  When a store that
    was given to [add] holds the commit, [find] returns a store that
    holds the commit, whatever the hint it is asked with. *)
Theorem registered_store_is_found
        (calls : list (pyval * pyval)) (hint gitdir asked : pyval)
        (rev : string) :
  let reg := add_all env GitDirCollection.init calls in
  In (hint, gitdir) calls ->
  contains_commit env rev (py_Path env gitdir) = true ->
  (forall g, In g (all_stores reg) -> answers_exactly env rev g) ->
  exists store,
    GitDirCollection.find env reg asked rev = Ok (Some store)
    /\ In store (all_stores reg)
    /\ contains_commit env rev store = true.
Proof.
  intros reg Hin Hc Ha.
  rewrite (find_is_find_spec env reg asked rev Ha). unfold find_spec.
  destruct (List.find (contains_commit env rev)
                      (stores_under reg (py_str asked))) as [s|] eqn:E.
  - apply find_some in E. destruct E as [Hs Hcs].
    exists s. split; [reflexivity|]. split; [|exact Hcs].
    now apply stores_under_all with (py_str asked).
  - destruct (List.find (contains_commit env rev) (all_stores reg))
      as [s|] eqn:E'.
    + apply find_some in E'. destruct E' as [Hs Hcs].
      exists s. now repeat split.
    + exfalso.
      assert (Hreg : In (py_Path env gitdir) (all_stores reg)).
      { apply stores_under_all with (py_str hint).
        apply add_all_registers; [apply holds_paths_init | exact Hin]. }
      rewrite (find_none _ _ E' _ Hreg) in Hc. discriminate.
Qed.

End RegistryGrowth.

(** X12 on the sample: the clone given by [--lookup] is found when the
    walk asks under the path of the submodule. *)
Lemma registered_store_is_found_witness :
  exists store,
    GitDirCollection.find (Sample.env true) (Sample.gitdirs true)
                          (PyStr "/top/old/bar") "r2" = Ok (Some store)
    /\ In store (all_stores (Sample.gitdirs true))
    /\ contains_commit (Sample.env true) "r2" store = true.
Proof.
  apply (registered_store_is_found (Sample.env true)
           [ (PyStr "/top", PyStr "/top/.git");
             (PyPath "/top/libs/foo", PyPath "/top/.git/modules/foo");
             (PyStr "--lookup", PyStr "/backup/bar.git");
             (PyStr "--lookup", PyStr "/backup/deep.git") ]
           (PyStr "--lookup") (PyStr "/backup/bar.git")
           (PyStr "/top/old/bar") "r2").
  - right. right. left. reflexivity.
  - vm_compute. reflexivity.
  - intros g Hg. vm_compute in Hg.
    destruct Hg as [<- | [<- | [<- | [<- | []]]]]; vm_compute;
      intros; congruence.
Defined.

(* ===================================================================== *)
(** * What git prints, read back: configuration and listings *)
(* ===================================================================== *)

Lemma dict_get_none_keys {V} (d : PyDict.t V) (k : string) :
  PyDict.get d k = None -> ~ In k (PyDict.keys d).
Proof.
  unfold PyDict.keys. induction d as [|[k' v'] d IH]; simpl; [tauto|].
  destruct (k' =? k) eqn:E; [discriminate|].
  intros H [E' | Hin]; [|now apply IH].
  subst k'. now rewrite String.eqb_refl in E.
Qed.

Lemma dict_set_keys_NoDup {V} (d : PyDict.t V) (k : string) (v : V) :
  NoDup (PyDict.keys d) -> NoDup (PyDict.keys (PyDict.set d k v)).
Proof.
  intros H. rewrite dict_keys_set.
  destruct (PyDict.get d k) eqn:E; [exact H|].
  apply NoDup_app; [exact H | repeat constructor; intros [] |].
  intros x Hx [Ex | []]. rewrite <- Ex in Hx.
  now apply (dict_get_none_keys d k).
Qed.

Lemma dict_get_set {V} (d : PyDict.t V) (k k' : string) (v : V) :
  PyDict.get (PyDict.set d k v) k'
  = if (k =? k') then Some v else PyDict.get d k'.
Proof.
  destruct (k =? k') eqn:E.
  - apply String.eqb_eq in E. subst. apply dict_get_set_same.
  - apply String.eqb_neq in E. now apply dict_get_set_other.
Qed.

(** The loop of [git_config] on lines that all have a [=]. *)
Lemma config_lines_assignments (kvs : list (string * string)) :
  forall dic,
    exists dic',
      config_lines dic (map config_line kvs) = Ok dic'
      /\ (forall k, PyDict.get dic' k
                    = match last_value kvs k with
                      | Some v => Some v
                      | None => PyDict.get dic k
                      end)
      /\ (NoDup (PyDict.keys dic) -> NoDup (PyDict.keys dic')).
Proof.
  induction kvs as [|[k' v] kvs IH]; intros dic.
  - exists dic. now repeat split.
  - cbn [map config_line fst snd config_lines].
    destruct (IH (PyDict.set dic k' v)) as [dic' [E [Hg Hn]]].
    exists dic'. split; [exact E|]. split.
    + intros k. rewrite Hg. cbn [last_value].
      destruct (last_value kvs k); [reflexivity|].
      rewrite dict_get_set. now destruct (k' =? k).
    + intros H. apply Hn. now apply dict_set_keys_NoDup.
Qed.

(** The loop of [git_config] stops at the first line without [=]. *)
Lemma config_lines_malformed (kvs : list (string * string))
      (l : list string) (rest : list (list string)) :
  List.length l <> 2 ->
  forall dic,
    config_lines dic (map config_line kvs ++ l :: rest) = Raise ValueError.
Proof.
  intros Hl. induction kvs as [|[k' v] kvs IH]; intros dic.
  - cbn [map app config_lines].
    destruct l as [|a [|b [|c l]]]; try reflexivity. now elim Hl.
  - cbn [map app config_line fst snd config_lines]. apply IH.
Qed.

Section ConfigFacts.

Variable env : Env.

Lemma git_config_cmd (blob : string) (g : pyval) :
  py_truthy g = true ->
  PyString.truthy blob = true ->
  git_config env blob (Some g)
  = let '(retcode, stdout) :=
      run_lines env ["git"; "--git-dir"; py_str g;
                     "config"; "--blob"; blob; "--list"] in
    if negb (retcode =? 0)%Z then Ok None
    else (dic <- config_lines [] stdout ;; Ok (Some dic))%result.
Proof.
  intros Hg Hb. unfold git_config. rewrite Hb, git_gitdir, Hg.
  cbn [app rbind]. reflexivity.
Qed.

(** X13.  [git_config] reads the assignments printed by
    [git config --list] into a dictionary: every key once, in the order
    of its first assignment, with the value of its last assignment. *)
Theorem git_config_last_assignment_wins
        (blob : string) (g : pyval) (kvs : list (string * string)) :
  py_truthy g = true ->
  PyString.truthy blob = true ->
  run_lines env ["git"; "--git-dir"; py_str g;
                 "config"; "--blob"; blob; "--list"]
  = (0%Z, map config_line kvs) ->
  exists dic,
    git_config env blob (Some g) = Ok (Some dic)
    /\ (forall k, PyDict.get dic k = last_value kvs k)
    /\ NoDup (PyDict.keys dic).
Proof.
  intros Hg Hb Hrun. rewrite (git_config_cmd blob g Hg Hb), Hrun.
  cbn [Z.eqb negb].
  destruct (config_lines_assignments kvs []) as [dic [E [Hget Hn]]].
  rewrite E. cbn [rbind]. exists dic. split; [reflexivity|]. split.
  - intros k. rewrite Hget. now destruct (last_value kvs k).
  - apply Hn. constructor.
Qed.

(** X14.  A line of [git config --list] without [=], which is how git
    prints a key that has no value, makes [git_config] raise
    [ValueError], whatever comes before and after it. *)
Theorem git_config_line_without_value
        (blob : string) (g : pyval) (kvs : list (string * string))
        (l : list string) (rest : list (list string)) :
  py_truthy g = true ->
  PyString.truthy blob = true ->
  List.length l <> 2 ->
  run_lines env ["git"; "--git-dir"; py_str g;
                 "config"; "--blob"; blob; "--list"]
  = (0%Z, map config_line kvs ++ l :: rest) ->
  git_config env blob (Some g) = Raise ValueError.
Proof.
  intros Hg Hb Hl Hrun. rewrite (git_config_cmd blob g Hg Hb), Hrun.
  cbn [Z.eqb negb]. now rewrite (config_lines_malformed kvs l rest Hl).
Qed.

End ConfigFacts.

(** X13 on the [.gitmodules] of the sample. *)
Lemma git_config_last_assignment_wins_witness :
  exists dic,
    git_config (Sample.env true) "r0:.gitmodules" (Some (PyStr "/top/.git"))
    = Ok (Some dic)
    /\ (forall k,
           PyDict.get dic k
           = last_value [ ("submodule.foo.path", "libs/foo");
                          ("submodule.foo.url", "https://example.org/foo");
                          ("submodule.bar.path", "old/bar");
                          ("submodule.bar.url", "https://example.org/bar") ]
                        k)
    /\ NoDup (PyDict.keys dic).
Proof.
  apply (git_config_last_assignment_wins (Sample.env true)).
  - reflexivity.
  - reflexivity.
  - vm_compute. reflexivity.
Defined.

(** X14 on a configuration with a key without value. *)
Lemma git_config_line_without_value_witness :
  git_config (SampleBroken.constant
                0 [ ["submodule.foo.path"; "libs/foo"];
                    ["submodule.foo.fetchrecursesubmodules"];
                    ["submodule.foo.url"; "https://example.org/foo"] ])
             "r0:.gitmodules" (Some (PyStr "/top/.git"))
  = Raise ValueError.
Proof.
  apply (git_config_line_without_value
           (SampleBroken.constant
              0 [ ["submodule.foo.path"; "libs/foo"];
                  ["submodule.foo.fetchrecursesubmodules"];
                  ["submodule.foo.url"; "https://example.org/foo"] ])
           "r0:.gitmodules" (PyStr "/top/.git")
           [ ("submodule.foo.path", "libs/foo") ]
           ["submodule.foo.fetchrecursesubmodules"]
           [ ["submodule.foo.url"; "https://example.org/foo"] ]).
  - reflexivity.
  - reflexivity.
  - simpl. lia.
  - reflexivity.
Defined.

(** The first loop of [extract_submodule_config] finds nothing exactly
    when no entry matches. *)
Lemma submodule_name_none (items : list (string * string)) (path : string) :
  submodule_name items path = None
  <-> (forall key value,
          In (key, value) items ->
          PyString.startswith key "submodule." = true ->
          PyString.endswith key ".path" = true ->
          value <> path).
Proof.
  induction items as [|[k v] items IH]; cbn [submodule_name].
  - split; [intros _ key value [] | reflexivity].
  - destruct (PyString.startswith k "submodule.") eqn:Es; cbn [negb].
    2:{ rewrite IH. split.
        - intros H key value [E | Hin]; [|now apply H].
          injection E as <- <-. now rewrite Es.
        - intros H key value Hin. apply H. now right. }
    destruct (PyString.endswith k ".path") eqn:Ee; cbn [negb].
    2:{ rewrite IH. split.
        - intros H key value [E | Hin]; [|now apply H].
          injection E as <- <-. now rewrite Ee.
        - intros H key value Hin. apply H. now right. }
    destruct (v =? path) eqn:Ev; cbn [negb].
    + split; [discriminate|]. intros H. exfalso.
      apply String.eqb_eq in Ev.
      now apply (H k v (or_introl eq_refl) Es Ee).
    + rewrite IH. split.
      * intros H key value [E | Hin]; [|now apply H].
        injection E as <- <-. intros _ _. now apply String.eqb_neq.
      * intros H key value Hin. apply H. now right.
Qed.

(** The first loop of [extract_submodule_config] takes the name from an
    entry that matches. *)
Lemma submodule_name_some (items : list (string * string))
      (path name : string) :
  submodule_name items path = Some name ->
  exists key,
    In (key, path) items
    /\ PyString.startswith key "submodule." = true
    /\ PyString.endswith key ".path" = true
    /\ name = PyString.slice 10 5 key.
Proof.
  induction items as [|[k v] items IH]; cbn [submodule_name]; [discriminate|].
  destruct (PyString.startswith k "submodule.") eqn:Es; cbn [negb].
  2:{ intros H. destruct (IH H) as [key [Hin Hk]].
      exists key. split; [now right | exact Hk]. }
  destruct (PyString.endswith k ".path") eqn:Ee; cbn [negb].
  2:{ intros H. destruct (IH H) as [key [Hin Hk]].
      exists key. split; [now right | exact Hk]. }
  destruct (v =? path) eqn:Ev; cbn [negb].
  - intros H. injection H as <-. apply String.eqb_eq in Ev. subst v.
    exists k. split; [now left|]. now repeat split.
  - intros H. destruct (IH H) as [key [Hin Hk]].
    exists key. split; [now right | exact Hk].
Qed.

Lemma startswith_split (s p : string) :
  PyString.startswith s p = true ->
  s = (p ++ PyString.drop (String.length p) s)%string.
Proof.
  unfold PyString.startswith. revert s.
  induction p as [|c p IH]; intros s H; [reflexivity|].
  destruct s as [|d s]; [discriminate|]. simpl in H.
  destruct (ascii_dec c d) as [<- | _]; [|discriminate].
  simpl. f_equal. now apply IH.
Qed.

(** The second loop of [extract_submodule_config]: the entry under [k]
    is the last one of the configuration under [dulekey ++ k]. *)
Lemma submodule_keys_get (dulekey : string) (items : list (string * string)) :
  forall config k,
    PyDict.get (submodule_keys config dulekey items) k
    = match last_value items (dulekey ++ k) with
      | Some v => Some v
      | None => PyDict.get config k
      end.
Proof.
  induction items as [|[key v] items IH]; intros config k;
    cbn [submodule_keys last_value]; [reflexivity|].
  destruct (PyString.startswith key dulekey) eqn:Es.
  - rewrite IH. destruct (last_value items (dulekey ++ k)); [reflexivity|].
    rewrite dict_get_set.
    pose proof (startswith_split key dulekey Es) as Hk.
    destruct (PyString.drop (String.length dulekey) key =? k) eqn:E.
    + apply String.eqb_eq in E. rewrite E in Hk. rewrite <- Hk.
      now rewrite String.eqb_refl.
    + destruct (key =? dulekey ++ k)%string eqn:E'; [|reflexivity].
      apply String.eqb_eq in E'. rewrite E' in E.
      rewrite drop_app, String.eqb_refl in E. discriminate.
  - rewrite IH. destruct (last_value items (dulekey ++ k)); [reflexivity|].
    destruct (key =? dulekey ++ k)%string eqn:E'; [|reflexivity].
    apply String.eqb_eq in E'. subst key.
    now rewrite startswith_app in Es.
Qed.

(** X15.  [extract_submodule_config] answers [None] exactly when the
    configuration has no entry [submodule.<name>.path] whose value is the
    path asked for. *)
Theorem extract_submodule_config_none
        (configs : PyDict.t string) (path : string) :
  extract_submodule_config configs path = None
  <-> (forall key value,
          In (key, value) (PyDict.items configs) ->
          PyString.startswith key "submodule." = true ->
          PyString.endswith key ".path" = true ->
          value <> path).
Proof.
  rewrite <- submodule_name_none. unfold extract_submodule_config.
  destruct (submodule_name (PyDict.items configs) path);
    split; intros H; (discriminate || reflexivity).
Qed.

(** X16.  What [extract_submodule_config] returns for a path: the name
    is cut out of a key [submodule.<name>.path] whose value is the path,
    and the entry under [k] is the value of [submodule.<name>.k] in the
    configuration (the last one, should the key come twice); [name] is
    the name itself unless the configuration has a
    [submodule.<name>.name]. *)
Theorem extract_submodule_config_entries
        (configs config : PyDict.t string) (path : string) :
  extract_submodule_config configs path = Some config ->
  exists key,
    In (key, path) (PyDict.items configs)
    /\ PyString.startswith key "submodule." = true
    /\ PyString.endswith key ".path" = true
    /\ let name := PyString.slice 10 5 key in
       forall k,
         PyDict.get config k
         = match last_value (PyDict.items configs)
                            ("submodule." ++ name ++ "." ++ k) with
           | Some v => Some v
           | None => if (k =? "name") then Some name else None
           end.
Proof.
  unfold extract_submodule_config.
  destruct (submodule_name (PyDict.items configs) path) as [name|] eqn:E;
    [|discriminate].
  intros H. injection H as <-.
  destruct (submodule_name_some _ _ _ E) as [key [Hin [Hs [He Hn]]]].
  exists key. repeat split; try assumption.
  cbv zeta. rewrite <- Hn. intros k.
  rewrite submodule_keys_get.
  match goal with
  | |- match last_value _ ?x with _ => _ end = _ =>
      replace x with ("submodule." ++ name ++ "." ++ k)%string
        by (simpl; now rewrite string_app_assoc)
  end.
  destruct (last_value _ _); [reflexivity|].
  cbn [PyDict.set PyDict.get]. rewrite String.eqb_sym.
  now destruct (k =? "name").
Qed.

(** X16 on the [.gitmodules] of the sample. *)
Lemma extract_submodule_config_entries_witness :
  exists config,
    extract_submodule_config
      [ ("submodule.foo.path", "libs/foo");
        ("submodule.foo.url", "https://example.org/foo");
        ("submodule.bar.path", "old/bar");
        ("submodule.bar.url", "https://example.org/bar") ] "old/bar"
    = Some config
    /\ PyDict.get config "url" = Some "https://example.org/bar"
    /\ PyDict.get config "name" = Some "bar".
Proof.
  exists [ ("name", "bar"); ("path", "old/bar");
           ("url", "https://example.org/bar") ].
  split; [vm_compute; reflexivity|].
  destruct (extract_submodule_config_entries
              [ ("submodule.foo.path", "libs/foo");
                ("submodule.foo.url", "https://example.org/foo");
                ("submodule.bar.path", "old/bar");
                ("submodule.bar.url", "https://example.org/bar") ]
              [ ("name", "bar"); ("path", "old/bar");
                ("url", "https://example.org/bar") ]
              "old/bar") as [key [Hin [_ [_ H]]]].
  - vm_compute. reflexivity.
  - assert (Hk : key = "submodule.bar.path").
    { destruct Hin as [E | [E | [E | [E | []]]]]; now inversion E. }
    subst key. split; rewrite H; vm_compute; reflexivity.
Defined.

(* ===================================================================== *)
(** * Listings: the gitlinks of a revision, the submodules checked out *)
(* ===================================================================== *)

Lemma ls_tree_commits_entries (entries : list ls_entry) :
  ls_tree_commits (map ls_line entries) = (gitlink_entries entries, None).
Proof.
  induction entries as [|[[[mode typ] obj] path] entries IH]; [reflexivity|].
  cbn [map ls_line ls_tree_commits gitlink_entries]. rewrite IH.
  now destruct (typ =? "commit").
Qed.

Lemma ls_tree_commits_malformed (entries : list ls_entry) (l : list string)
      (rest : list (list string)) :
  List.length l <> 4 ->
  ls_tree_commits (map ls_line entries ++ l :: rest)
  = (gitlink_entries entries, Some ValueError).
Proof.
  intros Hl.
  induction entries as [|[[[mode typ] obj] path] entries IH].
  - cbn [map app ls_tree_commits gitlink_entries].
    destruct l as [|a [|b [|c [|d [|e l]]]]]; try reflexivity. now elim Hl.
  - cbn [map app ls_line ls_tree_commits gitlink_entries]. rewrite IH.
    now destruct (typ =? "commit").
Qed.

(** X17.  [iter_git_submodules_at_rev] yields the entries of type
    [commit] of [git ls-tree], with path and commit, in the order of the
    listing, and nothing else.  A line with fewer than four fields ends
    it with [ValueError], after the entries before that line. *)
Theorem listing_yields_the_gitlinks
        (env : Env) (g : pyval) (rev : string) (entries : list ls_entry)
        (tail : list (list string)) :
  py_truthy g = true ->
  run_lines env ["git"; "--git-dir"; py_str g;
                 "ls-tree"; "-r"; "--full-tree"; rev]
  = (0%Z, map ls_line entries ++ tail) ->
  match tail with
  | [] => True
  | l :: _ => List.length l <> 4
  end ->
  iter_git_submodules_at_rev env g rev
  = (gitlink_entries entries,
     match tail with
     | [] => None
     | _ :: _ => Some ValueError
     end).
Proof.
  intros Hg Hrun Htail. unfold iter_git_submodules_at_rev.
  rewrite git_gitdir_checked, Hg. unfold run. cbn [app]. rewrite Hrun.
  cbn [Z.eqb negb andb]. destruct tail as [|l rest].
  - rewrite app_nil_r. apply ls_tree_commits_entries.
  - now apply ls_tree_commits_malformed.
Qed.

(** X17 on the sample: the two gitlinks of the top revision. *)
Lemma listing_yields_the_gitlinks_witness :
  iter_git_submodules_at_rev (Sample.env true) (PyStr "/top/.git") "r0"
  = ([("libs/foo", "r1"); ("old/bar", "r2")], None).
Proof.
  apply (listing_yields_the_gitlinks
           (Sample.env true) (PyStr "/top/.git") "r0"
           [ ("100644", "blob", "b0", "README");
             ("160000", "commit", "r1", "libs/foo");
             ("160000", "commit", "r2", "old/bar") ]
           []).
  - reflexivity.
  - vm_compute. reflexivity.
  - exact I.
Defined.

Section CurrentSubmodulesFacts.

Variable env : Env.

(** X18.  The git-dir of every pair that
    [iter_current_submodules_gitdirs] yields is an existing directory
    with an absolute path, and both members of the pair are [Path]
    objects: these are the handles that [main] registers with a [Path],
    for which [add] registers a store once. *)
Theorem current_submodules_are_checked (pwd : option string) :
  Forall (fun pair : pyval * pyval =>
            is_dir env (py_str (snd pair)) = true
            /\ PyString.startswith (py_str (snd pair)) "/" = true
            /\ (exists p, fst pair = PyPath p)
            /\ (exists p, snd pair = PyPath p))
         (fst (iter_current_submodules_gitdirs env pwd)).
Proof.
  unfold iter_current_submodules_gitdirs.
  destruct (git _ _ _ _ _) as [[rc stdout]|e]; [|constructor].
  induction stdout as [|l stdout IH]; [constructor|].
  cbn [foreach_gitdirs].
  destruct l as [|name [|rel_path [|parent [|gitdir [|x l]]]]];
    try constructor.
  destruct (PyString.last parent) as [c|]; [|constructor].
  destruct (c =? "/")%char; [constructor|].
  destruct (PyString.first rel_path) as [d|]; [|constructor].
  destruct (String d "" =? _); [constructor|].
  destruct (is_dir env _) eqn:Ed; cbn [negb]; [|constructor].
  destruct (PyString.startswith _ "/") eqn:Ea; cbn [negb]; [|constructor].
  destruct (foreach_gitdirs env stdout) as [more e].
  cbn [fst] in *. constructor; [|exact IH].
  cbn [fst snd py_Path]. cbn [py_Path] in Ed, Ea.
  repeat split; eauto.
Qed.

Lemma first_truthy (s : string) :
  PyString.truthy s = true -> exists c, PyString.first s = Some c.
Proof. destruct s as [|c s]; [discriminate|]. now exists c. Qed.

Lemma foreach_gitdirs_accepted (entries : list foreach_entry) :
  forallb (foreach_accepted env) entries = true ->
  foreach_gitdirs env (map foreach_line entries)
  = (map (foreach_pair env) entries, None).
Proof.
  induction entries as [|[[[name rel_path] parent] gitdir] entries IH];
    [reflexivity|].
  cbn [forallb foreach_accepted]. intros H.
  apply andb_prop in H. destruct H as [H Hrest].
  apply andb_prop in H. destruct H as [H Habs].
  apply andb_prop in H. destruct H as [H Hdir].
  apply andb_prop in H. destruct H as [Hparent Hrel].
  cbn [map foreach_line foreach_gitdirs foreach_pair py_Path py_str].
  destruct (PyString.last parent) as [c|]; [|discriminate].
  apply negb_true_iff in Hparent. rewrite Hparent.
  destruct (first_truthy rel_path Hrel) as [d ->].
  cbn [String.eqb]. rewrite Hdir, Habs. cbn [negb].
  rewrite (IH Hrest).
  destruct (Ascii.eqb d "/"); reflexivity.
Qed.

(** X19.  [iter_current_submodules_gitdirs] yields one pair for every
    line of [git submodule foreach], in order, as long as each line
    passes the checks that can fail: the top level does not end with a
    slash, the path is not empty, the git-dir is an existing directory
    with an absolute path.  The check on the first character of the path
    rejects nothing: a path that starts with a slash is yielded like any
    other. *)
Theorem current_submodules_all_yielded
        (pwd : string) (entries : list foreach_entry) :
  PyString.truthy pwd = true ->
  run_lines env
            ["git"; "-C"; pwd; "submodule"; "foreach"; "-q"; "--recursive";
             "echo $name $sm_path $toplevel $(git rev-parse --absolute-git-dir)"]
  = (0%Z, map foreach_line entries) ->
  forallb (foreach_accepted env) entries = true ->
  iter_current_submodules_gitdirs env (Some pwd)
  = (map (foreach_pair env) entries, None).
Proof.
  intros Hpwd Hrun Hok. unfold iter_current_submodules_gitdirs, git.
  rewrite Hpwd. cbn [opt_truthy app]. unfold run. rewrite Hrun.
  cbn [Z.eqb negb andb]. now apply foreach_gitdirs_accepted.
Qed.

End CurrentSubmodulesFacts.

(** X19 on a listing whose second path starts with a slash. *)
Lemma current_submodules_all_yielded_witness :
  let listing :=
    iter_current_submodules_gitdirs
      (SampleBroken.constant
         0 [ ["foo"; "libs/foo"; "/top"; "/top/.git/modules/foo"];
             ["bar"; "/old/bar"; "/top"; "/top/.git/modules/bar"] ])
      (Some "/top") in
  snd listing = None
  /\ map snd (fst listing)
     = [PyPath "/top/.git/modules/foo"; PyPath "/top/.git/modules/bar"].
Proof.
  cbv zeta.
  rewrite (current_submodules_all_yielded
             (SampleBroken.constant
                0 [ ["foo"; "libs/foo"; "/top"; "/top/.git/modules/foo"];
                    ["bar"; "/old/bar"; "/top"; "/top/.git/modules/bar"] ])
             "/top"
             [ ("foo", "libs/foo", "/top", "/top/.git/modules/foo");
               ("bar", "/old/bar", "/top", "/top/.git/modules/bar") ]
             eq_refl eq_refl eq_refl).
  split; reflexivity.
Defined.

(* ===================================================================== *)
(** * More on the walk: its recursion is bounded by the depth *)
(* ===================================================================== *)

Section WalkFuel.

Variable env : Env.
Variable gitdirs : GitDirCollection.t.

Lemma not_found_raised top store rev path pinned fullpath :
  exists x, snd (not_found env top store rev path pinned fullpath) = Raised x.
Proof.
  unfold not_found. destruct (git_config env _ _) as [c|x].
  - now exists (SystemExit 0).
  - now exists x.
Qed.

(** The loop over the entries runs out of fuel only if a recursive call
    does. *)
Lemma walk_entries_fuel recur top store rev d entries e :
  (forall t s r, snd (recur t s r (d - 1)%Z) <> OutOfFuel) ->
  snd (walk_submodules env gitdirs recur top store rev d entries e)
  <> OutOfFuel.
Proof.
  intros Hrec. induction entries as [|[path pinned] entries IH];
    cbn [walk_submodules].
  - destruct e; simpl; discriminate.
  - destruct (d =? 0)%Z.
    + destruct (walk_submodules _ _ _ _ _ _ _ entries e). exact IH.
    + destruct (assert_path_format path); [|simpl; discriminate].
      destruct (GitDirCollection.find env gitdirs _ pinned) as [[sub|]|x].
      * specialize (Hrec (top ++ "/" ++ path)%string sub pinned).
        destruct (recur _ sub pinned (d - 1)%Z) as [its1 e1].
        destruct (walk_submodules _ _ _ _ _ _ _ entries e) as [its2 e2].
        destruct e1; simpl in *; [exact IH | discriminate | exact Hrec].
      * destruct (not_found_raised top store rev path pinned
                                   (top ++ "/" ++ path)%string) as [x ->].
        discriminate.
      * simpl. discriminate.
Qed.

(** X22.  With a depth [d >= 0], a fuel of [d + 1] is enough for the
    walk, whatever git answers: the recursion is never deeper than the
    depth asked for, even on listings nested without end. *)
Theorem walk_depth_bounds_recursion
        (fuel : nat) (d : Z) (top : string) (store : pyval) (rev : string) :
  (0 <= d)%Z -> Z.to_nat d < fuel ->
  snd (recursively_iter_repos env gitdirs fuel top store rev d) <> OutOfFuel.
Proof.
  revert d top store rev.
  induction fuel as [|fuel IH]; intros d top store rev Hd Hf; [lia|].
  simpl.
  destruct (iter_git_submodules_at_rev env store rev) as [subs e].
  destruct (Z.eq_dec d 0) as [-> | Hnz].
  - destruct (walk_entries_zero env gitdirs
                (recursively_iter_repos env gitdirs fuel) top store rev subs e)
      as [its [-> _]].
    destruct e; simpl; discriminate.
  - generalize (walk_entries_fuel (recursively_iter_repos env gitdirs fuel)
                                  top store rev d subs e).
    destruct (walk_submodules _ _ _ _ _ _ _ subs e) as [its e'].
    simpl. intros H. apply H. intros t s r. apply IH; lia.
Qed.

(** The loop over the entries does not depend on the recursive call
    beyond its results that are not out of fuel. *)
Lemma walk_entries_more_fuel recur recur' top store rev d entries e its x :
  (forall t s r i y, recur t s r (d - 1)%Z = (i, y) -> y <> OutOfFuel ->
                     recur' t s r (d - 1)%Z = (i, y)) ->
  walk_submodules env gitdirs recur top store rev d entries e = (its, x) ->
  x <> OutOfFuel ->
  walk_submodules env gitdirs recur' top store rev d entries e = (its, x).
Proof.
  intros Hrec. revert its x.
  induction entries as [|[path pinned] entries IH]; intros its x;
    cbn [walk_submodules].
  - auto.
  - destruct (d =? 0)%Z.
    + destruct (walk_submodules env gitdirs recur _ _ _ _ entries e)
        as [i1 e1].
      intros H Hx. injection H as <- <-. now rewrite (IH i1 e1 eq_refl Hx).
    + destruct (assert_path_format path); [|auto].
      destruct (GitDirCollection.find env gitdirs _ pinned) as [[sub|]|y];
        [|auto|auto].
      destruct (recur _ sub pinned (d - 1)%Z) as [i1 e1] eqn:E1.
      destruct e1 as [|y|].
      * rewrite (Hrec _ _ _ _ _ E1) by discriminate.
        destruct (walk_submodules env gitdirs recur _ _ _ _ entries e)
          as [i2 e2].
        intros H Hx. injection H as <- <-.
        now rewrite (IH i2 e2 eq_refl Hx).
      * rewrite (Hrec _ _ _ _ _ E1) by discriminate. auto.
      * intros H Hx. injection H as _ <-. now elim Hx.
Qed.

(** The result of a walk that does not run out of fuel is the result
    with any larger fuel. *)
Lemma walk_more_fuel (fuel fuel' : nat) (d : Z) (top : string)
        (store : pyval) (rev : string) (its : list item) (x : ending) :
  recursively_iter_repos env gitdirs fuel top store rev d = (its, x) ->
  x <> OutOfFuel -> fuel <= fuel' ->
  recursively_iter_repos env gitdirs fuel' top store rev d = (its, x).
Proof.
  revert fuel' d top store rev its x.
  induction fuel as [|fuel IH]; intros fuel' d top store rev its x.
  - simpl. intros H Hx. injection H as _ <-. now elim Hx.
  - intros H Hx Hle. destruct fuel' as [|fuel']; [lia|].
    simpl in *.
    destruct (iter_git_submodules_at_rev env store rev) as [subs e].
    destruct (walk_submodules env gitdirs
                (recursively_iter_repos env gitdirs fuel) _ _ _ _ subs e)
      as [i1 e1] eqn:E1.
    injection H as <- <-.
    rewrite (walk_entries_more_fuel
               (recursively_iter_repos env gitdirs fuel)
               (recursively_iter_repos env gitdirs fuel')
               top store rev d subs e i1 e1); [reflexivity | | exact E1 | exact Hx].
    intros t s r i y Hr Hy. apply (IH fuel' _ _ _ _ _ _ Hr Hy). lia.
Qed.

End WalkFuel.

(** X22 on the sample: depth 1 with fuel 2. *)
Lemma walk_depth_bounds_recursion_witness :
  snd (recursively_iter_repos (Sample.env true) (Sample.gitdirs true) 2
                              "/top" (PyStr "/top/.git") "r0" 1)
  <> OutOfFuel.
Proof.
  apply walk_depth_bounds_recursion; [lia | simpl; lia].
Defined.

(* ===================================================================== *)
(** * More on [ParallelJobs]: the three modes of [launch] *)
(* ===================================================================== *)

Section JobsModes.

Variable os : OS.

Import ParallelJobs.

Lemma ended_later (now now' : nat) (p : Popen) :
  ended os now p = true -> now <= now' -> ended os now' p = true.
Proof.
  unfold ended. intros H Hle. apply Nat.leb_le in H. apply Nat.leb_le. lia.
Qed.

Lemma codes_sound_later (now now' : nat) (l : list Popen) :
  codes_sound os now l -> now <= now' -> codes_sound os now' l.
Proof.
  intros H Hle p Hp Hc. apply ended_later with now; auto.
Qed.

Lemma ended_poll (now t : nat) (p : Popen) :
  ended os t (poll os now p) = ended os t p.
Proof. unfold ended. now rewrite finish_poll. Qed.

Lemma codes_sound_polled (now : nat) (l : list Popen) :
  codes_sound os now l -> codes_sound os now (map (poll os now) l).
Proof.
  intros H q Hq Hc. apply in_map_iff in Hq. destruct Hq as [p [<- Hp]].
  rewrite ended_poll. unfold poll in Hc.
  destruct (returncode p) eqn:E.
  - apply H; [exact Hp | congruence].
  - unfold ended. destruct (finish os p <=? now)%nat; [reflexivity|].
    now rewrite E in Hc.
Qed.

(** After a poll, the processes without return code are those that
    still run. *)
Lemma polled_pending_running (now : nat) (l : list Popen) :
  codes_sound os now l ->
  List.length (filter (fun p => is_None (returncode p))
                      (map (poll os now) l))
  = List.length (running os now l).
Proof.
  unfold running. induction l as [|p l IH]; intros H; [reflexivity|].
  cbn [map filter].
  assert (Hl : codes_sound os now l)
    by (intros q Hq; apply H; now right).
  assert (E : is_None (returncode (poll os now p)) = negb (ended os now p)).
  { unfold poll, ended. destruct (returncode p) eqn:Er.
    - rewrite Er. simpl.
      assert (Hp := H p (or_introl eq_refl)). unfold ended in Hp.
      rewrite Hp by congruence. reflexivity.
    - destruct (finish os p <=? now)%nat; simpl; [reflexivity|].
      now rewrite Er. }
  rewrite E. destruct (negb (ended os now p)); simpl; now rewrite IH.
Qed.

Lemma running_polled (now t : nat) (l : list Popen) :
  List.length (running os t (map (poll os now) l))
  = List.length (running os t l).
Proof.
  unfold running. induction l as [|p l IH]; [reflexivity|].
  cbn [map filter]. rewrite ended_poll.
  destruct (negb (ended os t p)); simpl; now rewrite IH.
Qed.

(** The admission loop admits: when it returns, fewer than [nproc]
    processes run; and it has slept only while [nproc] of them ran. *)
Lemma admission_admits (fuel : nat) :
  forall (self : t) (st : state),
    (0 < nproc self)%Z ->
    deadline os (pending self) <= clock st + fuel ->
    codes_sound os (clock st) (pending self) ->
    exists self' k,
      admission os fuel self st =
        (Return self',
         {| clock := clock st + k; next_pid := next_pid st;
            trace := trace st ++ repeat EvSleep k |})
      /\ nproc self' = nproc self
      /\ (Z.of_nat (List.length (running os (clock st + k) (pending self')))
          < nproc self)%Z
      /\ codes_sound os (clock st + k) (pending self')
      /\ (forall j, j < k ->
                    (nproc self <=
                     Z.of_nat (List.length
                                 (running os (clock st + j) (pending self))))%Z)
      /\ (forall p', In p' (pending self') ->
                     exists p, In p (pending self)
                               /\ finish os p' = finish os p).
Proof.
  induction fuel as [|fuel IH]; intros self st Hn Hd Hs; cbn [admission].
  - rewrite none_pending_past_deadline by lia. simpl List.length.
    cbn [nproc]. assert (Hn' := Hn). apply Z.ltb_lt in Hn'.
    simpl Z.of_nat. rewrite Hn'.
    eexists _, 0. cbn [pending nproc]. rewrite Nat.add_0_r, app_nil_r.
    split; [destruct st; reflexivity|]. cbn [pending nproc].
    split; [reflexivity|].
    split.
    { rewrite running_polled.
      rewrite <- (polled_pending_running _ _ Hs).
      rewrite none_pending_past_deadline by lia. exact Hn. }
    split; [now apply codes_sound_polled|]. split; [intros j Hj; lia|].
    intros p' Hp'. apply in_map_iff in Hp'. destruct Hp' as [p [<- Hp]].
    exists p. split; [exact Hp | apply finish_poll].
  - cbn [nproc].
    destruct (Z.of_nat _ <? nproc self)%Z eqn:Eadm.
    + eexists _, 0. cbn [pending nproc]. rewrite Nat.add_0_r, app_nil_r.
      split; [destruct st; reflexivity|]. cbn [pending nproc].
      split; [reflexivity|].
      split.
      { rewrite running_polled.
        rewrite <- (polled_pending_running _ _ Hs).
        now apply Z.ltb_lt. }
      split; [now apply codes_sound_polled|]. split; [intros j Hj; lia|].
      intros p' Hp'. apply in_map_iff in Hp'. destruct Hp' as [p [<- Hp]].
      exists p. split; [exact Hp | apply finish_poll].
    + unfold bind, sleep.
      edestruct (IH {| pending := map (poll os (clock st)) (pending self);
                       nproc := nproc self |}
                    {| clock := S (clock st); next_pid := next_pid st;
                       trace := trace st ++ [EvSleep] |})
        as [self' [k [E [Hp [Hr [Hs' [Hmin Hfin]]]]]]].
      * exact Hn.
      * cbn [pending clock]. rewrite deadline_polled. lia.
      * cbn [pending clock]. apply codes_sound_later with (clock st);
          [now apply codes_sound_polled | lia].
      * rewrite E. exists self', (S k). cbn [clock next_pid trace] in *.
        cbn [pending nproc] in *.
        replace (clock st + S k) with (S (clock st) + k) by lia.
        split; [|split; [exact Hp|split; [exact Hr|split; [exact Hs'|split]]]].
        -- rewrite <- app_assoc. reflexivity.
        -- intros j Hj. destruct j as [|j].
           ++ rewrite Nat.add_0_r.
              rewrite <- (polled_pending_running _ _ Hs).
              apply Z.ltb_ge in Eadm. exact Eadm.
           ++ specialize (Hmin j ltac:(lia)).
              rewrite running_polled in Hmin.
              replace (clock st + S j) with (S (clock st) + j) by lia.
              exact Hmin.
        -- intros p' Hp'. destruct (Hfin p' Hp') as [q [Hq Ef]].
           apply in_map_iff in Hq. destruct Hq as [p [<- Hpin]].
           exists p. split; [exact Hpin|]. now rewrite Ef, finish_poll.
Qed.

Lemma running_app (now : nat) (a b : list Popen) :
  running os now (a ++ b) = running os now a ++ running os now b.
Proof. unfold running. apply filter_app. Qed.

(** A launch with a bound [nproc > 1]: when the new process starts, at
    most [nproc] processes run, the new one included. *)
Lemma launch_within_bound (self : t) (cmd : list string)
      (ud : option userdata_t) (st : state) :
  (1 < nproc self)%Z ->
  codes_sound os (clock st) (pending self) ->
  exists self' st',
    launch os self cmd ud st = (Return self', st')
    /\ nproc self' = nproc self
    /\ clock st <= clock st'
    /\ codes_sound os (clock st') (pending self')
    /\ (Z.of_nat (List.length (running os (clock st') (pending self')))
        <= nproc self)%Z.
Proof.
  intros Hn Hs. unfold launch.
  assert (E1 : (1 <? nproc self)%Z = true) by now apply Z.ltb_lt.
  rewrite E1.
  destruct (admission_admits (deadline os (pending self) - clock st) self st)
    as [self1 [k [E [Hp [Hr [Hs1 _]]]]]]; [lia | lia | exact Hs |].
  unfold bind at 1. rewrite E.
  assert (E2 : (nproc self1 =? 1)%Z = false)
    by (rewrite Hp; apply Z.eqb_neq; lia).
  unfold bind at 1. unfold popen at 1. cbn [clock next_pid trace].
  rewrite E2. unfold bind, ret.
  eexists _, _. split; [reflexivity|]. cbn [pending nproc clock].
  split; [exact Hp|]. split; [lia|]. split.
  - intros p Hin Hc. apply in_app_or in Hin.
    destruct Hin as [Hin | [<- | []]]; [now apply Hs1|].
    now elim Hc.
  - rewrite running_app, length_app.
    assert (List.length
              (running os (clock st + k)
                 [{| pid := next_pid st; args := cmd; userdata := ud;
                     started := clock st + k; returncode := None |}]) <= 1).
    { unfold running. simpl. destruct (negb _); simpl; lia. }
    lia.
Qed.

(** Any launch and any ordered wait keep the return codes sound and the
    clock going forward. *)
Lemma launch_sound (self : t) (cmd : list string) (ud : option userdata_t)
      (st : state) :
  codes_sound os (clock st) (pending self) ->
  exists self' st',
    launch os self cmd ud st = (Return self', st')
    /\ nproc self' = nproc self
    /\ clock st <= clock st'
    /\ codes_sound os (clock st') (pending self').
Proof.
  intros Hs.
  destruct (Z.ltb_spec 1 (nproc self)) as [Hn | Hn].
  - destruct (launch_within_bound self cmd ud st Hn Hs)
      as [self' [st' [E [Hp [Hc [Hs' _]]]]]].
    now exists self', st'.
  - unfold launch.
    assert (E1 : (1 <? nproc self)%Z = false) by (apply Z.ltb_ge; lia).
    rewrite E1. unfold bind at 1, ret at 1.
    unfold bind at 1. unfold popen at 1. cbn [clock next_pid trace].
    destruct (nproc self =? 1)%Z.
    + unfold bind, wait, ret. cbn [clock next_pid trace pid args].
      eexists _, _. split; [reflexivity|]. cbn [pending nproc clock].
      split; [reflexivity|]. split; [lia|].
      intros p Hin Hc. apply in_app_or in Hin.
      destruct Hin as [Hin | [<- | []]].
      * apply ended_later with (clock st); [now apply Hs | lia].
      * unfold ended, finish, set_returncode.
        cbn [started pid args clock]. apply Nat.leb_le. apply Nat.le_max_r.
    + unfold bind, ret. eexists _, _. split; [reflexivity|].
      cbn [pending nproc clock]. split; [reflexivity|]. split; [lia|].
      intros p Hin Hc. apply in_app_or in Hin.
      destruct Hin as [Hin | [<- | []]]; [now apply Hs | now elim Hc].
Qed.

Lemma run_ops_sound (ops : list job_op) :
  forall (jobs : t) (returned : list Popen) (st : state),
    codes_sound os (clock st) (pending jobs) ->
    match run_ops os ops jobs returned st with
    | (Return (_, jobs'), st') =>
        codes_sound os (clock st') (pending jobs')
        /\ nproc jobs' = nproc jobs
        /\ clock st <= clock st'
    | _ => True
    end.
Proof.
  induction ops as [|[cmd ud|] ops IH]; intros jobs returned st Hs;
    cbn [run_ops].
  - unfold ret. repeat split; [exact Hs | lia].
  - destruct (launch_sound jobs cmd ud st Hs)
      as [jobs1 [st1 [E [Hp [Hc Hs1]]]]].
    unfold bind. rewrite E.
    specialize (IH jobs1 returned st1 Hs1).
    destruct (run_ops os ops jobs1 returned st1) as [[[r j]| |] st'];
      [|exact I|exact I].
    destruct IH as [H1 [H2 H3]]. repeat split; [exact H1 | congruence | lia].
  - destruct (pending jobs) as [|p rest] eqn:Ep.
    + unfold bind. now rewrite wait_next_in_order_empty.
    + unfold bind. rewrite (wait_next_in_order_head os jobs p rest st Ep).
      cbn [fst snd].
      match goal with
      | |- context [run_ops os ops ?j ?r ?s] =>
          specialize (IH j r s);
          destruct (run_ops os ops j r s) as [[[r' j']| |] st'];
          [|exact I|exact I]
      end.
      cbn [pending clock nproc] in IH.
      destruct IH as [H1 [H2 H3]].
      * intros q Hq Hc. apply ended_later with (clock st); [|lia].
        apply Hs; [now right | exact Hc].
      * repeat split; [exact H1 | exact H2 | lia].
Qed.

End JobsModes.

(** X1.  With a bound [nproc > 1], whatever launches and waits came
    before from a new scheduler, a launch returns, and at the time its
    process starts at most [nproc] processes of the queue run, the new
    one included. *)
Theorem launch_keeps_the_bound
        (os : OS) (nproc : Z) (ops : list job_op) (st : state)
        (cmd : list string) (ud : option userdata_t) :
  (1 < nproc)%Z ->
  match run_ops os ops (ParallelJobs.init nproc) [] st with
  | (Return (_, jobs), st1) =>
      exists jobs' st',
        ParallelJobs.launch os jobs cmd ud st1 = (Return jobs', st')
        /\ (Z.of_nat (List.length
                        (running os (clock st') (ParallelJobs.pending jobs')))
            <= nproc)%Z
  | _ => True
  end.
Proof.
  intros Hn.
  generalize (run_ops_sound os ops (ParallelJobs.init nproc) [] st).
  destruct (run_ops os ops (ParallelJobs.init nproc) [] st)
    as [[[r jobs]| |] st1]; [|auto|auto].
  intros H. destruct H as [Hs [Hp _]]; [intros p []|].
  assert (Hnp : ParallelJobs.nproc jobs = nproc).
  { rewrite Hp. unfold ParallelJobs.init. cbn [ParallelJobs.nproc].
    destruct (Z.leb_spec nproc 0); [lia | reflexivity]. }
  destruct (launch_within_bound os jobs cmd ud st1) as
      [jobs' [st' [E [_ [_ [_ Hb]]]]]]; [lia | exact Hs |].
  exists jobs', st'. split; [exact E | now rewrite <- Hnp].
Qed.

(** X1 on the sample: with [nproc = 2], after two launches a third one
    waits until the second job has ended; then two processes run. *)
Lemma launch_keeps_the_bound_witness :
  exists jobs' st',
    ParallelJobs.launch Sample.os
      (snd (match fst (run_ops Sample.os (launches [["a"]; ["b"]])
                               (ParallelJobs.init 2) [] initial_state) with
            | Return r => r
            | _ => ([], ParallelJobs.init 2)
            end))
      ["c"] None
      (snd (run_ops Sample.os (launches [["a"]; ["b"]])
                    (ParallelJobs.init 2) [] initial_state))
    = (Return jobs', st')
    /\ clock st' = 7
    /\ List.length (running Sample.os (clock st')
                            (ParallelJobs.pending jobs')) = 2.
Proof.
  generalize (launch_keeps_the_bound Sample.os 2 (launches [["a"]; ["b"]])
                                     initial_state ["c"] None eq_refl).
  vm_compute. intros [jobs' [st' [E _]]].
  exists jobs', st'. split; [exact E|].
  injection E as <- <-. split; reflexivity.
Defined.

(** Polling changes no end time: the admission loop leaves the same
    processes running at any time. *)
Lemma admission_same_running (os : OS) (fuel : nat) :
  forall s t s' t',
    ParallelJobs.admission os fuel s t = (Return s', t') ->
    forall now,
      List.length (running os now (ParallelJobs.pending s'))
      = List.length (running os now (ParallelJobs.pending s)).
Proof.
  induction fuel as [|fuel IHf]; intros s t s' t';
    cbn [ParallelJobs.admission]; cbn [ParallelJobs.nproc].
  - destruct (Z.of_nat _ <? ParallelJobs.nproc s)%Z; [|discriminate].
    intros H now. injection H as <- _. cbn [ParallelJobs.pending].
    apply running_polled.
  - destruct (Z.of_nat _ <? ParallelJobs.nproc s)%Z.
    + intros H now. injection H as <- _. cbn [ParallelJobs.pending].
      apply running_polled.
    + unfold bind, ParallelJobs.sleep. intros H now.
      rewrite (IHf _ _ _ _ H now). cbn [ParallelJobs.pending].
      apply running_polled.
Qed.

(** X2.  With a bound [nproc > 1], a launch sleeps only while the queue
    is full: at each of the [k] polls after which it slept, [nproc]
    processes or more were running, and the process starts at the first
    poll that finds fewer. *)
Theorem launch_sleeps_only_while_full
        (os : OS) (self : ParallelJobs.t) (cmd : list string)
        (ud : option userdata_t) (st : state) :
  (1 < ParallelJobs.nproc self)%Z ->
  codes_sound os (clock st) (ParallelJobs.pending self) ->
  exists self' k,
    ParallelJobs.launch os self cmd ud st =
      (Return self',
       {| clock := clock st + k; next_pid := S (next_pid st);
          trace := trace st ++ repeat EvSleep k
                     ++ [EvPopen (next_pid st) cmd] |})
    /\ (forall j, j < k ->
                  (ParallelJobs.nproc self <=
                   Z.of_nat (List.length
                               (running os (clock st + j)
                                        (ParallelJobs.pending self))))%Z)
    /\ (Z.of_nat (List.length
                    (running os (clock st + k) (ParallelJobs.pending self)))
        < ParallelJobs.nproc self)%Z.
Proof.
  intros Hn Hs. unfold ParallelJobs.launch.
  assert (E1 : (1 <? ParallelJobs.nproc self)%Z = true) by now apply Z.ltb_lt.
  rewrite E1.
  destruct (admission_admits os
              (ParallelJobs.deadline os (ParallelJobs.pending self) - clock st)
              self st)
    as [self1 [k [E [Hp [Hr [_ [Hmin Hfin]]]]]]]; [lia | lia | exact Hs |].
  unfold bind at 1. rewrite E.
  assert (E2 : (ParallelJobs.nproc self1 =? 1)%Z = false)
    by (rewrite Hp; apply Z.eqb_neq; lia).
  unfold bind at 1. unfold ParallelJobs.popen at 1.
  cbn [clock next_pid trace]. rewrite E2. unfold bind, ret.
  eexists _, k. split; [now rewrite <- app_assoc|]. split; [exact Hmin|].
  now rewrite <- (admission_same_running os _ _ _ _ _ E).
Qed.

(** X2 on the sample: two jobs run and [nproc] is 2; the launch sleeps
    seven times, until the second job has ended. *)
Lemma launch_sleeps_only_while_full_witness :
  let q := {| ParallelJobs.pending :=
                [SampleRun.job 0 "first"; SampleRun.job 1 "second"];
              ParallelJobs.nproc := 2 |} in
  exists self',
    ParallelJobs.launch Sample.os q ["third"] None initial_state =
    (Return self',
     {| clock := 7; next_pid := 1;
        trace := repeat EvSleep 7 ++ [EvPopen 0 ["third"]] |}).
Proof.
  cbv zeta.
  destruct (launch_sleeps_only_while_full Sample.os
              {| ParallelJobs.pending :=
                   [SampleRun.job 0 "first"; SampleRun.job 1 "second"];
                 ParallelJobs.nproc := 2 |}
              ["third"] None initial_state)
    as [self' [k [E [Hmin Hfree]]]].
  - reflexivity.
  - intros p [<- | [<- | []]] Hc; now elim Hc.
  - assert (Hk : k = 7).
    { vm_compute in E. injection E as _ Hk _. now symmetry. }
    subst k. exists self'. exact E.
Defined.

Section JobsOneOrNone.

Variable os : OS.

Import ParallelJobs.

Lemma launch_synchronous (self : t) (cmd : list string)
      (ud : option userdata_t) (st : state) :
  nproc self = 1%Z ->
  all_ended os (clock st) (pending self) ->
  exists proc,
    launch os self cmd ud st =
      (Return {| pending := pending self ++ [proc]; nproc := 1 |},
       {| clock := Nat.max (clock st) (finish os proc);
          next_pid := S (next_pid st);
          trace := trace st ++ [EvPopen (next_pid st) cmd;
                                EvWait (next_pid st)] |})
    /\ started proc = clock st
    /\ job_of proc = (next_pid st, cmd, ud)
    /\ all_ended os (Nat.max (clock st) (finish os proc))
                 (pending self ++ [proc]).
Proof.
  intros Hn Ha. unfold launch. rewrite Hn.
  change (1 <? 1)%Z with false.
  unfold bind, ret, popen, wait. cbn [clock next_pid trace pid args].
  rewrite !Hn. change (1 =? 1)%Z with true. cbn [clock next_pid trace].
  exists (set_returncode
            {| pid := next_pid st; args := cmd; userdata := ud;
               started := clock st; returncode := None |}
            (Some (status os (next_pid st) cmd))).
  split; [rewrite <- app_assoc; reflexivity|].
  split; [reflexivity|]. split; [reflexivity|].
  intros p Hin. apply in_app_or in Hin. destruct Hin as [Hin | [<- | []]].
  - apply (ended_later os (clock st)); [now apply Ha | apply Nat.le_max_l].
  - unfold ended. apply Nat.leb_le. apply Nat.le_max_r.
Qed.

Lemma run_ops_synchronous (ops : list job_op) :
  forall (jobs : t) (returned : list Popen) (st : state),
    nproc jobs = 1%Z ->
    all_ended os (clock st) (pending jobs) ->
    match run_ops os ops jobs returned st with
    | (Return (_, jobs'), st') =>
        all_ended os (clock st') (pending jobs')
        /\ nproc jobs' = 1%Z
        /\ sleeps (trace st') = sleeps (trace st)
    | _ => True
    end.
Proof.
  induction ops as [|[cmd ud|] ops IH]; intros jobs returned st Hn Ha;
    cbn [run_ops].
  - unfold ret. now repeat split.
  - destruct (launch_synchronous jobs cmd ud st Hn Ha)
      as [proc [E [_ [_ Ha']]]].
    unfold bind. rewrite E.
    match goal with
    | |- context [run_ops os ops ?j ?r ?s] =>
        specialize (IH j r s eq_refl Ha');
        destruct (run_ops os ops j r s) as [[[r' j']| |] st'];
        [|exact I|exact I]
    end.
    destruct IH as [H1 [H2 H3]]. repeat split; [exact H1 | exact H2|].
    rewrite H3. cbn [trace].
    clear. induction (trace st) as [|[] tr IHt]; simpl; auto.
  - destruct (pending jobs) as [|p rest] eqn:Ep.
    + unfold bind. now rewrite wait_next_in_order_empty.
    + unfold bind. rewrite (wait_next_in_order_head os jobs p rest st Ep).
      cbn [fst snd].
      match goal with
      | |- context [run_ops os ops ?j ?r ?s] =>
          specialize (IH j r s);
          destruct (run_ops os ops j r s) as [[[r' j']| |] st'];
          [|exact I|exact I]
      end.
      cbn [pending clock nproc trace] in IH.
      destruct IH as [H1 [H2 H3]]; [exact Hn | |].
      * intros q Hq. apply (ended_later os (clock st));
          [apply Ha; now right | apply Nat.le_max_l].
      * repeat split; [exact H1 | exact H2|].
        rewrite H3. clear.
        induction (trace st) as [|[] tr IHt]; simpl; auto.
Qed.

(** With no bound, a launch starts its process at once. *)
Lemma run_launches_unbounded (cmds : list (list string)) :
  forall (jobs : t) (st : state),
    (nproc jobs < 1)%Z ->
    exists jobs',
      run_ops os (launches cmds) jobs [] st =
        (Return ([], jobs'),
         {| clock := clock st;
            next_pid := next_pid st + List.length cmds;
            trace := trace st ++ popen_events (next_pid st) cmds |})
      /\ nproc jobs' = nproc jobs
      /\ List.length (pending jobs')
         = List.length (pending jobs) + List.length cmds
      /\ (forall p, In p (pending jobs') ->
                    In p (pending jobs)
                    \/ (started p = clock st /\ returncode p = None)).
Proof.
  induction cmds as [|cmd cmds IH]; intros jobs st Hn; cbn [launches map run_ops].
  - exists jobs. unfold ret. simpl. rewrite Nat.add_0_r, app_nil_r.
    split; [destruct st; reflexivity|]. repeat split; auto.
  - unfold launch at 1.
    assert (E1 : (1 <? nproc jobs)%Z = false) by (apply Z.ltb_ge; lia).
    assert (E2 : (nproc jobs =? 1)%Z = false) by (apply Z.eqb_neq; lia).
    unfold bind at 1. unfold bind at 1. rewrite E1. unfold ret at 1.
    unfold bind at 1. unfold popen at 1. cbn [clock next_pid trace].
    rewrite E2. unfold bind at 1, ret at 1. unfold ret at 1.
    match goal with
    | |- context [run_ops os _ ?j [] ?s] =>
        destruct (IH j s) as [jobs' [E [Hp [Hl Hin]]]]; [exact Hn|]
    end.
    fold (launches cmds). rewrite E. cbn [clock next_pid trace pending nproc] in *.
    exists jobs'. split; [|split; [exact Hp|split]].
    + f_equal. f_equal; [simpl; lia|].
      rewrite <- app_assoc. reflexivity.
    + rewrite Hl, length_app. simpl. lia.
    + intros p Hp'. destruct (Hin p Hp') as [H | H]; [|now right].
      apply in_app_or in H. destruct H as [H | [<- | []]]; [now left|].
      right. now split.
Qed.

End JobsOneOrNone.

(** X3.  With [nproc = 1] the scheduler is synchronous: whatever
    launches and waits came before, every process of the queue has
    ended when an operation returns, and no launch ever sleeps; a
    further launch starts its process when all the others have ended
    and returns when it has ended too. *)
Theorem one_job_at_a_time
        (os : OS) (ops : list job_op) (st : state)
        (cmd : list string) (ud : option userdata_t) :
  match run_ops os ops (ParallelJobs.init 1) [] st with
  | (Return (_, jobs), st1) =>
      sleeps (trace st1) = sleeps (trace st)
      /\ (forall p, In p (ParallelJobs.pending jobs) ->
                    ended os (clock st1) p = true)
      /\ exists proc jobs' st',
          ParallelJobs.launch os jobs cmd ud st1 = (Return jobs', st')
          /\ ParallelJobs.pending jobs' = ParallelJobs.pending jobs ++ [proc]
          /\ (forall p, In p (ParallelJobs.pending jobs) ->
                        ParallelJobs.finish os p <= started proc)
          /\ ended os (clock st') proc = true
  | _ => True
  end.
Proof.
  generalize (run_ops_synchronous os ops (ParallelJobs.init 1) [] st
                                  eq_refl (fun p (H : In p []) => match H with end)).
  destruct (run_ops os ops (ParallelJobs.init 1) [] st)
    as [[[r jobs]| |] st1]; [|auto|auto].
  intros [Ha [Hn Hs]]. split; [exact Hs|]. split; [exact Ha|].
  destruct (launch_synchronous os jobs cmd ud st1 Hn Ha)
    as [proc [E [Hst [_ Ha']]]].
  eexists proc, _, _. split; [exact E|]. cbn [ParallelJobs.pending clock].
  split; [reflexivity|]. split.
  - intros p Hp. rewrite Hst. specialize (Ha p Hp). unfold ended in Ha.
    now apply Nat.leb_le in Ha.
  - apply Ha'. apply in_or_app. right. now left.
Qed.

(** X4.  With [nproc <= 0] there is no bound: any number of launches
    from a new scheduler start their processes at once, one [Popen]
    each and nothing else, the clock unchanged. *)
Theorem no_bound_no_wait
        (os : OS) (nproc : Z) (cmds : list (list string)) (st : state) :
  (nproc <= 0)%Z ->
  exists jobs,
    run_ops os (launches cmds) (ParallelJobs.init nproc) [] st =
      (Return ([], jobs),
       {| clock := clock st;
          next_pid := next_pid st + List.length cmds;
          trace := trace st ++ popen_events (next_pid st) cmds |})
    /\ List.length (ParallelJobs.pending jobs) = List.length cmds
    /\ (forall p, In p (ParallelJobs.pending jobs) -> started p = clock st).
Proof.
  intros Hn.
  destruct (run_launches_unbounded os cmds (ParallelJobs.init nproc) st)
    as [jobs [E [_ [Hl Hin]]]].
  - unfold ParallelJobs.init. cbn [ParallelJobs.nproc].
    destruct (Z.leb_spec nproc 0); lia.
  - exists jobs. split; [exact E|]. split; [exact Hl|].
    intros p Hp. destruct (Hin p Hp) as [[] | [H _]]. exact H.
Qed.

(** X4 on the sample: three launches with [-j 0]. *)
Lemma no_bound_no_wait_witness :
  exists jobs,
    run_ops Sample.os (launches [["a"]; ["b"]; ["c"]])
            (ParallelJobs.init 0) [] initial_state =
    (Return ([], jobs),
     {| clock := 0; next_pid := 3;
        trace := [EvPopen 0 ["a"]; EvPopen 1 ["b"]; EvPopen 2 ["c"]] |}).
Proof.
  destruct (no_bound_no_wait Sample.os 0 [["a"]; ["b"]; ["c"]] initial_state)
    as [jobs [E _]]; [lia|].
  exists jobs. exact E.
Defined.

(* ===================================================================== *)
(** * More on [main]: segments, prefixes, and the whole assembly *)
(* ===================================================================== *)

Lemma of_nat_inj (a b : nat) : PyString.of_nat a = PyString.of_nat b -> a = b.
Proof.
  unfold PyString.of_nat. intros H.
  apply Unsigned.to_uint_inj.
  assert (E : Some (Nat.to_uint a) = Some (Nat.to_uint b)).
  { rewrite <- (NilEmpty.usu (Nat.to_uint a)).
    rewrite <- (NilEmpty.usu (Nat.to_uint b)). now rewrite H. }
  now injection E.
Qed.

Lemma segment_inj (opt : options) (i j : nat) :
  segment opt i = segment opt j -> i = j.
Proof.
  unfold segment. intros H. apply string_app_inv_head in H.
  simpl in H. injection H as H. now apply of_nat_inj.
Qed.

Lemma segment_not_output (opt : options) (i : nat) :
  segment opt i <> output opt.
Proof.
  unfold segment. intros H. apply (f_equal String.length) in H.
  rewrite string_app_length in H. simpl in H. lia.
Qed.

Lemma segments_NoDup (opt : options) (total n : nat) :
  NoDup (map (segment opt) (seq total n)).
Proof.
  generalize (seq_NoDup n total).
  induction 1 as [|i l Hi _ IH]; simpl; constructor; [|exact IH].
  intros Hin. apply in_map_iff in Hin. destruct Hin as [j [Hj Hl]].
  apply segment_inj in Hj. now subst j.
Qed.

Lemma node_cmds_outputs opt format top total nodes :
  map cmd_output (node_cmds opt format top total nodes)
  = map (segment opt) (seq total (List.length nodes)).
Proof.
  revert total. induction nodes as [|n nodes IH]; intros total; simpl;
    [reflexivity|].
  now rewrite IH.
Qed.

Lemma node_cmds_prefixes opt format top total nodes :
  map cmd_prefix (node_cmds opt format top total nodes)
  = map (node_prefix opt top) nodes.
Proof.
  revert total. induction nodes as [|n nodes IH]; intros total; simpl;
    [reflexivity|].
  now rewrite IH.
Qed.

Lemma node_actions_prefixes opt top total nodes :
  map snd (node_actions opt top total nodes)
  = map (node_prefix opt top) nodes.
Proof.
  revert total. induction nodes as [|n nodes IH]; intros total; simpl;
    [reflexivity|].
  now rewrite IH.
Qed.

Lemma node_prefix_top opt top g r :
  node_prefix opt top (top, g, r) = prefix opt.
Proof.
  unfold node_prefix. cbn [fst].
  rewrite <- (string_app_nil_r (top ++ "/")) at 2.
  now rewrite drop_app, string_app_nil_r.
Qed.

Lemma node_prefix_under opt top rel g r :
  node_prefix opt top ((top ++ "/" ++ rel)%string, g, r)
  = (prefix opt ++ rel ++ "/")%string.
Proof.
  unfold node_prefix. cbn [fst].
  replace ((top ++ "/" ++ rel) ++ "/")%string
    with ((top ++ "/") ++ (rel ++ "/"))%string
    by (now rewrite !string_app_assoc).
  now rewrite drop_app.
Qed.

(** X5.  The segment files of a real run are named after the rank of
    the job: [output.0], [output.1], ... in the order of the walk.  No
    two jobs write the same segment, and no job writes the final
    output. *)
Theorem segments_are_distinct
        (env : Env) (os : OS) (fuel : nat) (opt : options)
        (top_rev top top_gitdir : string) (gitdirs : GitDirCollection.t)
        (its : list item) (e : ending) :
  dryrun opt = false ->
  effective_format opt = Some "tar" ->
  main_setup env opt = Ok (top_rev, top, top_gitdir, gitdirs) ->
  recursively_iter_repos env gitdirs fuel top (PyStr top_gitdir) top_rev
                         (depth opt) = (its, e) ->
  let outputs :=
    map cmd_output
        (popens (trace (snd (main env os fuel opt initial_state)))) in
  outputs = map (segment opt) (seq 0 (List.length (nodes_of its)))
  /\ NoDup outputs
  /\ ~ In (output opt) outputs.
Proof.
  intros Hdry Hf Hs Hw outputs. subst outputs.
  rewrite (launched_commands env os fuel opt initial_state _ _ _ _ _ _
                             Hdry Hf Hs Hw).
  cbn [initial_state trace popens app]. rewrite node_cmds_outputs.
  split; [reflexivity|]. split; [apply segments_NoDup|].
  intros Hin. apply in_map_iff in Hin. destruct Hin as [i [Hi _]].
  now apply segment_not_output in Hi.
Qed.

(** X5 on the sample: four segments. *)
Lemma segments_are_distinct_witness :
  map cmd_output
      (popens (trace (snd (main (Sample.env true) Sample.os 3 Sample.opt
                                initial_state))))
  = ["out.tar.0"; "out.tar.1"; "out.tar.2"; "out.tar.3"].
Proof.
  destruct (segments_are_distinct (Sample.env true) Sample.os 3 Sample.opt
              "r0" "/top" "/top/.git" (Sample.gitdirs true)
              (fst (recursively_iter_repos (Sample.env true)
                      (Sample.gitdirs true) 3 "/top" (PyStr "/top/.git")
                      "r0" (-1)))
              Finished) as [H _].
  - reflexivity.
  - reflexivity.
  - vm_compute. reflexivity.
  - vm_compute. reflexivity.
  - rewrite H. vm_compute. reflexivity.
Defined.

(** X6.  The prefix given to [git archive] for a node is the prefix
    option followed by the path of the node relative to the top
    directory and a slash: the prefix option alone for the top
    repository, [prefix ++ rel ++ "/"] for the node at [top/rel].  Every
    node of the walk is of one of these two kinds. *)
Theorem archive_prefixes
        (env : Env) (os : OS) (fuel : nat) (opt : options) (st : state)
        (top_rev top top_gitdir : string) (gitdirs : GitDirCollection.t)
        (its : list item) (e : ending) :
  dryrun opt = false ->
  effective_format opt = Some "tar" ->
  main_setup env opt = Ok (top_rev, top, top_gitdir, gitdirs) ->
  recursively_iter_repos env gitdirs fuel top (PyStr top_gitdir) top_rev
                         (depth opt) = (its, e) ->
  map cmd_prefix (popens (trace (snd (main env os fuel opt st))))
  = map cmd_prefix (popens (trace st))
      ++ map (node_prefix opt top) (nodes_of its)
  /\ (forall n, In n (nodes_of its) ->
                (fst (fst n) = top /\ node_prefix opt top n = prefix opt)
                \/ exists rel,
                    fst (fst n) = (top ++ "/" ++ rel)%string
                    /\ node_prefix opt top n
                       = (prefix opt ++ rel ++ "/")%string).
Proof.
  intros Hdry Hf Hs Hw. split.
  - rewrite (launched_commands env os fuel opt st _ _ _ _ _ _ Hdry Hf Hs Hw).
    now rewrite map_app, node_cmds_prefixes.
  - intros [[f g] r] Hn.
    assert (Hu : under top (f, g, r)).
    { apply (walk_under env gitdirs fuel top (PyStr top_gitdir) top_rev
                        (depth opt)). now rewrite Hw. }
    destruct Hu as [Hu | [rel Hu]]; cbn [fst] in Hu; subst f.
    + left. split; [reflexivity | apply node_prefix_top].
    + right. exists rel. split; [reflexivity | apply node_prefix_under].
Qed.

(** X6 on the sample. *)
Lemma archive_prefixes_witness :
  map cmd_prefix
      (popens (trace (snd (main (Sample.env true) Sample.os 3 Sample.opt
                                initial_state))))
  = ["pkg/"; "pkg/libs/foo/"; "pkg/libs/foo/deep/"; "pkg/old/bar/"].
Proof.
  destruct (archive_prefixes (Sample.env true) Sample.os 3 Sample.opt
              initial_state
              "r0" "/top" "/top/.git" (Sample.gitdirs true)
              (fst (recursively_iter_repos (Sample.env true)
                      (Sample.gitdirs true) 3 "/top" (PyStr "/top/.git")
                      "r0" (-1)))
              Finished) as [H _].
  - reflexivity.
  - reflexivity.
  - vm_compute. reflexivity.
  - vm_compute. reflexivity.
  - rewrite H. vm_compute. reflexivity.
Defined.

(** The trace of a dry run after a successful setup. *)
Lemma main_dryrun_trace env os fuel opt st top_rev top top_gitdir gitdirs
      its e :
  dryrun opt = true ->
  effective_format opt = Some "tar" ->
  main_setup env opt = Ok (top_rev, top, top_gitdir, gitdirs) ->
  recursively_iter_repos env gitdirs fuel top (PyStr top_gitdir) top_rev
                         (depth opt) = (its, e) ->
  dry_runs (trace (snd (main env os fuel opt st)))
  = dry_runs (trace st) ++ node_actions opt top 0 (nodes_of its).
Proof.
  intros Hdry Hf Hs Hw.
  rewrite (main_after_setup env os opt fuel st _ _ _ _ _ _ Hf Hs Hw).
  assert (Hu : forall n, In n (nodes_of its) -> under top n).
  { intros n Hn. apply (walk_under env gitdirs fuel top (PyStr top_gitdir)
                                   top_rev (depth opt)).
    now rewrite Hw. }
  rewrite (bind_return _ _ _ _ _
             (main_nodes_dryrun os opt "tar" top its Hdry Hu _ 0 st)).
  assert (Hd : dry_runs (dry_run_events opt top 0 its)
               = node_actions opt top 0 (nodes_of its)).
  { apply dry_run_events_actions.
    generalize (walk_no_dry_run env gitdirs fuel top (PyStr top_gitdir)
                                top_rev (depth opt)).
    now rewrite Hw. }
  destruct e as [|x|]; unfold bind, generator_end, ret, throw, no_fuel;
    cbn [fst snd trace with_trace].
  - unfold main_finish. rewrite Hdry.
    unfold bind, say, emit, ret. cbn [snd trace].
    cbn [with_trace trace]. rewrite !dry_runs_app, Hd. simpl.
    now rewrite app_nil_r.
  - cbn [with_trace trace]. now rewrite dry_runs_app, Hd.
  - cbn [with_trace trace]. now rewrite dry_runs_app, Hd.
Qed.

(** X7.  A dry run announces what the real run launches: for the same
    options but the dry-run flag, the prefixes of the intended actions
    are, in order, the prefixes of the archive commands, whatever the
    processes do. *)
Theorem dry_run_announces_real_run
        (env : Env) (os os' : OS) (fuel : nat) (opt : options)
        (top_rev top top_gitdir : string) (gitdirs : GitDirCollection.t) :
  effective_format opt = Some "tar" ->
  main_setup env opt = Ok (top_rev, top, top_gitdir, gitdirs) ->
  map snd (dry_runs (trace (snd (main env os fuel (set_dryrun true opt)
                                      initial_state))))
  = map cmd_prefix
        (popens (trace (snd (main env os' fuel (set_dryrun false opt)
                                  initial_state))))
  /\ map fst (dry_runs (trace (snd (main env os fuel (set_dryrun true opt)
                                         initial_state))))
     = seq 1 (List.length
                (popens (trace (snd (main env os' fuel
                                          (set_dryrun false opt)
                                          initial_state))))).
Proof.
  intros Hf Hs.
  destruct (recursively_iter_repos env gitdirs fuel top (PyStr top_gitdir)
                                   top_rev (depth opt)) as [its e] eqn:Hw.
  rewrite (main_dryrun_trace env os fuel (set_dryrun true opt) initial_state
             top_rev top top_gitdir gitdirs its e eq_refl Hf Hs Hw).
  rewrite (launched_commands env os' fuel (set_dryrun false opt)
             initial_state top_rev top top_gitdir gitdirs its e
             eq_refl Hf Hs Hw).
  cbn [initial_state trace dry_runs popens app]. split.
  - rewrite node_actions_prefixes, node_cmds_prefixes. reflexivity.
  - rewrite node_cmds_length. generalize 0.
    induction (nodes_of its) as [|n l IH]; intros k; simpl; [reflexivity|].
    now rewrite IH.
Qed.

(** X7 on the sample. *)
Lemma dry_run_announces_real_run_witness :
  map snd (dry_runs (trace (snd (main (Sample.env true) Sample.os 3
                                      (set_dryrun true Sample.opt)
                                      initial_state))))
  = map cmd_prefix
        (popens (trace (snd (main (Sample.env true) Sample.os_failing 3
                                  (set_dryrun false Sample.opt)
                                  initial_state)))).
Proof.
  apply (dry_run_announces_real_run (Sample.env true) Sample.os
           Sample.os_failing 3 Sample.opt "r0" "/top" "/top/.git"
           (Sample.gitdirs true)).
  - reflexivity.
  - vm_compute. reflexivity.
Defined.

(* ===================================================================== *)
(** * The assembly of a real run, from the first job to the last *)
(* ===================================================================== *)

Lemma runs_app (a b : list event) : runs (a ++ b) = runs a ++ runs b.
Proof.
  induction a as [|e a IH]; simpl; [reflexivity|].
  destruct e; simpl; try exact IH. now rewrite IH.
Qed.

Lemma unlinks_app (a b : list event) :
  unlinks (a ++ b) = unlinks a ++ unlinks b.
Proof.
  induction a as [|e a IH]; simpl; [reflexivity|].
  destruct e; simpl; try exact IH. now rewrite IH.
Qed.

Lemma not_assembly_runs (evs : list event) :
  Forall (fun e => is_assembly e = false) evs ->
  runs evs = [] /\ unlinks evs = [].
Proof.
  induction 1 as [|e evs He _ [IH1 IH2]]; [now split|].
  destruct e; simpl in *; try discriminate; now split.
Qed.

Lemma node_jobs_app opt format top first total a b :
  node_jobs opt format top first total (a ++ b)
  = node_jobs opt format top first total a
      ++ node_jobs opt format top (first + List.length a)
                   (total + List.length a) b.
Proof.
  revert first total. induction a as [|n a IH]; intros first total; simpl.
  - now rewrite !Nat.add_0_r.
  - rewrite IH, !Nat.add_succ_r. reflexivity.
Qed.

Lemma node_jobs_segments opt format top first total nodes :
  job_segments (node_jobs opt format top first total nodes)
  = map (segment opt) (seq total (List.length nodes)).
Proof.
  revert first total. induction nodes as [|n nodes IH]; intros first total;
    [reflexivity|].
  cbn [node_jobs List.length seq map]. unfold job_segments in *.
  cbn [flat_map snd ud_output app]. now rewrite IH.
Qed.

Lemma job_segments_app a b :
  job_segments (a ++ b) = job_segments a ++ job_segments b.
Proof. unfold job_segments. apply flat_map_app. Qed.

(** The jobs of the nodes go through when the process and the tar of
    each of them do. *)
Lemma node_jobs_ok os opt format top nodes :
  forall first total,
    (forall i n, nth_error nodes i = Some n ->
                 status os (first + i)
                        (node_cmd opt format top (total + i) n) = 0%Z
                 /\ run_status os (tar_cmd (output opt)
                                           (segment opt (total + i))) = 0%Z) ->
    forallb (job_ok os (output opt))
            (node_jobs opt format top first total nodes) = true.
Proof.
  induction nodes as [|n nodes IH]; intros first total H; [reflexivity|].
  cbn [node_jobs forallb job_ok ud_output].
  pose proof (H 0 n eq_refl) as H0. rewrite !Nat.add_0_r in H0.
  destruct H0 as [H1 H2]. rewrite H1, H2. cbn [Z.eqb andb].
  apply IH. intros i m Hi. specialize (H (S i) m Hi).
  now rewrite !Nat.add_succ_r in H.
Qed.

Section AssemblyFacts.

Variable os : OS.

Import ParallelJobs.

Lemma main_drain_empty fuel format final_output jobs done total st :
  pending jobs = [] ->
  main_drain os fuel format final_output jobs done total st = (Return tt, st).
Proof.
  intros Ep. destruct fuel; cbn [main_drain]; unfold can_wait;
    rewrite Ep; reflexivity.
Qed.

(** One turn of the drain loop for a process without metadata. *)
Lemma main_drain_no_userdata fuel final_output jobs done total st p rest :
  pending jobs = p :: rest ->
  status os (pid p) (args p) = 0%Z ->
  userdata p = None ->
  main_drain os (S fuel) "tar" final_output jobs done total st =
  (Throw AttributeError,
   {| clock := Nat.max (clock st) (finish os p);
      next_pid := next_pid st;
      trace := trace st
                 ++ [EvSay (Info (MsgWaiting (done + 1) total));
                     EvWait (pid p)] |}).
Proof.
  intros Ep Hs Hud. cbn [main_drain]. unfold can_wait. rewrite Ep.
  cbn [List.length Nat.ltb Nat.leb].
  rewrite (bind_return _ _ _ _ _ (say_with_trace _ st)).
  rewrite (bind_return _ _ _ _ _
             (wait_next_in_order_head os jobs p rest _ Ep)).
  cbn [returncode set_returncode nonzero args userdata].
  rewrite Hs, Hud. cbn [Z.eqb negb]. rewrite String.eqb_refl. cbn [negb].
  unfold throw. cbn [clock next_pid trace with_trace].
  now rewrite <- !app_assoc.
Qed.

(** The drain loop is the assembly of its queue, job after job. *)
Lemma main_drain_assemble fuel final_output :
  forall jobs done total st,
    List.length (pending jobs) <= fuel ->
    exists st',
      main_drain os fuel "tar" final_output jobs done total st
      = (snd (assemble os final_output (map job_of (pending jobs))
                       done total), st')
      /\ trace st'
         = trace st ++ fst (assemble os final_output
                                     (map job_of (pending jobs)) done total).
Proof.
  induction fuel as [|fuel IH]; intros jobs done total st Hlen.
  - destruct (pending jobs) as [|p rest] eqn:Ep; [|simpl in Hlen; lia].
    rewrite (main_drain_empty _ _ _ _ _ _ _ Ep). exists st. simpl.
    now rewrite app_nil_r.
  - destruct (pending jobs) as [|p rest] eqn:Ep.
    + rewrite (main_drain_empty _ _ _ _ _ _ _ Ep). exists st. simpl.
      now rewrite app_nil_r.
    + cbn [map]. unfold job_of at 1 3. cbn [assemble].
      destruct (Z.eq_dec (status os (pid p) (args p)) 0) as [Hs|Hs].
      2:{ rewrite (main_drain_failed os fuel "tar" final_output jobs done
                                     total st p rest Ep Hs).
          apply Z.eqb_neq in Hs. rewrite Hs. cbn [negb fst snd].
          eexists. split; [reflexivity|]. reflexivity. }
      rewrite Hs. cbn [Z.eqb negb].
      destruct (userdata p) as [ud|] eqn:Hud.
      2:{ rewrite (main_drain_no_userdata fuel final_output jobs done total
                                          st p rest Ep Hs Hud).
          eexists. split; reflexivity. }
      destruct (Z.eq_dec (run_status os (tar_cmd final_output (ud_output ud)))
                         0) as [Ht|Ht].
      2:{ rewrite (main_drain_tar_failed os fuel final_output jobs done total
                                         st p rest ud Ep Hs Hud Ht).
          apply Z.eqb_neq in Ht. rewrite Ht. cbn [negb fst snd].
          eexists. split; reflexivity. }
      rewrite (main_drain_appended os fuel final_output jobs done total
                                   st p rest ud Ep Hs Hud Ht).
      rewrite Ht. cbn [Z.eqb negb].
      match goal with
      | |- context [main_drain os fuel "tar" final_output ?j ?d total ?s] =>
          destruct (IH j d total s) as [st' [E Htr]];
            [cbn [pending]; simpl in Hlen; lia|]
      end.
      cbn [pending trace] in E, Htr.
      destruct (assemble os final_output (map job_of rest) (done + 1) total)
        as [evs o] eqn:Ea.
      cbn [fst snd] in *. exists st'. split; [exact E|].
      rewrite Htr, <- !app_assoc. reflexivity.
Qed.

(** What the assembly appends is a prefix of the segments of the queue;
    what it removes is a prefix of what it has appended. *)
Lemma assemble_prefix final_output :
  forall jobs done total,
    exists k j,
      j <= k
      /\ runs (fst (assemble os final_output jobs done total))
         = firstn k (map (tar_cmd final_output) (job_segments jobs))
      /\ unlinks (fst (assemble os final_output jobs done total))
         = firstn j (job_segments jobs).
Proof.
  induction jobs as [|[[p a] ud] jobs IH]; intros done total.
  - exists 0, 0. now repeat split.
  - cbn [assemble].
    destruct (negb (status os p a =? 0)%Z).
    { exists 0, 0. now repeat split. }
    destruct ud as [ud|]; [|exists 0, 0; now repeat split].
    destruct (negb (run_status os _ =? 0)%Z).
    { exists 1, 0. repeat split. lia. }
    destruct (IH (done + 1) total) as [k [j [Hj [Hr Hu]]]].
    destruct (assemble os final_output jobs (done + 1) total) as [evs o].
    cbn [fst snd] in *. exists (S k), (S j).
    split; [lia|].
    unfold job_segments in *. cbn [flat_map snd app map firstn].
    destruct (unlink os (ud_output ud)); cbn [app runs unlinks];
      rewrite ?Hr, ?Hu; now split.
Qed.

(** When every job goes through, every segment is appended and removed,
    in the order of the queue. *)
Lemma assemble_all_ok final_output :
  forall jobs done total,
    forallb (job_ok os final_output) jobs = true ->
    snd (assemble os final_output jobs done total) = Return tt
    /\ runs (fst (assemble os final_output jobs done total))
       = map (tar_cmd final_output) (job_segments jobs)
    /\ unlinks (fst (assemble os final_output jobs done total))
       = job_segments jobs.
Proof.
  induction jobs as [|[[p a] ud] jobs IH]; intros done total Hok.
  - now repeat split.
  - cbn [forallb job_ok] in Hok. destruct ud as [ud|]; [|discriminate].
    apply andb_prop in Hok. destruct Hok as [Hj Hok].
    apply andb_prop in Hj. destruct Hj as [Hs Ht].
    cbn [assemble]. rewrite Hs, Ht. cbn [negb].
    destruct (IH (done + 1) total Hok) as [Ho [Hr Hu]].
    destruct (assemble os final_output jobs (done + 1) total) as [evs o].
    cbn [fst snd] in *.
    unfold job_segments in *. cbn [flat_map snd app map].
    destruct (unlink os (ud_output ud)); cbn [app runs unlinks];
      rewrite ?Hr, ?Hu; now repeat split.
Qed.

(** The first job whose process has failed ends the assembly: the
    segments before it have been appended and removed, nothing else. *)
Lemma assemble_first_failure final_output :
  forall before p a ud after done total,
    forallb (job_ok os final_output) before = true ->
    status os p a <> 0%Z ->
    snd (assemble os final_output (before ++ (p, a, ud) :: after) done total)
    = Throw (RuntimeError (MsgArchiveFailed (Some (status os p a)) a))
    /\ runs (fst (assemble os final_output (before ++ (p, a, ud) :: after)
                           done total))
       = map (tar_cmd final_output) (job_segments before)
    /\ unlinks (fst (assemble os final_output (before ++ (p, a, ud) :: after)
                              done total))
       = job_segments before.
Proof.
  induction before as [|[[p' a'] ud'] before IH];
    intros p a ud after done total Hok Hs.
  - cbn [app assemble]. apply Z.eqb_neq in Hs. rewrite Hs. cbn [negb].
    now repeat split.
  - cbn [forallb job_ok] in Hok. destruct ud' as [ud'|]; [|discriminate].
    apply andb_prop in Hok. destruct Hok as [Hj Hok].
    apply andb_prop in Hj. destruct Hj as [Hs' Ht].
    cbn [app assemble]. rewrite Hs', Ht. cbn [negb].
    destruct (IH p a ud after (done + 1) total Hok Hs) as [Ho [Hr Hu]].
    destruct (assemble os final_output (before ++ (p, a, ud) :: after)
                       (done + 1) total) as [evs o].
    cbn [fst snd] in *.
    unfold job_segments in *. cbn [flat_map snd app map].
    destruct (unlink os (ud_output ud')); cbn [app runs unlinks];
      rewrite ?Hr, ?Hu; now repeat split.
Qed.

Variable opt : options.

(** The loop over the nodes in a real run leaves the jobs of the nodes
    in the queue, in order. *)
Lemma main_nodes_queue format top its :
  dryrun opt = false ->
  (forall n, In n (nodes_of its) -> under top n) ->
  forall jobs total st,
    exists jobs' st' evs,
      main_nodes os opt format (top ++ "/") its (jobs, total) st =
        (Return (jobs', total + List.length (nodes_of its)), st')
      /\ trace st' = trace st ++ evs
      /\ runs evs = [] /\ unlinks evs = []
      /\ map job_of (pending jobs')
         = map job_of (pending jobs)
             ++ node_jobs opt format top (next_pid st) total (nodes_of its).
Proof.
  intros Hdry. induction its as [|[[[f g] r]|l] its IH];
    intros Hu jobs total st; cbn [main_nodes nodes_of].
  - exists jobs, st, []. unfold ret. simpl.
    rewrite Nat.add_0_r, !app_nil_r. now repeat split.
  - assert (E : exists jobs1 st1 evs1,
               main_node os opt format (top ++ "/") (f, g, r) (jobs, total) st
               = (Return (jobs1, total + 1), st1)
               /\ trace st1 = trace st ++ evs1
               /\ runs evs1 = [] /\ unlinks evs1 = []
               /\ next_pid st1 = S (next_pid st)
               /\ map job_of (pending jobs1)
                  = map job_of (pending jobs)
                      ++ [(next_pid st,
                           node_cmd opt format top total (f, g, r),
                           Some {| step := "gitarchive";
                                   ud_output := segment opt total |})]).
    { unfold main_node.
      pose proof (under_startswith top (f, g, r)
                                   (Hu _ (or_introl eq_refl))) as Hs.
      cbn [fst] in Hs. rewrite Hs. cbn [negb]. rewrite Hdry.
      unfold bind at 1. unfold bind at 1. unfold say, emit.
      match goal with
      | |- context [launch os jobs ?c ?u ?s] =>
          destruct (launch_appends os jobs c u s)
            as [jobs1 [st1 [k [E [Hq [_ [Hn Ht]]]]]]]; rewrite E
      end.
      unfold ret. cbn [trace next_pid] in Ht, Hn, Hq.
      eexists jobs1, st1, (_ :: launch_events k _ _ _).
      split; [reflexivity|].
      split; [rewrite Ht, <- app_assoc; reflexivity|].
      destruct (not_assembly_runs _ (launch_events_assembly
                                       k (next_pid st)
                                       (node_cmd opt format top total
                                                 (f, g, r))
                                       (nproc jobs =? 1)%Z)) as [R U].
      split; [exact R|]. split; [exact U|]. split; [exact Hn|exact Hq]. }
    destruct E as [jobs1 [st1 [evs1 [E [Ht [R [U [Hn Hq]]]]]]]].
    rewrite (bind_return _ _ _ _ _ E).
    destruct (IH (fun n Hn => Hu n (or_intror Hn)) jobs1 (total + 1) st1)
      as [jobs' [st' [evs [E' [Ht' [R' [U' Hq']]]]]]].
    rewrite E'. exists jobs', st', (evs1 ++ evs).
    split; [|split; [|split; [|split]]].
    + simpl List.length.
      replace (total + 1 + List.length (nodes_of its))
        with (total + S (List.length (nodes_of its))) by lia.
      reflexivity.
    + rewrite Ht', Ht. now rewrite <- !app_assoc.
    + now rewrite runs_app, R, R'.
    + now rewrite unlinks_app, U, U'.
    + rewrite Hq', Hq, Hn, <- app_assoc. cbn [node_jobs app].
      now rewrite Nat.add_1_r.
  - rewrite (bind_return _ _ _ _ _ (say_with_trace l st)).
    destruct (IH Hu jobs total (with_trace st [EvSay l]))
      as [jobs' [st' [evs [E' [Ht' [R' [U' Hq']]]]]]].
    rewrite E'. exists jobs', st', (EvSay l :: evs).
    split; [reflexivity|]. split; [|split; [|split]].
    + rewrite Ht'. simpl. now rewrite <- app_assoc.
    + exact R'.
    + exact U'.
    + exact Hq'.
Qed.

(** The last part of a real run when the final output can be removed or
    is not there: the assembly of the queue, then the last line. *)
Lemma main_finish_assemble jobs total st :
  dryrun opt = false ->
  unlink os (output opt) = None
  \/ unlink os (output opt) = Some FileNotFoundError ->
  let a := assemble os (output opt) (map job_of (pending jobs)) 0 total in
  exists st',
    main_finish os opt "tar" jobs total st = (main_result (snd a), st')
    /\ trace st'
       = trace st ++ EvUnlink (output opt) (unlink os (output opt))
                  :: fst a ++ done_events (snd a).
Proof.
  intros Hdry Hun a. unfold main_finish. rewrite Hdry.
  unfold bind at 1. unfold except_FileNotFoundError, os_unlink.
  destruct (main_drain_assemble (List.length (pending jobs)) (output opt)
              jobs 0 total
              {| clock := clock st; next_pid := next_pid st;
                 trace := trace st ++ [EvUnlink (output opt)
                                                (unlink os (output opt))] |}
              (le_n _))
    as [st' [E Ht]].
  fold a in E, Ht. cbn [trace] in Ht.
  assert (Hgo :
    (main_drain os (List.length (pending jobs)) "tar"
                (output opt) jobs 0 total ;;
     say (Info MsgDone) ;; ret 0%Z)%M
      {| clock := clock st; next_pid := next_pid st;
         trace := trace st ++ [EvUnlink (output opt)
                                        (unlink os (output opt))] |}
    = (main_result (snd a), with_trace st' (done_events (snd a)))).
  { unfold bind at 1. rewrite E.
    destruct (snd a) as [[]|x|]; cbn [main_result done_events];
      rewrite ?with_trace_nil; reflexivity. }
  assert (Htr : trace (with_trace st' (done_events (snd a)))
                = trace st ++ EvUnlink (output opt) (unlink os (output opt))
                        :: fst a ++ done_events (snd a)).
  { cbn [with_trace trace]. rewrite Ht, <- !app_assoc. reflexivity. }
  destruct Hun as [Hun | Hun]; rewrite Hun in *; rewrite Hgo;
    eexists; split; try reflexivity; exact Htr.
Qed.

(** The last part of a real run when the removal of the final output
    fails for another reason: the run ends there. *)
Lemma main_finish_unlink_failed jobs total st x :
  dryrun opt = false ->
  unlink os (output opt) = Some x ->
  x <> FileNotFoundError ->
  main_finish os opt "tar" jobs total st
  = (Throw x, with_trace st [EvUnlink (output opt) (Some x)]).
Proof.
  intros Hdry Hun Hx. unfold main_finish. rewrite Hdry.
  unfold bind at 1. unfold except_FileNotFoundError, os_unlink.
  rewrite Hun. destruct x; try reflexivity. now elim Hx.
Qed.

End AssemblyFacts.

(** A real run whose walk has finished: the launches, then the assembly
    of the jobs of the nodes. *)
Lemma main_real_assemble env os fuel opt st top_rev top top_gitdir gitdirs
      its :
  dryrun opt = false ->
  effective_format opt = Some "tar" ->
  main_setup env opt = Ok (top_rev, top, top_gitdir, gitdirs) ->
  recursively_iter_repos env gitdirs fuel top (PyStr top_gitdir) top_rev
                         (depth opt) = (its, Finished) ->
  unlink os (output opt) = None
  \/ unlink os (output opt) = Some FileNotFoundError ->
  let a := assemble os (output opt)
                    (node_jobs opt "tar" top (next_pid st) 0 (nodes_of its))
                    0 (List.length (nodes_of its)) in
  fst (main env os fuel opt st) = main_result (snd a)
  /\ runs (trace (snd (main env os fuel opt st)))
     = runs (trace st) ++ runs (fst a)
  /\ unlinks (trace (snd (main env os fuel opt st)))
     = unlinks (trace st) ++ output opt :: unlinks (fst a).
Proof.
  intros Hdry Ef Es Ew Hun a.
  rewrite (main_after_setup env os opt fuel st _ _ _ _ _ _ Ef Es Ew).
  assert (Hu : forall n, In n (nodes_of its) -> under top n).
  { intros n Hn. apply (walk_under env gitdirs fuel top (PyStr top_gitdir)
                                   top_rev (depth opt)).
    now rewrite Ew. }
  destruct (main_nodes_queue os opt "tar" top its Hdry Hu
                             (ParallelJobs.init (opt_nproc opt)) 0 st)
    as [jobs' [st1 [evs [E [Ht [R [U Hq]]]]]]].
  rewrite (bind_return _ _ _ _ _ E). cbn [fst snd].
  unfold bind, generator_end, ret.
  destruct (main_finish_assemble os opt jobs' (0 + List.length (nodes_of its))
                                 st1 Hdry Hun) as [st' [E' Ht']].
  cbn [ParallelJobs.init ParallelJobs.pending map app] in Hq.
  rewrite Hq in E', Ht'. cbn [Nat.add] in E', Ht'. fold a in E', Ht'.
  change (0 + List.length (nodes_of its))
    with (List.length (nodes_of its)).
  rewrite E'. cbn [fst snd]. split; [reflexivity|].
  rewrite Ht', Ht.
  assert (Rd : runs (done_events (snd a)) = [])
    by (destruct (snd a); reflexivity).
  assert (Ud : unlinks (done_events (snd a)) = [])
    by (destruct (snd a); reflexivity).
  split.
  - rewrite !runs_app. cbn [runs]. rewrite runs_app, R, Rd.
    now rewrite !app_nil_r.
  - rewrite !unlinks_app. cbn [unlinks]. rewrite unlinks_app, U, Ud.
    now rewrite !app_nil_r.
Qed.

(** A real run whose final output cannot be removed: nothing is
    assembled. *)
Lemma main_real_unlink_failed env os fuel opt st top_rev top top_gitdir
      gitdirs its x :
  dryrun opt = false ->
  effective_format opt = Some "tar" ->
  main_setup env opt = Ok (top_rev, top, top_gitdir, gitdirs) ->
  recursively_iter_repos env gitdirs fuel top (PyStr top_gitdir) top_rev
                         (depth opt) = (its, Finished) ->
  unlink os (output opt) = Some x ->
  x <> FileNotFoundError ->
  fst (main env os fuel opt st) = Throw x
  /\ runs (trace (snd (main env os fuel opt st))) = runs (trace st)
  /\ unlinks (trace (snd (main env os fuel opt st)))
     = unlinks (trace st) ++ [output opt].
Proof.
  intros Hdry Ef Es Ew Hun Hx.
  rewrite (main_after_setup env os opt fuel st _ _ _ _ _ _ Ef Es Ew).
  assert (Hu : forall n, In n (nodes_of its) -> under top n).
  { intros n Hn. apply (walk_under env gitdirs fuel top (PyStr top_gitdir)
                                   top_rev (depth opt)).
    now rewrite Ew. }
  destruct (main_nodes_queue os opt "tar" top its Hdry Hu
                             (ParallelJobs.init (opt_nproc opt)) 0 st)
    as [jobs' [st1 [evs [E [Ht [R [U _]]]]]]].
  rewrite (bind_return _ _ _ _ _ E). cbn [fst snd].
  unfold bind, generator_end, ret.
  rewrite (main_finish_unlink_failed os opt jobs' _ st1 x Hdry Hun Hx).
  cbn [fst snd with_trace trace]. split; [reflexivity|].
  rewrite Ht, !runs_app, !unlinks_app, R, U. cbn [runs unlinks].
  now rewrite !app_nil_r.
Qed.

(** A real run whose walk has not finished: nothing is assembled. *)
Lemma main_real_walk_unfinished env os fuel opt st top_rev top top_gitdir
      gitdirs its e :
  dryrun opt = false ->
  effective_format opt = Some "tar" ->
  main_setup env opt = Ok (top_rev, top, top_gitdir, gitdirs) ->
  recursively_iter_repos env gitdirs fuel top (PyStr top_gitdir) top_rev
                         (depth opt) = (its, e) ->
  e <> Finished ->
  runs (trace (snd (main env os fuel opt st))) = runs (trace st)
  /\ unlinks (trace (snd (main env os fuel opt st))) = unlinks (trace st).
Proof.
  intros Hdry Ef Es Ew He.
  destruct (main_real_trace env os fuel opt st _ _ _ _ _ _ Hdry Ef Es Ew)
    as [loop_evs [drain_evs [Ht [Ha [_ [_ [Hd _]]]]]]].
  rewrite Ht, (Hd He), app_nil_r, runs_app, unlinks_app.
  destruct (not_assembly_runs _ Ha) as [R U]. rewrite R, U.
  now rewrite !app_nil_r.
Qed.

(** X8.  A real run in which every archive process and every tar exits
    with 0, and whose final output can be removed or is not there at the
    start, returns 0.  It has appended the segment of every node of the
    walk to the final output, in the order of the walk, and it has
    given to [os.unlink] the old final output first and then every
    segment, in the same order (a segment that cannot be removed costs a
    warning only). *)
Theorem successful_run_assembles_all
        (env : Env) (os : OS) (fuel : nat) (opt : options)
        (top_rev top top_gitdir : string) (gitdirs : GitDirCollection.t)
        (its : list item) :
  dryrun opt = false ->
  effective_format opt = Some "tar" ->
  main_setup env opt = Ok (top_rev, top, top_gitdir, gitdirs) ->
  recursively_iter_repos env gitdirs fuel top (PyStr top_gitdir) top_rev
                         (depth opt) = (its, Finished) ->
  unlink os (output opt) = None
  \/ unlink os (output opt) = Some FileNotFoundError ->
  (forall i n, nth_error (nodes_of its) i = Some n ->
               status os i (node_cmd opt "tar" top i n) = 0%Z
               /\ run_status os (tar_cmd (output opt) (segment opt i))
                  = 0%Z) ->
  let r := main env os fuel opt initial_state in
  let segments := map (segment opt) (seq 0 (List.length (nodes_of its))) in
  fst r = Return 0%Z
  /\ exit_status (fst r) = Some 0%Z
  /\ runs (trace (snd r)) = map (tar_cmd (output opt)) segments
  /\ unlinks (trace (snd r)) = output opt :: segments.
Proof.
  intros Hdry Ef Es Ew Hun Hok r segments. subst r segments.
  destruct (main_real_assemble env os fuel opt initial_state _ _ _ _ _
                               Hdry Ef Es Ew Hun) as [Hr [Hruns Hunl]].
  cbn [initial_state next_pid trace runs unlinks app] in Hr, Hruns, Hunl.
  assert (Hjobs : forallb (job_ok os (output opt))
                          (node_jobs opt "tar" top 0 0 (nodes_of its))
                  = true).
  { apply node_jobs_ok. intros i n Hi. apply (Hok i n Hi). }
  destruct (assemble_all_ok os (output opt) _ 0
                            (List.length (nodes_of its)) Hjobs)
    as [Ho [Ha Hb]].
  rewrite Ho in Hr. cbn [main_result] in Hr.
  rewrite Hr, Hruns, Hunl, Ha, Hb, node_jobs_segments.
  now repeat split.
Qed.

(** X8 on the sample: four segments appended and removed. *)
Lemma successful_run_assembles_all_witness :
  fst (main (Sample.env true) Sample.os 3 Sample.opt initial_state)
  = Return 0%Z
  /\ unlinks (trace (snd (main (Sample.env true) Sample.os 3 Sample.opt
                               initial_state)))
     = ["out.tar"; "out.tar.0"; "out.tar.1"; "out.tar.2"; "out.tar.3"].
Proof.
  destruct (successful_run_assembles_all
              (Sample.env true) Sample.os 3 Sample.opt
              "r0" "/top" "/top/.git" (Sample.gitdirs true)
              (fst (recursively_iter_repos (Sample.env true)
                      (Sample.gitdirs true) 3 "/top" (PyStr "/top/.git")
                      "r0" (-1))))
    as [H1 [_ [_ H2]]].
  - reflexivity.
  - reflexivity.
  - vm_compute. reflexivity.
  - vm_compute. reflexivity.
  - right. reflexivity.
  - intros i n _. split; reflexivity.
  - split; [exact H1|]. rewrite H2. vm_compute. reflexivity.
Defined.

(** X9.  In a real run whose walk has finished and whose final output
    could be removed or was not there, the first archive job that has
    failed ends the run with a
    fatal error naming its command and exit status, and the exit status
    of the program is 1.  Every job had been launched.  Of the segments,
    exactly the ones before the failed job have been appended and given
    to [os.unlink]: the segment of the failed job and those of the later
    jobs are left where they are. *)
Theorem first_failed_job_stops_assembly
        (env : Env) (os : OS) (fuel : nat) (opt : options)
        (top_rev top top_gitdir : string) (gitdirs : GitDirCollection.t)
        (its : list item) (before after : list node) (n : node) :
  dryrun opt = false ->
  effective_format opt = Some "tar" ->
  main_setup env opt = Ok (top_rev, top, top_gitdir, gitdirs) ->
  recursively_iter_repos env gitdirs fuel top (PyStr top_gitdir) top_rev
                         (depth opt) = (its, Finished) ->
  unlink os (output opt) = None
  \/ unlink os (output opt) = Some FileNotFoundError ->
  nodes_of its = before ++ n :: after ->
  (forall i m, nth_error before i = Some m ->
               status os i (node_cmd opt "tar" top i m) = 0%Z
               /\ run_status os (tar_cmd (output opt) (segment opt i))
                  = 0%Z) ->
  let failed := node_cmd opt "tar" top (List.length before) n in
  let rc := status os (List.length before) failed in
  rc <> 0%Z ->
  let r := main env os fuel opt initial_state in
  let segments := map (segment opt) (seq 0 (List.length before)) in
  fst r = Throw (RuntimeError (MsgArchiveFailed (Some rc) failed))
  /\ exit_status (fst r) = Some 1%Z
  /\ List.length (popens (trace (snd r))) = List.length (nodes_of its)
  /\ runs (trace (snd r)) = map (tar_cmd (output opt)) segments
  /\ unlinks (trace (snd r)) = output opt :: segments.
Proof.
  intros Hdry Ef Es Ew Hun Hn Hok failed rc Hrc r segments.
  subst r segments.
  destruct (main_real_assemble env os fuel opt initial_state _ _ _ _ _
                               Hdry Ef Es Ew Hun) as [Hr [Hruns Hunl]].
  cbn [initial_state next_pid trace runs unlinks app] in Hr, Hruns, Hunl.
  rewrite Hn, node_jobs_app in Hr, Hruns, Hunl.
  cbn [node_jobs Nat.add] in Hr, Hruns, Hunl.
  assert (Hjobs : forallb (job_ok os (output opt))
                          (node_jobs opt "tar" top 0 0 before) = true).
  { apply node_jobs_ok. intros i m Hi. apply (Hok i m Hi). }
  match type of Hr with
  | context [assemble os (output opt) (_ ++ (?p, ?a, ?ud) :: ?rest) ?d ?t] =>
      destruct (assemble_first_failure os (output opt) _ p a ud rest d t
                                       Hjobs Hrc) as [Ho [Ha Hb]]
  end.
  rewrite Ho in Hr. cbn [main_result] in Hr.
  rewrite Hr, Hruns, Hunl, Ha, Hb, node_jobs_segments.
  rewrite (launched_commands env os fuel opt initial_state _ _ _ _ _ _
                             Hdry Ef Es Ew).
  cbn [initial_state trace popens app]. rewrite node_cmds_length.
  now repeat split.
Qed.

(** X9 on the sample: the second job fails, the first segment alone is
    appended. *)
Lemma first_failed_job_stops_assembly_witness :
  exit_status (fst (main (Sample.env true) Sample.os_failing 3 Sample.opt
                         initial_state)) = Some 1%Z
  /\ unlinks (trace (snd (main (Sample.env true) Sample.os_failing 3
                               Sample.opt initial_state)))
     = ["out.tar"; "out.tar.0"].
Proof.
  destruct (first_failed_job_stops_assembly
              (Sample.env true) Sample.os_failing 3 Sample.opt
              "r0" "/top" "/top/.git" (Sample.gitdirs true)
              (fst (recursively_iter_repos (Sample.env true)
                      (Sample.gitdirs true) 3 "/top" (PyStr "/top/.git")
                      "r0" (-1)))
              [SampleTree.top] [SampleTree.deep; SampleTree.bar]
              SampleTree.foo)
    as [_ [H1 [_ [_ H2]]]].
  - reflexivity.
  - reflexivity.
  - vm_compute. reflexivity.
  - vm_compute. reflexivity.
  - left. reflexivity.
  - vm_compute. reflexivity.
  - intros i m Hi. destruct i as [|i]; [split; reflexivity|].
    destruct i; discriminate.
  - vm_compute. discriminate.
  - split; [exact H1|]. rewrite H2. vm_compute. reflexivity.
Defined.

(** X10.  Whatever the processes do, a real run appends to the final
    output only segments of its own jobs, each at most once and in the
    order of the walk: the appends are the first [k] segments.  The
    files it gives to [os.unlink] are the final output and then
    segments that have been appended, in the same order. *)
Theorem assembly_appends_a_prefix
        (env : Env) (os : OS) (fuel : nat) (opt : options)
        (top_rev top top_gitdir : string) (gitdirs : GitDirCollection.t)
        (its : list item) (e : ending) :
  dryrun opt = false ->
  effective_format opt = Some "tar" ->
  main_setup env opt = Ok (top_rev, top, top_gitdir, gitdirs) ->
  recursively_iter_repos env gitdirs fuel top (PyStr top_gitdir) top_rev
                         (depth opt) = (its, e) ->
  let tr := trace (snd (main env os fuel opt initial_state)) in
  let segments := map (segment opt) (seq 0 (List.length (nodes_of its))) in
  exists k j,
    j <= S k
    /\ runs tr = firstn k (map (tar_cmd (output opt)) segments)
    /\ unlinks tr = firstn j (output opt :: segments).
Proof.
  intros Hdry Ef Es Ew tr segments. subst tr segments.
  destruct e as [|x|].
  - destruct (unlink os (output opt)) as [x|] eqn:Hun.
    + assert (Hx : x = FileNotFoundError \/ x <> FileNotFoundError)
        by (destruct x; (now left) || (right; discriminate)).
      destruct Hx as [Hx | Hx].
      * subst x.
        destruct (main_real_assemble env os fuel opt initial_state _ _ _ _ _
                    Hdry Ef Es Ew (or_intror Hun)) as [_ [Hruns Hunl]].
        cbn [initial_state next_pid trace runs unlinks app] in Hruns, Hunl.
        destruct (assemble_prefix os (output opt)
                    (node_jobs opt "tar" top 0 0 (nodes_of its)) 0
                    (List.length (nodes_of its))) as [k [j [Hj [Hr Hu]]]].
        rewrite node_jobs_segments in Hr, Hu.
        exists k, (S j). rewrite Hruns, Hunl, Hr, Hu.
        split; [lia|]. now split.
      * destruct (main_real_unlink_failed env os fuel opt initial_state
                    _ _ _ _ _ x Hdry Ef Es Ew Hun Hx) as [_ [Hruns Hunl]].
        exists 0, 1. rewrite Hruns, Hunl. split; [lia|]. now split.
    + destruct (main_real_assemble env os fuel opt initial_state _ _ _ _ _
                  Hdry Ef Es Ew (or_introl Hun)) as [_ [Hruns Hunl]].
      cbn [initial_state next_pid trace runs unlinks app] in Hruns, Hunl.
      destruct (assemble_prefix os (output opt)
                  (node_jobs opt "tar" top 0 0 (nodes_of its)) 0
                  (List.length (nodes_of its))) as [k [j [Hj [Hr Hu]]]].
      rewrite node_jobs_segments in Hr, Hu.
      exists k, (S j). rewrite Hruns, Hunl, Hr, Hu.
      split; [lia|]. now split.
  - destruct (main_real_walk_unfinished env os fuel opt initial_state
                _ _ _ _ _ _ Hdry Ef Es Ew) as [Hruns Hunl]; [discriminate|].
    exists 0, 0. rewrite Hruns, Hunl. split; [lia|]. now split.
  - destruct (main_real_walk_unfinished env os fuel opt initial_state
                _ _ _ _ _ _ Hdry Ef Es Ew) as [Hruns Hunl]; [discriminate|].
    exists 0, 0. rewrite Hruns, Hunl. split; [lia|]. now split.
Qed.

(** X10 on the sample with a failing job. *)
Lemma assembly_appends_a_prefix_witness :
  exists k j,
    j <= S k
    /\ runs (trace (snd (main (Sample.env true) Sample.os_failing 3
                              Sample.opt initial_state)))
       = firstn k (map (tar_cmd "out.tar")
                       (map (segment Sample.opt) (seq 0 4)))
    /\ unlinks (trace (snd (main (Sample.env true) Sample.os_failing 3
                                 Sample.opt initial_state)))
       = firstn j ("out.tar" :: map (segment Sample.opt) (seq 0 4)).
Proof.
  apply (assembly_appends_a_prefix
           (Sample.env true) Sample.os_failing 3 Sample.opt
           "r0" "/top" "/top/.git" (Sample.gitdirs true)
           (fst (recursively_iter_repos (Sample.env true)
                   (Sample.gitdirs true) 3 "/top" (PyStr "/top/.git")
                   "r0" (-1)))
           Finished).
  - reflexivity.
  - reflexivity.
  - vm_compute. reflexivity.
  - vm_compute. reflexivity.
Defined.

(** The walk when the listing of the top revision fails. *)
Lemma walk_listing_failed env gitdirs fuel top top_gitdir top_rev d rc out :
  PyString.truthy top_gitdir = true ->
  run_lines env ["git"; "--git-dir"; top_gitdir;
                 "ls-tree"; "-r"; "--full-tree"; top_rev] = (rc, out) ->
  rc <> 0%Z ->
  let m := MsgCommandFailed rc ["git"; "--git-dir"; top_gitdir;
                                "ls-tree"; "-r"; "--full-tree"; top_rev] in
  recursively_iter_repos env gitdirs (S fuel) top (PyStr top_gitdir) top_rev d
  = ([Yield (top, PyStr top_gitdir, top_rev); Say (Fatal m)],
     Raised (RuntimeError m)).
Proof.
  intros Hg Hrun Hrc m. cbn [recursively_iter_repos].
  unfold iter_git_submodules_at_rev. rewrite git_gitdir_checked.
  cbn [py_truthy py_str]. rewrite Hg. unfold run. cbn [app]. rewrite Hrun.
  apply Z.eqb_neq in Hrc. rewrite Hrc. cbn [negb andb fatal].
  reflexivity.
Qed.

(** X20.  When [git ls-tree] fails on the top revision, a real run ends
    with the fatal error of the failed command and the exit status 1.
    By then the archive job of the top repository has been launched;
    nothing is assembled and no file is removed, so the final output is
    left as it was. *)
Theorem failed_listing_is_fatal
        (env : Env) (os : OS) (fuel : nat) (opt : options)
        (top_rev top top_gitdir : string) (gitdirs : GitDirCollection.t)
        (rc : Z) (out : list (list string)) :
  dryrun opt = false ->
  effective_format opt = Some "tar" ->
  main_setup env opt = Ok (top_rev, top, top_gitdir, gitdirs) ->
  PyString.truthy top_gitdir = true ->
  run_lines env ["git"; "--git-dir"; top_gitdir;
                 "ls-tree"; "-r"; "--full-tree"; top_rev] = (rc, out) ->
  rc <> 0%Z ->
  let r := main env os (S fuel) opt initial_state in
  let m := MsgCommandFailed rc ["git"; "--git-dir"; top_gitdir;
                                "ls-tree"; "-r"; "--full-tree"; top_rev] in
  fst r = Throw (RuntimeError m)
  /\ exit_status (fst r) = Some 1%Z
  /\ In (EvSay (Fatal m)) (trace (snd r))
  /\ popens (trace (snd r))
     = [node_cmd opt "tar" top 0 (top, PyStr top_gitdir, top_rev)]
  /\ runs (trace (snd r)) = []
  /\ unlinks (trace (snd r)) = [].
Proof.
  intros Hdry Ef Es Hg Hrun Hrc r m. subst r.
  pose proof (walk_listing_failed env gitdirs fuel top top_gitdir top_rev
                                  (depth opt) rc out Hg Hrun Hrc) as Ew.
  cbv zeta in Ew. fold m in Ew.
  rewrite (main_walk_raised env os (S fuel) opt initial_state _ _ _ _ _ _
                            Ef Es Ew).
  split; [reflexivity|]. split; [reflexivity|].
  destruct (main_real_walk_unfinished env os (S fuel) opt initial_state
              _ _ _ _ _ _ Hdry Ef Es Ew) as [Hruns Hunl]; [discriminate|].
  rewrite Hruns, Hunl.
  rewrite (launched_commands env os (S fuel) opt initial_state _ _ _ _ _ _
                             Hdry Ef Es Ew).
  split; [|now repeat split].
  rewrite (main_after_setup env os opt (S fuel) initial_state _ _ _ _ _ _
                            Ef Es Ew).
  cbn [main_nodes].
  assert (Hu : under top (top, PyStr top_gitdir, top_rev))
    by apply under_refl.
  destruct (main_node_real os opt "tar" top top (PyStr top_gitdir) top_rev
                           (ParallelJobs.init (opt_nproc opt)) 0
                           initial_state Hdry Hu)
    as [jobs' [st' [l [k [E Ht]]]]].
  rewrite (bind_return _ _ _ _ _
             (bind_return _ _ _ _ _ E)).
  unfold bind, say, emit, ret, generator_end, throw. cbn [fst snd trace].
  apply in_or_app. right. now left.
Qed.

(** X20 on the sample with a failing listing. *)
Lemma failed_listing_is_fatal_witness :
  exit_status (fst (main SampleBroken.no_listing Sample.os 1 Sample.opt
                         initial_state)) = Some 1%Z
  /\ unlinks (trace (snd (main SampleBroken.no_listing Sample.os 1
                               Sample.opt initial_state))) = [].
Proof.
  destruct (failed_listing_is_fatal
              SampleBroken.no_listing Sample.os 0 Sample.opt
              "r0" "/top" "/top/.git" (Sample.gitdirs true) 128 [])
    as [_ [H1 [_ [_ [_ H2]]]]].
  - reflexivity.
  - reflexivity.
  - vm_compute. reflexivity.
  - reflexivity.
  - reflexivity.
  - discriminate.
  - split; [exact H1 | exact H2].
Defined.

(** X21.  Without [--debug], when [git rev-parse] does not resolve the
    revision to archive (the tree-ish given, [HEAD] by default), the run
    ends at once with the fatal error of the failed command and the exit
    status 1: the fatal line is its only effect, in a dry run and in a
    real run alike.  (With [--debug], [run] prints the command before
    it runs it; that line is not modelled, and the statement leaves
    such runs out.) *)
Theorem unresolved_revision_is_fatal
        (env : Env) (os : OS) (fuel : nat) (opt : options) (st : state)
        (rc : Z) (out : string) :
  debug opt = false ->
  effective_format opt = Some "tar" ->
  let rev := match tree_ish opt with
             | None => "HEAD"
             | Some r => r
             end in
  run_text env ["git"; "rev-parse"; rev] = (rc, out) ->
  rc <> 0%Z ->
  let m := MsgCommandFailed rc ["git"; "rev-parse"; rev] in
  main env os fuel opt st
  = (Throw (RuntimeError m), with_trace st [EvSay (Fatal m)])
  /\ exit_status (fst (main env os fuel opt st)) = Some 1%Z.
Proof.
  intros _ Ef rev Hrun Hrc m.
  assert (Es : main_setup env opt = Raise (RuntimeError m)).
  { unfold main_setup. fold rev. unfold git at 1. cbn [opt_truthy app].
    unfold run. rewrite Hrun. apply Z.eqb_neq in Hrc. rewrite Hrc.
    reflexivity. }
  rewrite (main_setup_failed env os opt fuel st _ Ef Es).
  now split.
Qed.

(** X21 outside of a repository. *)
Lemma unresolved_revision_is_fatal_witness :
  exit_status (fst (main (SampleBroken.constant 128 []) Sample.os 3
                         Sample.opt initial_state)) = Some 1%Z.
Proof.
  apply (unresolved_revision_is_fatal
           (SampleBroken.constant 128 []) Sample.os 3 Sample.opt
           initial_state 128 "").
  - reflexivity.
  - reflexivity.
  - reflexivity.
  - discriminate.
Defined.
